(** * ZX live, editor base panel: the phase parser and the editing policy

    A shallow embedding of [zxlive/editor_base_panel.py] and of the part of
    [zxlive/base_panel.py] it relies on.

    - Part I models the Python values [string_to_phase] works on: strings as
      sequences of Unicode code points, [int()], [float()] and
      [fractions.Fraction].
    - Part II is [string_to_phase] itself.
    - Part III models the panel: the graph, the undo stack and the gesture
      handlers [delete_selection], [add_edge] and [vert_double_clicked].
    - Part IV defines the notions the theorems are stated with, and goes
      on with the rest of the panel: the variable viewer, the side bar and
      the actions of the base panel.
    - Part V holds the theorems on the parser, the edge gesture, the
      deletion and the double click; Part VI holds further properties. *)

From Stdlib Require Import ZArith QArith Qabs Qpower Qfield Lqa List Bool Lia.
From Stdlib Require Import ZifyBool.
From Stdlib Require Import String Ascii.
From stdpp Require Import gmap strings list.

Set Default Proof Using "Type".
Open Scope Z_scope.

(** * Part I: Python values *)

(** ** Exceptions and results *)

(** The exception classes that can leave the modelled code.  sympy's
    [SympifyError] is a subclass of [ValueError] and is not told apart from
    it; [InvalidEdge] and [DanglingWPartner] are the graph model's legality
    failures; [OtherException] stands for any other class, by its name. *)
Inductive PyExc : Set :=
| ValueError
| ZeroDivisionError
| OverflowError
| KeyError
| InvalidEdge
| DanglingWPartner
| OtherException (class : string).

Inductive result (A : Type) : Type :=
| Ok (a : A)
| Raise (e : PyExc).
Arguments Ok {A} a.
Arguments Raise {A} e.

Definition bind {A B} (r : result A) (k : A -> result B) : result B :=
  match r with
  | Ok a => k a
  | Raise e => Raise e
  end.

Notation "x <- r ;; k" := (bind r (fun x => k))
  (at level 100, r at next level, right associativity).

(** [try: body except ValueError: handler]. *)
Definition try_except_ValueError {A} (body handler : result A) : result A :=
  match body with
  | Raise ValueError => handler
  | other => other
  end.

(** ** Strings *)

(** A Python [str] is a sequence of code points. *)
Abbreviation char := Z (only parsing).
Abbreviation str := (list Z) (only parsing).

Definition chr (a : ascii) : char := Z.of_N (N_of_ascii a).

(** An ASCII literal as a [str]. *)
Fixpoint lit (s : string) : str :=
  match s with
  | EmptyString => []
  | String a r => chr a :: lit r
  end.

(** U+03C0 GREEK SMALL LETTER PI, written ['π'] in the source. *)
Definition GREEK_PI : char := 960.

Definition str_eqb (a b : str) : bool := bool_decide (a = b).

(** [c in s] for a one-character [c]. *)
Definition contains (c : char) (s : str) : bool := existsb (Z.eqb c) s.

(** [str.lower()], one code point at a time.  The ASCII capitals, and the
    three other code points whose lower case is an ASCII letter or the
    letter pi, are mapped as Python does; the remaining cased letters lie
    outside ASCII before and after the mapping, where nothing below tells
    them apart, and are left in place. *)
Definition lower_char (c : char) : list char :=
  if (65 <=? c) && (c <=? 90) then [c + 32]
  else if c =? 304 then [105; 775]
  else if c =? 928 then [GREEK_PI]
  else if c =? 8490 then [107]
  else [c].

Definition lower (s : str) : str := flat_map lower_char s.

Fixpoint starts_with (p s : str) : bool :=
  match p, s with
  | [], _ => true
  | a :: p', b :: s' => (a =? b) && starts_with p' s'
  | _ :: _, [] => false
  end.

(** [s.replace(old, new)] for a non-empty [old]: the occurrences are found
    from the left and do not overlap.  [skip] counts the characters of the
    current occurrence that are still to be dropped. *)
Fixpoint replace_from (old new : str) (skip : nat) (s : str) : str :=
  match s with
  | [] => []
  | c :: t =>
      match skip with
      | S k => replace_from old new k t
      | O =>
          if starts_with old s
          then new ++ replace_from old new (Nat.pred (length old)) t
          else c :: replace_from old new O t
      end
  end.

Definition replace (old new s : str) : str := replace_from old new O s.

(** The first occurrence of [sep] cuts [s] in two. *)
Fixpoint partition_at (sep : char) (s : str) : option (str * str) :=
  match s with
  | [] => None
  | c :: t =>
      if c =? sep then Some ([], t)
      else match partition_at sep t with
           | Some (a, b) => Some (c :: a, b)
           | None => None
           end
  end.

(** [s.split(sep, maxsplit)] for a one-character [sep]. *)
Fixpoint split (sep : char) (maxsplit : nat) (s : str) : list str :=
  match maxsplit with
  | O => [s]
  | S k =>
      match partition_at sep s with
      | Some (a, b) => a :: split sep k b
      | None => [s]
      end
  end.

(** [str.isspace()] for one character ([Py_UNICODE_ISSPACE]). *)
Definition is_space (c : char) : bool :=
  ((9 <=? c) && (c <=? 13)) || ((28 <=? c) && (c <=? 32))
  || (c =? 133) || (c =? 160) || (c =? 5760)
  || ((8192 <=? c) && (c <=? 8202)) || (c =? 8232) || (c =? 8233)
  || (c =? 8239) || (c =? 8287) || (c =? 12288).

(** The white space [int()] and [float()] skip at both ends: that of
    [isspace] without the four ASCII separators U+001C to U+001F, which
    they do not take for blanks. *)
Definition is_number_space (c : char) : bool :=
  is_space c && negb ((28 <=? c) && (c <=? 31)).

Fixpoint lstrip_by (f : char -> bool) (s : str) : str :=
  match s with
  | c :: t => if f c then lstrip_by f t else s
  | [] => []
  end.

Definition strip_by (f : char -> bool) (s : str) : str :=
  rev (lstrip_by f (rev (lstrip_by f s))).

(** [s.strip()]. *)
Abbreviation strip := (strip_by is_space).

(** The text between the blanks [int()] and [float()] skip. *)
Abbreviation number_strip := (strip_by is_number_space).

(** The decimal digits are the ASCII ones; the digits of other scripts,
    which [int()] and [float()] also read, are not modelled. *)
Definition is_digit (c : char) : bool := (48 <=? c) && (c <=? 57).

Definition UNDERSCORE : char := 95.

(** ** [int()] *)

(** [digitpart ::= digit (["_"] digit)*], read on top of the value [acc]
    and the digit count [k]; the last component is what follows the digit
    part.  [None]: no digit part starts here. *)
Fixpoint digitpart (acc : Z) (k : Z) (s : str) : option (Z * Z * str) :=
  match s with
  | [] => None
  | c :: t =>
      if is_digit c then
        let acc' := 10 * acc + (c - 48) in
        let next :=
          match t with
          | u :: t' => if u =? UNDERSCORE then t' else t
          | [] => t
          end in
        match digitpart acc' (k + 1) next with
        | Some r => Some r
        | None => Some (acc', k + 1, t)
        end
      else None
  end.

(** An optional sign; [true] stands for ["-"]. *)
Definition sign (s : str) : bool * str :=
  match s with
  | c :: t =>
      if c =? chr "-" then (true, t)
      else if c =? chr "+" then (false, t)
      else (false, s)
  | [] => (false, [])
  end.

Definition apply_sign (neg : bool) (n : Z) : Z := if neg then - n else n.

(** [int(s)] in base ten: white space around, an optional sign, and one
    digit part that reaches the end of the string.  The integers are
    unbounded; the interpreter's optional cap on the number of digits is
    not modelled. *)
Definition py_int (s : str) : result Z :=
  let '(neg, body) := sign (number_strip s) in
  match digitpart 0 0 body with
  | Some (n, _, []) => Ok (apply_sign neg n)
  | _ => Raise ValueError
  end.

(** ** [float()] *)

(** A Python [float] by its value: a finite double is the rational it
    stands for (minus zero is zero). *)
Inductive pyfloat : Set :=
| FFinite (q : Q)
| FInf (neg : bool)
| FNan.

(** The integer nearest to [n / d], ties to the even one ([0 <= n], [0 < d]). *)
Definition nearest_even (n d : Z) : Z :=
  let q := n / d in
  let r := n mod d in
  if 2 * r <? d then q
  else if d <? 2 * r then q + 1
  else if Z.even q then q else q + 1.

(** [floor (log2 (n / d))] for [0 < n], [0 < d]. *)
Definition floor_log2 (n d : Z) : Z :=
  let k := Z.log2 n - Z.log2 d in
  if d * 2 ^ Z.max 0 k <=? n * 2 ^ Z.max 0 (- k) then k else k - 1.

(** The exponent of the unit in the last place of the binary64 numbers
    around [n / d]: 53 significant bits, and no exponent below -1074. *)
Definition ulp_exponent (n d : Z) : Z := Z.max (floor_log2 n d - 52) (-1074).

(** [m * 2 ^ e] as a fraction in lowest terms. *)
Definition scaled (m e : Z) : Q :=
  Qred (Qmake (m * 2 ^ Z.max 0 e) (Z.to_pos (2 ^ Z.max 0 (- e)))).

(** Rounding of [n / d] ([0 <= n], [0 < d]) to the nearest binary64
    number, ties to even; [None] when the result is infinite. *)
Definition round_binary64 (n d : Z) : option Q :=
  if n =? 0 then Some 0%Q
  else
    let e := ulp_exponent n d in
    let m := nearest_even (n * 2 ^ Z.max 0 (- e)) (d * 2 ^ Z.max 0 e) in
    if 2 ^ 1024 <=? m * 2 ^ Z.max 0 e then None else Some (scaled m e).

(** The double nearest to [(-1)^neg * m * 10^e]. *)
Definition decimal_to_float (neg : bool) (m e : Z) : pyfloat :=
  match round_binary64 (m * 10 ^ Z.max 0 e) (10 ^ Z.max 0 (- e)) with
  | Some q => FFinite (if neg then Qopp q else q)
  | None => FInf neg
  end.

(** [exponent ::= ("e" | "E") [sign] digitpart], up to the end of the
    string; no exponent at all counts as zero. *)
Definition exponent (s : str) : option Z :=
  match s with
  | [] => Some 0
  | c :: t =>
      if (c =? chr "e") || (c =? chr "E") then
        let '(neg, body) := sign t in
        match digitpart 0 0 body with
        | Some (x, _, []) => Some (apply_sign neg x)
        | _ => None
        end
      else None
  end.

(** [floatnumber ::= number [exponent]] with
    [number ::= [digitpart] "." digitpart | digitpart ["."]]: the digits as
    one integer and the power of ten that goes with it. *)
Definition floatnumber (s : str) : option (Z * Z) :=
  let '(ipart, r1) :=
    match digitpart 0 0 s with
    | Some (n, _, r) => (Some n, r)
    | None => (None, s)
    end in
  let after_point :=
    match r1 with
    | c :: r2 =>
        if c =? chr "." then
          match digitpart (match ipart with Some n => n | None => 0 end) 0 r2 with
          | Some (m, k, r3) => Some (m, k, r3)
          | None => match ipart with
                    | Some n => Some (n, 0, r2)
                    | None => None
                    end
          end
        else match ipart with
             | Some n => Some (n, 0, r1)
             | None => None
             end
    | [] => match ipart with
            | Some n => Some (n, 0, [])
            | None => None
            end
    end in
  match after_point with
  | Some (m, k, r) =>
      match exponent r with
      | Some x => Some (m, x - k)
      | None => None
      end
  | None => None
  end.

(** [float(s)]: white space around, an optional sign, then ["inf"],
    ["infinity"] or ["nan"] in any case, or a decimal literal. *)
Definition py_float (s : str) : result pyfloat :=
  let '(neg, body) := sign (number_strip s) in
  let word := lower body in
  if str_eqb word (lit "inf") || str_eqb word (lit "infinity") then Ok (FInf neg)
  else if str_eqb word (lit "nan") then Ok FNan
  else
    match floatnumber body with
    | Some (m, e) => Ok (decimal_to_float neg m e)
    | None => Raise ValueError
    end.

(** ** [fractions.Fraction] *)

(** A [Fraction] is a rational in lowest terms with a positive denominator,
    so two of them are equal when they are the same pair. *)
Definition Fraction_of_int (n : Z) : Q := Qmake n 1.

(** [Fraction(n, d)]. *)
Definition Fraction (n d : Z) : result Q :=
  if d =? 0 then Raise ZeroDivisionError
  else Ok (Qred (Qmake (Z.sgn d * n) (Z.to_pos (Z.abs d)))).

(** [Fraction(x)] for a float [x], through [x.as_integer_ratio()]. *)
Definition Fraction_of_float (x : pyfloat) : result Q :=
  match x with
  | FFinite q => Ok (Qred q)
  | FInf _ => Raise OverflowError
  | FNan => Raise ValueError
  end.

(** * Part II: the phase parser *)

(** What the symbolic fall-back returns, as far as this development tells
    such values apart: sympy's singletons that are not finite numbers, and
    every other expression by its printed form. *)
Inductive Expr : Set :=
| NaN
| Infinity
| NegativeInfinity
| ComplexInfinity
| Other (printed : str).

(** A phase is a [Fraction] or a symbolic expression. *)
Inductive Phase : Set :=
| PFraction (q : Q)
| PExpr (e : Expr).

(** The value is NaN or an infinity. *)
Definition is_nan_or_infinite (p : Phase) : bool :=
  match p with
  | PFraction _ => false
  | PExpr (Other _) => false
  | PExpr _ => true
  end.

(** The two replacements of lines 358 and 359: lower case without blanks,
    then without the letter pi and without ["pi"]. *)
Definition normalise (string : str) : str :=
  let s := replace (lit " ") [] (lower string) in
  replace (lit "pi") [] (replace [GREEK_PI] [] s).

(** Lines 360 to 370, on the normalised text [s]. *)
Definition numeric_token (s : str) : result Q :=
  if contains (chr ".") s || contains (chr "e") s then
    x <- py_float s ;; Fraction_of_float x
  else if contains (chr "/") s then
    match split (chr "/") 2 s with
    | [a; b] =>
        if str_eqb a [] then
          d <- py_int b ;; Fraction 1 d
        else
          let a := if str_eqb a (lit "-") then lit "-1" else a in
          n <- py_int a ;; d <- py_int b ;; Fraction n d
    | _ => Raise ValueError
    end
  else
    n <- py_int s ;; Ok (Fraction_of_int n).

(** The body of the [try] block, lines 358 to 370. *)
Definition numeric_phase (string : str) : result Q :=
  numeric_token (normalise string).

Section StringToPhase.

(** [sympy.sympify], on strings.  It belongs to a library and is taken as
    it comes. *)
Variable sympify : str -> result Expr.

Definition string_to_phase (string : str) : result Phase :=
  if str_eqb string [] then Ok (PFraction (Fraction_of_int 0))
  else
    try_except_ValueError
      (q <- numeric_phase string ;; Ok (PFraction q))
      (e <- sympify string ;; Ok (PExpr e)).

End StringToPhase.

(** sympy binds the names [nan], [oo] and [zoo] to its singletons, and
    [sympify] evaluates a name to what it is bound to.  This table holds
    these three entries of [sympify] and no other: a string without an entry
    is turned down here, whatever sympy makes of it. *)
Definition sympify_names (s : str) : result Expr :=
  if str_eqb s (lit "nan") then Ok NaN
  else if str_eqb s (lit "oo") then Ok Infinity
  else if str_eqb s (lit "zoo") then Ok ComplexInfinity
  else Raise ValueError.

(** A symbolic fall-back with no grammar at all. *)
Definition no_grammar (s : str) : result Expr := Raise ValueError.


(** * Part III: the graph, the undo stack and the panel *)

(** ** The graph *)

(** Vertices are integer handles, edges pairs of them. *)
Abbreviation VT := Z (only parsing).
Abbreviation ET := (Z * Z)%type (only parsing).

Module VertexType.
Inductive Type_ : Set := BOUNDARY | Z | X | H_BOX | W_INPUT | W_OUTPUT.
#[global] Instance eq_dec : EqDecision Type_.
Proof. solve_decision. Defined.
End VertexType.

Module EdgeType.
Inductive Type_ : Set := SIMPLE | HADAMARD.
#[global] Instance eq_dec : EqDecision Type_.
Proof. solve_decision. Defined.
End EdgeType.

(** Modelled from the spec: [pyzx.utils.vertex_is_w] is not under src/; a W
    vertex is one whose kind is W-input or W-output. *)
Definition vertex_is_w (ty : VertexType.Type_) : bool :=
  bool_decide (ty = VertexType.W_INPUT) || bool_decide (ty = VertexType.W_OUTPUT).

(** Modelled from the spec: the vertex of section 3, with its kind, phase,
    position and optional integer qubit index. *)
Record Vertex : Type := {
  kind : VertexType.Type_;
  phase : Phase;
  pos_x : Q;
  pos_y : Q;
  qubit : option Z;
}.

(** Modelled from the spec: the graph class is not under src/.  The graph of
    section 3 has a vertex set with attributes, a set of ordinary edges on
    unordered pairs, and the pairing of the W vertices, which is part of the
    graph and not a stored edge. *)
Record GraphT : Type := {
  vertices : gmap VT Vertex;
  edges : gmap ET EdgeType.Type_;
  w_partner : gmap VT VT;
}.

(** The key of the unordered pair [{u, v}]. *)
Definition edge_key (u v : VT) : ET := if u <? v then (u, v) else (v, u).

(** Modelled from the spec: [g.type(v)]; an unknown handle is a [KeyError]. *)
Definition type (g : GraphT) (v : VT) : result VertexType.Type_ :=
  match vertices g !! v with
  | Some x => Ok (kind x)
  | None => Raise KeyError
  end.

(** Modelled from the spec: [pyzx.utils.get_w_partner] is not under src/; it
    reads the pairing of section 3. *)
Definition get_w_partner (g : GraphT) (v : VT) : result VT :=
  match w_partner g !! v with
  | Some u => Ok u
  | None => Raise KeyError
  end.

(** Modelled from the spec: [g.neighbors(v)], the other ends of the ordinary
    edges at [v]. *)
Definition other_end (v : VT) (e : ET * EdgeType.Type_) : option VT :=
  let '((a, b), _) := e in
  if a =? v then Some b else if b =? v then Some a else None.

Definition neighbors (g : GraphT) (v : VT) : list VT :=
  omap (other_end v) (map_to_list (edges g)).

(** Modelled from the spec: [remove_edges(ids)]. *)
Definition remove_edges (g : GraphT) (es : list ET) : GraphT :=
  {| vertices := vertices g;
     edges := foldr (fun e m => delete (edge_key e.1 e.2) m) (edges g) es;
     w_partner := w_partner g |}.

(** The partner of every W vertex of [vs] is in [vs] too. *)
Definition closed_under_partner (g : GraphT) (vs : list VT) : bool :=
  forallb (fun v => match w_partner g !! v with
                    | Some u => bool_decide (u ∈ vs)
                    | None => true
                    end) vs.

(** Modelled from the spec: [remove_vertices(ids)] of section 4.3 takes the
    vertices out together with their edges, and fails with
    [DanglingWPartner] when asked to remove a W vertex without its partner. *)
Definition remove_vertices (g : GraphT) (vs : list VT) : result GraphT :=
  if closed_under_partner g vs then
    Ok {| vertices := filter (fun kv => kv.1 ∉ vs) (vertices g);
          edges := filter (fun kv => (kv.1.1 ∉ vs) ∧ (kv.1.2 ∉ vs)) (edges g);
          w_partner := filter (fun kv => kv.1 ∉ vs) (w_partner g) |}
  else Raise DanglingWPartner.

(** Modelled from the spec: [set_qubit(v, q)], direct attribute mutation. *)
Definition set_qubit (g : GraphT) (v : VT) (q : Z) : GraphT :=
  {| vertices :=
       alter (fun x => {| kind := kind x; phase := phase x; pos_x := pos_x x;
                          pos_y := pos_y x; qubit := Some q |}) v (vertices g);
     edges := edges g;
     w_partner := w_partner g |}.

(** Modelled from the spec: [set_phase(id, value)], direct attribute
    mutation. *)
Definition set_phase (g : GraphT) (v : VT) (ph : Phase) : GraphT :=
  {| vertices :=
       alter (fun x => {| kind := kind x; phase := ph; pos_x := pos_x x;
                          pos_y := pos_y x; qubit := qubit x |}) v (vertices g);
     edges := edges g;
     w_partner := w_partner g |}.

(** A W-input that already bears two ordinary edges. *)
Definition w_input_full (g : GraphT) (v : VT) : bool :=
  match vertices g !! v with
  | Some x => bool_decide (kind x = VertexType.W_INPUT)
              && (2 <=? length (neighbors g v))%nat
  | None => false
  end.

(** Modelled from the spec: [add_edge(u, v, kind)] of section 4.3, which
    fails with [InvalidEdge] on a loop, on a pair that already has an
    ordinary edge, on a full W-input and on a W pair. *)
Definition graph_add_edge (g : GraphT) (u v : VT) (k : EdgeType.Type_)
  : result GraphT :=
  if u =? v then Raise InvalidEdge
  else if bool_decide (is_Some (edges g !! edge_key u v)) then Raise InvalidEdge
  else if w_input_full g u || w_input_full g v then Raise InvalidEdge
  else if bool_decide (w_partner g !! u = Some v) then Raise InvalidEdge
  else Ok {| vertices := vertices g;
             edges := <[edge_key u v := k]> (edges g);
             w_partner := w_partner g |}.

(** ** Commands and the undo stack *)

(** Modelled from the spec: zxlive/commands.py is not under src/.  These are
    the commands the three handlers build, with the arguments the handlers
    pass (the graph view, always the panel's own, is left out). *)
Inductive Command : Type :=
| AddEdge (u v : VT) (ety : EdgeType.Type_)
| SetGraph (new_g : GraphT)
| UpdateGraph (new_g : GraphT)
| ChangePhase (v : VT) (new_phase : Phase).

(** Modelled from the spec: applying a command (section 4.4).  A command
    either applies in full or fails before it takes effect. *)
Definition apply_command (c : Command) (g : GraphT) : result GraphT :=
  match c with
  | AddEdge u v ety => graph_add_edge g u v ety
  | SetGraph new_g => Ok new_g
  | UpdateGraph new_g => Ok new_g
  | ChangePhase v ph => Ok (set_phase g v ph)
  end.

(** Modelled from the spec: the undo stack of section 4.5, as the applied
    commands (newest first) and the undone ones that can be redone. *)
Record UndoStack : Type := {
  applied : list Command;
  redoable : list Command;
}.

(** ** The panel *)

(** The state an [EditorBasePanel] handler reads and writes: the graph of
    the scene, the selection, the undo stack, the current kinds, the
    variable table with its viewer, and the error dialogs shown so far. *)
Record Panel : Type := {
  g : GraphT;
  selected_vertices : list VT;
  selected_edges : list ET;
  undo_stack : UndoStack;
  _curr_ety : EdgeType.Type_;
  _curr_vty : VertexType.Type_;
  variable_types : gmap str bool;
  variable_viewer : list str;
  error_msgs : list (string * string);
}.

(** A handler runs on the panel and returns or raises; the panel it leaves
    behind is there in both cases. *)
Definition M (A : Type) : Type := Panel -> result A * Panel.

Definition ret {A} (a : A) : M A := fun p => (Ok a, p).

Definition raise {A} (e : PyExc) : M A := fun p => (Raise e, p).

Definition mbind {A B} (m : M A) (k : A -> M B) : M B :=
  fun p =>
    match m p with
    | (Ok a, p') => k a p'
    | (Raise e, p') => (Raise e, p')
    end.

Definition lift {A} (r : result A) : M A := fun p => (r, p).

Definition gets {A} (f : Panel -> A) : M A := fun p => (Ok (f p), p).

Definition modify (f : Panel -> Panel) : M unit := fun p => (Ok tt, f p).

Declare Scope panel_scope.
Delimit Scope panel_scope with M.
Bind Scope panel_scope with M.
Notation "x <- m ;; k" := (mbind m (fun x => k))
  (at level 100, m at next level, right associativity) : panel_scope.
Notation "m ;;; k" := (mbind m (fun _ => k))
  (at level 100, right associativity) : panel_scope.

Definition set_g (new_g : GraphT) (p : Panel) : Panel :=
  {| g := new_g;
     selected_vertices := selected_vertices p;
     selected_edges := selected_edges p;
     undo_stack := undo_stack p;
     _curr_ety := _curr_ety p;
     _curr_vty := _curr_vty p;
     variable_types := variable_types p;
     variable_viewer := variable_viewer p;
     error_msgs := error_msgs p |}.

Definition set_undo_stack (s : UndoStack) (p : Panel) : Panel :=
  {| g := g p;
     selected_vertices := selected_vertices p;
     selected_edges := selected_edges p;
     undo_stack := s;
     _curr_ety := _curr_ety p;
     _curr_vty := _curr_vty p;
     variable_types := variable_types p;
     variable_viewer := variable_viewer p;
     error_msgs := error_msgs p |}.

(** [self.graph_scene.clearSelection()]. *)
Definition clearSelection : M unit :=
  modify (fun p =>
    {| g := g p;
       selected_vertices := [];
       selected_edges := [];
       undo_stack := undo_stack p;
       _curr_ety := _curr_ety p;
       _curr_vty := _curr_vty p;
       variable_types := variable_types p;
       variable_viewer := variable_viewer p;
       error_msgs := error_msgs p |}).

(** Modelled from the spec: [show_error_msg] of zxlive/dialogs.py reports
    to the user; the report is kept in [error_msgs]. *)
Definition show_error_msg (title description : string) : M unit :=
  modify (fun p =>
    {| g := g p;
       selected_vertices := selected_vertices p;
       selected_edges := selected_edges p;
       undo_stack := undo_stack p;
       _curr_ety := _curr_ety p;
       _curr_vty := _curr_vty p;
       variable_types := variable_types p;
       variable_viewer := variable_viewer p;
       error_msgs := error_msgs p ++ [(title, description)] |}).

(** Modelled from the spec: [undo_stack.push(cmd)] of section 4.5 applies
    the command to the graph, drops what could be redone and appends the
    command.  A command that fails is declined: nothing changes and the
    failure goes to the caller. *)
Definition push (cmd : Command) : M unit :=
  fun p =>
    match apply_command cmd (g p) with
    | Ok g' =>
        (Ok tt,
         set_undo_stack {| applied := cmd :: applied (undo_stack p);
                           redoable := [] |} (set_g g' p))
    | Raise e => (Raise e, p)
    end.

(** ** [delete_selection] *)

(** The loop of lines 128 to 130: [rem_vertices] grows by the partner of
    every W vertex of the selection, in the order of the selection. *)
Fixpoint append_w_partners (graph : GraphT) (selection rem_vertices : list VT)
  : result (list VT) :=
  match selection with
  | [] => Ok rem_vertices
  | v :: rest =>
      ty <- type graph v ;;
      if vertex_is_w ty then
        u <- get_w_partner graph v ;;
        append_w_partners graph rest (rem_vertices ++ [u])
      else append_w_partners graph rest rem_vertices
  end.

(** [set(rem_vertices)]. *)
Definition as_set (l : list VT) : gset VT := list_to_set l.

Definition is_empty {A} (l : list A) : bool :=
  match l with [] => true | _ => false end.

Definition delete_selection : M unit :=
  (selection <- gets selected_vertices ;;
   selected_edges <- gets selected_edges ;;
   graph <- gets g ;;
   rem_vertices <- lift (append_w_partners graph selection selection) ;;
   if is_empty rem_vertices && is_empty selected_edges then ret tt
   else
     let new_g := graph in
     clearSelection ;;;
     let new_g := remove_edges new_g selected_edges in
     new_g <- lift (remove_vertices new_g (elements (as_set rem_vertices))) ;;
     let cmd := if (128 <? size (as_set rem_vertices))%nat
                then SetGraph new_g
                else UpdateGraph new_g in
     push cmd)%M.

(** ** [add_edge] *)

Definition add_edge (u v : VT) : M unit :=
  (graph <- gets g ;;
   ty_u <- lift (type graph u) ;;
   paired <- (if vertex_is_w ty_u
              then (w <- lift (get_w_partner graph u) ;; ret (w =? v))
              else ret false) ;;
   if paired : bool then ret tt
   else
     full <- (if bool_decide (ty_u = VertexType.W_INPUT)
                 && (2 <=? length (neighbors graph u))%nat
              then ret true
              else (ty_v <- lift (type graph v) ;;
                    ret (bool_decide (ty_v = VertexType.W_INPUT)
                         && (2 <=? length (neighbors graph v))%nat))) ;;
     if full : bool then ret tt
     else
       ety <- gets _curr_ety ;;
       push (AddEdge u v ety))%M.

(** ** [vert_double_clicked] *)

Section DoubleClick.

(** [zxlive.parse_poly.parse] is not under src/.  It is taken as it comes:
    on a text and the variable table it names the variables it hands to
    the resolver, in order, and returns a phase or raises. *)
Variable parse : str -> gmap str bool -> list str * result Phase.

(** [_new_var], as far as the panel is concerned: an unseen name enters
    the table as parametric and gets a row in the viewer. *)
Definition _new_var (name : str) : M unit :=
  fun p =>
    match variable_types p !! name with
    | Some _ => (Ok tt, p)
    | None =>
        (Ok tt,
         {| g := g p;
            selected_vertices := selected_vertices p;
            selected_edges := selected_edges p;
            undo_stack := undo_stack p;
            _curr_ety := _curr_ety p;
            _curr_vty := _curr_vty p;
            variable_types := <[name := false]> (variable_types p);
            variable_viewer := variable_viewer p ++ [name];
            error_msgs := error_msgs p |})
    end.

Fixpoint resolve_all (names : list str) : M unit :=
  match names with
  | [] => ret tt
  | n :: rest => (_new_var n ;;; resolve_all rest)%M
  end.

(** [parse(input_, self._new_var)]. *)
Definition run_parse (input_ : str) : M Phase :=
  (table <- gets variable_types ;;
   let '(names, outcome) := parse input_ table in
   resolve_all names ;;; lift outcome)%M.

(** [try: body except ValueError: handler], on the panel. *)
Definition try_ValueError {A} (body : M A) (handler : M A) : M A :=
  fun p =>
    match body p with
    | (Raise ValueError, p') => handler p'
    | other => other
    end.

(** The handler.  [dialog] is what [QInputDialog.getText] returns: the
    text and whether the dialog was accepted. *)
Definition vert_double_clicked (v : VT) (dialog : str * bool) : M unit :=
  (graph <- gets g ;;
   ty <- lift (type graph v) ;;
   if bool_decide (ty = VertexType.BOUNDARY) then
     let '(input_, ok) := dialog in
     try_ValueError
       (q <- lift (py_int (strip input_)) ;;
        modify (fun p => set_g (set_qubit (g p) v q) p))
       (show_error_msg "Wrong Input Type"
                       "Please enter a valid input (e.g. 1, 2)") ;;;
     ret tt
   else if vertex_is_w ty then ret tt
   else
     let '(input_, ok) := dialog in
     if negb ok then ret tt
     else
       outcome <- try_ValueError
                    (new_phase <- run_parse input_ ;; ret (Some new_phase))
                    (show_error_msg "Wrong Input Type"
                       "Please enter a valid input (e.g. 1/2, 2)" ;;;
                     ret None) ;;
       match outcome with
       | Some new_phase => push (ChangePhase v new_phase)
       | None => ret tt
       end)%M.

End DoubleClick.

(** * Part IV: the vocabulary of the claims *)

(** ** Well-formed graphs *)

(** The pairing invariant of section 3: only W vertices are paired, the
    partner of a W vertex is a W vertex of the other kind that is in the
    graph and paired back, and every W vertex of the graph is paired. *)
Definition w_paired (gr : GraphT) : Prop :=
  (∀ v u, w_partner gr !! v = Some u →
     ∃ x y, vertices gr !! v = Some x ∧ vertices gr !! u = Some y
            ∧ vertex_is_w (kind x) = true ∧ vertex_is_w (kind y) = true
            ∧ kind x ≠ kind y ∧ w_partner gr !! u = Some v)
  ∧ (∀ v x, vertices gr !! v = Some x → vertex_is_w (kind x) = true →
       is_Some (w_partner gr !! v)).

(** [u] and [v] are the two halves of one W node. *)
Definition w_pair (gr : GraphT) (u v : VT) : Prop :=
  w_partner gr !! u = Some v ∨ w_partner gr !! v = Some u.

(** The partner a selected vertex brings along: the one of a W vertex. *)
Definition partner_if_w (gr : GraphT) (v : VT) : option VT :=
  match vertices gr !! v with
  | Some x => if vertex_is_w (kind x) then w_partner gr !! v else None
  | None => None
  end.

(** The selection closed under W-partnership. *)
Definition removal_closure (gr : GraphT) (selection : list VT) : gset VT :=
  as_set selection ∪ as_set (omap (partner_if_w gr) selection).

(** The panel once the selection is cleared. *)
Definition cleared (p : Panel) : Panel := (clearSelection p).2.

(** ** A small diagram

    Two spiders joined by a plain edge, a boundary, and one W node (its
    input 3 paired with its output 4). *)
Definition vertex_of (k : VertexType.Type_) : Vertex :=
  {| kind := k; phase := PFraction 0; pos_x := 0; pos_y := 0; qubit := None |}.

Definition example_graph : GraphT :=
  {| vertices := {[ 0 := vertex_of VertexType.Z;
                    1 := vertex_of VertexType.X;
                    2 := vertex_of VertexType.BOUNDARY;
                    3 := vertex_of VertexType.W_INPUT;
                    4 := vertex_of VertexType.W_OUTPUT ]};
     edges := {[ (0, 1) := EdgeType.SIMPLE ]};
     w_partner := {[ 3 := 4; 4 := 3 ]} |}.

Definition example_panel (vs : list VT) (es : list ET) : Panel :=
  {| g := example_graph;
     selected_vertices := vs;
     selected_edges := es;
     undo_stack := {| applied := []; redoable := [] |};
     _curr_ety := EdgeType.SIMPLE;
     _curr_vty := VertexType.Z;
     variable_types := ∅;
     variable_viewer := [];
     error_msgs := [] |}.

(** The example panel with another current edge kind. *)
Definition with_ety (ety : EdgeType.Type_) (p : Panel) : Panel :=
  {| g := g p;
     selected_vertices := selected_vertices p;
     selected_edges := selected_edges p;
     undo_stack := undo_stack p;
     _curr_ety := ety;
     _curr_vty := _curr_vty p;
     variable_types := variable_types p;
     variable_viewer := variable_viewer p;
     error_msgs := error_msgs p |}.

(** A phase grammar for the examples: the text ["x"] is the variable [x],
    the text ["1/2"] is one half, and nothing else is a phase. *)
Definition example_parse (text : str) (table : gmap str bool)
  : list str * result Phase :=
  if str_eqb text (lit "x") then ([lit "x"], Ok (PExpr (Other (lit "x"))))
  else if str_eqb text (lit "1/2") then ([], Ok (PFraction (1 # 2)))
  else ([], Raise ValueError).

(** ** Malformed phase texts *)




(** ** Binary64 numbers *)

(** [2 ^ e] as a rational, for any integer [e]. *)
Definition pow2 (e : Z) : Q := (2 ^ e)%Q.

(** The finite IEEE-754 binary64 numbers: [m * 2 ^ e] with a significand
    of at most 53 bits and an exponent between -1074 and 971. *)
Definition binary64 (q : Q) : Prop :=
  ∃ m e, Z.abs m < 2 ^ 53 ∧ -1074 ≤ e ≤ 971 ∧ (q == inject_Z m * pow2 e)%Q.

(** No binary64 number is nearer to [x] than [q]. *)
Definition nearest_binary64 (x q : Q) : Prop :=
  binary64 q ∧ ∀ d, binary64 d → (Qabs (x - q) <= Qabs (x - d))%Q.

(** The number a decimal literal with sign [neg], digits [m] and power of
    ten [e] stands for. *)
Definition decimal_value (neg : bool) (m e : Z) : Q :=
  (inject_Z (apply_sign neg m) * 10 ^ e)%Q.

(** ** Characters and white space *)

(** The characters [lower_char] changes. *)
Definition cased (c : char) : bool :=
  ((65 <=? c) && (c <=? 90)) || (c =? 304) || (c =? 928) || (c =? 8490).

Definition all_space (f : char → bool) (l : str) : Prop :=
  Forall (λ c, f c = true) l.

(** Neither end of the text is white space. *)
Definition trimmed (f : char → bool) (core : str) : Prop :=
  (∀ c r, core = c :: r → f c = false)
  ∧ (∀ c r, core = r ++ [c] → f c = false).

Definition digit_or_underscore (c : char) : Prop :=
  is_digit c = true ∨ c = UNDERSCORE.

(** The characters of a decimal literal. *)
Definition float_char (c : char) : Prop :=
  is_digit c = true ∨ c = UNDERSCORE ∨ c = chr "." ∨ c = chr "e"
  ∨ c = chr "E" ∨ c = chr "+" ∨ c = chr "-".

Definition int_core_char (c : char) : Prop :=
  is_digit c = true ∨ c = UNDERSCORE ∨ c = chr "+" ∨ c = chr "-".

Definition int_char (c : char) : Prop :=
  is_number_space c = true ∨ int_core_char c.

(** * Part IV, continued: the rest of the panel, and more vocabulary *)

(** ** The variable table and its viewer *)

Definition set_variable_types (t : gmap str bool) (p : Panel) : Panel :=
  {| g := g p;
     selected_vertices := selected_vertices p;
     selected_edges := selected_edges p;
     undo_stack := undo_stack p;
     _curr_ety := _curr_ety p;
     _curr_vty := _curr_vty p;
     variable_types := t;
     variable_viewer := variable_viewer p;
     error_msgs := error_msgs p |}.

Definition set_variable_viewer (rows : list str) (p : Panel) : Panel :=
  {| g := g p;
     selected_vertices := selected_vertices p;
     selected_edges := selected_edges p;
     undo_stack := undo_stack p;
     _curr_ety := _curr_ety p;
     _curr_vty := _curr_vty p;
     variable_types := variable_types p;
     variable_viewer := rows;
     error_msgs := error_msgs p |}.

(** [VariableViewer.add_item], lines 256 to 276.  The viewer keeps the dict
    it is given (line 197), which is the panel's own, so that the field
    [variable_types] stands for both.  Line 259 reads the flag of [name] in
    it, which is a [KeyError] for a name that is not there; the row is added
    after that. *)
Definition add_item (name : str) : M unit :=
  fun p =>
    match variable_types p !! name with
    | Some _ => (Ok tt, set_variable_viewer (variable_viewer p ++ [name]) p)
    | None => (Raise KeyError, p)
    end.

(** [VariableViewer._text_changed], lines 278 to 282: the slot of the combo
    box in the row of [name]. *)
Definition _text_changed (name text : str) : M unit :=
  if str_eqb text (lit "Parametric") then
    modify (fun p => set_variable_types (<[name := false]> (variable_types p)) p)
  else if str_eqb text (lit "Boolean") then
    modify (fun p => set_variable_types (<[name := true]> (variable_types p)) p)
  else ret tt.

(** The loop of lines 238 and 239. *)
Fixpoint add_items (names : list str) : M unit :=
  match names with
  | [] => ret tt
  | name :: rest => (add_item name ;;; add_items rest)%M
  end.

(** [VariableViewer(self.variable_types)], as far as the rows go: a new
    viewer with one row for every name of the table.  The rows come in the
    order of the dict, which the table, a finite map, does not keep:
    [map_to_list] lists them in an order of its own. *)
Definition VariableViewer_init : M unit :=
  (modify (set_variable_viewer []) ;;;
   table <- gets variable_types ;;
   add_items (map fst (map_to_list table)))%M.

Section PopulateVariables.

(** [phase.free_vars()] for a phase that is a [Poly], each variable with
    its [name] and its [is_bool]; a phase that is no [Poly] has none.  The
    class [Poly] of zxlive/poly.py is not under src/ and is taken as it
    comes. *)
Variable free_vars : Phase → list (str * bool).

(** Line 96. *)
Definition assign (t : gmap str bool) (var : str * bool) : gmap str bool :=
  <[var.1 := var.2]> t.

(** Lines 93 to 96, for one vertex. *)
Definition populate_vertex (t : gmap str bool) (vert : VT * Vertex)
  : gmap str bool :=
  foldl assign t (free_vars (phase vert.2)).

(** [_populate_variables]: a new table, filled from the phases of the
    graph.  The vertices are gone through as [map_to_list] lists them; the
    order counts only where two occurrences of one name disagree on
    [is_bool]. *)
Definition _populate_variables : M unit :=
  modify (fun p =>
    set_variable_types
      (foldl populate_vertex ∅ (map_to_list (vertices (g p)))) p).

(** [create_side_bar], lines 83 and 84: the table is filled anew and a
    new viewer made for it.  The two list widgets are left out. *)
Definition create_side_bar : M unit :=
  (_populate_variables ;;; VariableViewer_init)%M.

End PopulateVariables.

(** ** The other commands and the side bar *)

(** Modelled from the spec: the commands of zxlive/commands.py that
    [Command] leaves out, with the arguments the handlers pass (the graph
    view is left out). *)
Inductive NodeCommand : Type :=
| AddNode (x y : Q) (vty : VertexType.Type_)
| AddWNode (x y : Q)
| ChangeNodeType (vs : list VT) (vty : VertexType.Type_)
| ChangeEdgeColor (es : list ET) (ety : EdgeType.Type_)
| MoveNode (vs : list (VT * Q * Q)).

Inductive ShapeType : Set := CIRCLE | SQUARE | TRIANGLE | LINE | DASHED_LINE.

(** The entries of the two lists of the side bar: a text and an icon, the
    icon by its shape and the name of its colour. *)
Definition DrawPanelNodeType : Type := string * (ShapeType * string).

Definition VERTICES : list (VertexType.Type_ * DrawPanelNodeType) :=
  [ (VertexType.Z, ("Z spider", (CIRCLE, "ZX_GREEN")));
    (VertexType.X, ("X spider", (CIRCLE, "ZX_RED")));
    (VertexType.H_BOX, ("H box", (SQUARE, "H_YELLOW")));
    (VertexType.BOUNDARY, ("boundary", (CIRCLE, "BLACK")));
    (VertexType.W_OUTPUT, ("W node", (TRIANGLE, "BLACK"))) ]%string.

Definition EDGES : list (EdgeType.Type_ * DrawPanelNodeType) :=
  [ (EdgeType.SIMPLE, ("Simple", (LINE, "BLACK")));
    (EdgeType.HADAMARD, ("Hadamard", (DASHED_LINE, "HAD_EDGE_BLUE"))) ]%string.

Definition set_curr_vty (vty : VertexType.Type_) (p : Panel) : Panel :=
  {| g := g p;
     selected_vertices := selected_vertices p;
     selected_edges := selected_edges p;
     undo_stack := undo_stack p;
     _curr_ety := _curr_ety p;
     _curr_vty := vty;
     variable_types := variable_types p;
     variable_viewer := variable_viewer p;
     error_msgs := error_msgs p |}.

Section SideBar.

(** [self.undo_stack.push(cmd)] for a command of [NodeCommand].  What such
    a command does to the graph is written in zxlive/commands.py, which is
    not under src/: the push is taken as it comes. *)
Variable push_node : NodeCommand → M unit.

(** [_vty_clicked], lines 101 to 106. *)
Definition _vty_clicked (vty : VertexType.Type_) : M unit :=
  (modify (set_curr_vty vty) ;;;
   selected <- gets selected_vertices ;;
   if (0 <? length selected)%nat
   then push_node (ChangeNodeType selected vty)
   else ret tt)%M.

(** [_ety_clicked], lines 108 to 114.  The scene's own copy of the current
    edge kind (line 110) is not part of [Panel]. *)
Definition _ety_clicked (ety : EdgeType.Type_) : M unit :=
  (modify (with_ety ety) ;;;
   selected <- gets selected_edges ;;
   if (0 <? length selected)%nat
   then push_node (ChangeEdgeColor selected ety)
   else ret tt)%M.

(** [add_vert], lines 140 to 143. *)
Definition add_vert (x y : Q) : M unit :=
  (vty <- gets _curr_vty ;;
   let cmd := if bool_decide (vty = VertexType.W_OUTPUT)
              then AddWNode x y
              else AddNode x y vty in
   push_node cmd)%M.

(** [vert_moved], lines 155 and 156. *)
Definition vert_moved (vs : list (VT * Q * Q)) : M unit :=
  push_node (MoveNode vs).

(** The slot [create_list_widget] connects to [itemClicked] (line 327):
    the item at row [i] carries the key of the [i]-th entry of [data]
    (lines 322 to 326), which is handed to [onclick]. *)
Definition item_clicked {K} (data : list (K * DrawPanelNodeType))
    (onclick : K → M unit) (i : nat) : M unit :=
  match data !! i with
  | Some (typ, _) => onclick typ
  | None => ret tt
  end.

End SideBar.

(** ** Numerals *)

(** The decimal digits of [n], the most significant first, put before
    [acc]. *)
Fixpoint digits_onto (fuel : nat) (n : Z) (acc : str) : str :=
  match fuel with
  | O => acc
  | S fuel' =>
      let acc' := (48 + n mod 10) :: acc in
      if n <? 10 then acc' else digits_onto fuel' (n / 10) acc'
  end.

(** [sys.int_info.default_max_str_digits]: the number of digits up to
    which the interpreter prints an integer, and reads one, unless it is
    told otherwise. *)
Definition MAX_STR_DIGITS : Z := 4300.

(** [str(n)] for an integer [n]: a [ValueError] when [n] has more digits
    than the limit. *)
Definition str_of_int (n : Z) : result str :=
  let digits := digits_onto (S (Z.to_nat (Z.log2 (Z.abs n)))) (Z.abs n) [] in
  if MAX_STR_DIGITS <? Z.of_nat (length digits) then Raise ValueError
  else Ok (if n <? 0 then chr "-" :: digits else digits).

(** [str(q)] for a [Fraction] [q]: the numerator alone when the
    denominator is one. *)
Definition str_of_Fraction (q : Q) : result str :=
  if (Qden q =? 1)%positive then str_of_int (Qnum q)
  else
    n <- str_of_int (Qnum q) ;;
    d <- str_of_int (Zpos (Qden q)) ;;
    Ok (n ++ chr "/" :: d).

(** ** The registry invariant *)

(** The viewer lists the variables of the table, each in one row. *)
Definition viewer_in_sync (p : Panel) : Prop :=
  NoDup (variable_viewer p)
  ∧ ∀ name, name ∈ variable_viewer p ↔ is_Some (variable_types p !! name).

(** What the user and the parser do to the table: a name is handed to
    [_new_var], or the combo box of a row is set to a text. *)
Inductive registry_step : Panel → Panel → Prop :=
| step_new_var name p :
    registry_step p (_new_var name p).2
| step_text_changed name text p :
    name ∈ variable_viewer p →
    registry_step p (_text_changed name text p).2.

(** ** The actions of the base panel *)

(** Modelled from the spec: [Graph()], a graph with nothing in it. *)
Definition empty_graph : GraphT :=
  {| vertices := ∅; edges := ∅; w_partner := ∅ |}.

(** [clear_graph], lines 112 to 116 of zxlive/base_panel.py. *)
Definition clear_graph : M unit := push (SetGraph empty_graph).

(** [deselect_all], lines 121 and 122 of zxlive/base_panel.py. *)
Definition deselect_all : M unit := clearSelection.

(** ** Gestures *)

(** [self.graph_scene] reports a new selection. *)
Definition select (vs : list VT) (es : list ET) : M unit :=
  modify (fun p =>
    {| g := g p;
       selected_vertices := vs;
       selected_edges := es;
       undo_stack := undo_stack p;
       _curr_ety := _curr_ety p;
       _curr_vty := _curr_vty p;
       variable_types := variable_types p;
       variable_viewer := variable_viewer p;
       error_msgs := error_msgs p |}).

(** What reaches the handlers of the panel: a click on a row of one of the
    two lists of the side bar, the gestures the scene reports, the actions
    of the base panel, and a change of the selection. *)
Inductive Gesture : Type :=
| VertexItemClicked (i : nat)
| EdgeItemClicked (i : nat)
| AddVert (x y : Q)
| AddEdgeGesture (u v : VT)
| VertMoved (vs : list (VT * Q * Q))
| VertDoubleClicked (v : VT) (dialog : str * bool)
| DeleteSelection
| ClearGraph
| DeselectAll
| SelectionChanged (vs : list VT) (es : list ET).

Section Gestures.

Variable parse : str → gmap str bool → list str * result Phase.
Variable push_node : NodeCommand → M unit.

Definition handle (gesture : Gesture) : M unit :=
  match gesture with
  | VertexItemClicked i => item_clicked VERTICES (_vty_clicked push_node) i
  | EdgeItemClicked i => item_clicked EDGES (_ety_clicked push_node) i
  | AddVert x y => add_vert push_node x y
  | AddEdgeGesture u v => add_edge u v
  | VertMoved vs => vert_moved push_node vs
  | VertDoubleClicked v dialog => vert_double_clicked parse v dialog
  | DeleteSelection => delete_selection
  | ClearGraph => clear_graph
  | DeselectAll => deselect_all
  | SelectionChanged vs es => select vs es
  end.

(** The panel after a sequence of gestures.  A handler that raises leaves
    the panel as it was when it raised, and the next gesture is handled. *)
Definition run (gestures : list Gesture) (p : Panel) : Panel :=
  foldl (fun p gesture => (handle gesture p).2) p gestures.

End Gestures.

(** * Part V: theorems *)

#[local] Arguments Nat.leb : simpl never.

Lemma example_graph_w_paired : w_paired example_graph.
Proof.
  split.
  - intros v u H. cbn in H.
    apply lookup_insert_Some in H as [[<- <-] | [? H]];
      [| apply lookup_singleton_Some in H as [<- <-]];
      eexists _, _; repeat split; try reflexivity; done.
  - intros v x H Hw. cbn in H.
    repeat (apply lookup_insert_Some in H as [[<- <-] | [? H]];
            [first [done | by eexists] |]).
    apply lookup_singleton_Some in H as [<- <-]. by eexists.
Qed.

Lemma w_pair_partner gr u v :
  w_paired gr → w_pair gr u v → w_partner gr !! u = Some v.
Proof.
  intros [Hp _] [H | H]; [done |].
  destruct (Hp _ _ H) as (x & y & _ & _ & _ & _ & _ & Hback). exact Hback.
Qed.

Lemma w_partner_is_w gr u v x :
  w_paired gr → w_partner gr !! u = Some v → vertices gr !! u = Some x →
  vertex_is_w (kind x) = true.
Proof.
  intros [Hp _] H Hx.
  destruct (Hp _ _ H) as (x' & y & Hx' & _ & Hw & _).
  congruence.
Qed.

(** ** The edge gesture *)

Section AddEdgeFacts.

Variables (p : Panel) (u v : VT) (x y : Vertex).
Hypothesis Hwf : w_paired (g p).
Hypothesis Hu : vertices (g p) !! u = Some x.
Hypothesis Hv : vertices (g p) !! v = Some y.

Lemma add_edge_rejects :
  w_pair (g p) u v ∨ w_input_full (g p) u = true ∨ w_input_full (g p) v = true →
  add_edge u v p = (Ok tt, p).
Proof using Hwf Hu Hv.
  intros Hrej.
  unfold add_edge, mbind, gets, lift, ret, type, get_w_partner.
  rewrite Hu. cbn.
  destruct (vertex_is_w (kind x)) eqn:Hw.
  - destruct Hwf as [_ Hall].
    destruct (Hall _ _ Hu Hw) as [w Hpw]. rewrite Hpw. cbn.
    destruct (w =? v) eqn:Heq; [done |].
    apply Z.eqb_neq in Heq.
    destruct Hrej as [Hpair | Hfull].
    { apply (w_pair_partner _ _ _ Hwf) in Hpair. congruence. }
    unfold w_input_full in Hfull. rewrite Hu, Hv in Hfull.
    destruct (bool_decide (kind x = VertexType.W_INPUT)
              && (2 <=? length (neighbors (g p) u))%nat); cbn; [done |].
    rewrite Hv. cbn.
    destruct Hfull as [Hfull | Hfull]; [done |]. by rewrite Hfull.
  - cbn.
    destruct Hrej as [Hpair | Hfull].
    { apply (w_pair_partner _ _ _ Hwf) in Hpair.
      rewrite (w_partner_is_w _ _ _ _ Hwf Hpair Hu) in Hw. done. }
    unfold w_input_full in Hfull. rewrite Hu, Hv in Hfull.
    destruct (bool_decide (kind x = VertexType.W_INPUT)
              && (2 <=? length (neighbors (g p) u))%nat); cbn; [done |].
    rewrite Hv. cbn.
    destruct Hfull as [Hfull | Hfull]; [done |]. by rewrite Hfull.
Qed.

Lemma add_edge_pushes :
  ¬ (w_pair (g p) u v ∨ w_input_full (g p) u = true
     ∨ w_input_full (g p) v = true) →
  add_edge u v p = push (AddEdge u v (_curr_ety p)) p.
Proof using Hwf Hu Hv.
  intros Hacc.
  assert (Hnp : w_partner (g p) !! u ≠ Some v).
  { intros H. apply Hacc. left. by left. }
  assert (Hfu : w_input_full (g p) u = false).
  { destruct (w_input_full (g p) u) eqn:E; [| done]. exfalso. apply Hacc. auto. }
  assert (Hfv : w_input_full (g p) v = false).
  { destruct (w_input_full (g p) v) eqn:E; [| done]. exfalso. apply Hacc. auto. }
  unfold w_input_full in Hfu, Hfv. rewrite Hu in Hfu. rewrite Hv in Hfv.
  unfold add_edge, mbind, gets, lift, ret, type, get_w_partner.
  rewrite Hu. cbn.
  destruct (vertex_is_w (kind x)) eqn:Hw.
  - destruct Hwf as [_ Hall].
    destruct (Hall _ _ Hu Hw) as [w Hpw]. rewrite Hpw. cbn.
    destruct (w =? v) eqn:Heq.
    { apply Z.eqb_eq in Heq. congruence. }
    rewrite Hfu. cbn. rewrite Hv. cbn. rewrite Hfv. done.
  - cbn. rewrite Hfu. cbn. rewrite Hv. cbn. rewrite Hfv. done.
Qed.

End AddEdgeFacts.

(** Whatever the graph, the handler returns at once, raises before it has
    touched anything, or hands one [AddEdge] to the undo stack. *)
Lemma add_edge_cases p u v :
  add_edge u v p = (Ok tt, p)
  ∨ (∃ e, add_edge u v p = (Raise e, p))
  ∨ add_edge u v p = push (AddEdge u v (_curr_ety p)) p.
Proof.
  unfold add_edge, mbind, gets, lift, ret.
  destruct (type (g p) u) as [ty_u | e]; [| right; left; by exists e].
  cbn.
  assert (Hfull :
    ∀ r p', (if bool_decide (ty_u = VertexType.W_INPUT)
                 && (2 <=? length (neighbors (g p) u))%nat
              then (λ p0, (Ok true, p0))
              else (λ p0, match type (g p) v with
                          | Ok a => (Ok (bool_decide (a = VertexType.W_INPUT)
                                         && (2 <=? length (neighbors (g p) v))%nat),
                                     p0)
                          | Raise e => (Raise e, p0)
                          end)) p = (r, p') → p' = p).
  { intros r p'. destruct (_ && _); [by intros [= _ <-] |].
    destruct (type (g p) v); by intros [= _ <-]. }
  destruct (vertex_is_w ty_u).
  - destruct (get_w_partner (g p) u) as [w | e]; cbn;
      [| right; left; by exists e].
    destruct (w =? v); [by left |].
    match goal with
    | |- context [let (_, _) := ?c in _] =>
        pose proof (Hfull c.1 c.2 (surjective_pairing c)) as Hp;
        destruct c as [r p']
    end.
    cbn in Hp. subst p'.
    destruct r as [[] | e]; auto. right; left; by exists e.
  - cbn.
    match goal with
    | |- context [let (_, _) := ?c in _] =>
        pose proof (Hfull c.1 c.2 (surjective_pairing c)) as Hp;
        destruct c as [r p']
    end.
    cbn in Hp. subst p'.
    destruct r as [[] | e]; auto. right; left; by exists e.
Qed.

(** Where the pair already has an ordinary edge the undo stack declines the
    command. *)
Lemma push_AddEdge_existing p u v k ety :
  edges (g p) !! edge_key u v = Some k →
  push (AddEdge u v ety) p = (Raise InvalidEdge, p).
Proof.
  intros Hk. unfold push, apply_command, graph_add_edge.
  destruct (u =? v); [done |].
  rewrite bool_decide_eq_true_2; [done |]. by exists k.
Qed.

(** A command that went through has put its edge in the graph. *)
Lemma push_AddEdge_ok p u v ety p' :
  push (AddEdge u v ety) p = (Ok tt, p') →
  edges (g p') !! edge_key u v = Some ety ∧ _curr_ety p' = _curr_ety p.
Proof.
  unfold push, apply_command, graph_add_edge.
  destruct (u =? v); [done |].
  destruct (bool_decide _); [done |].
  destruct (_ || _); [done |].
  destruct (bool_decide _); [done |].
  intros [= <-]. cbn. split; [apply lookup_insert_eq | done].
Qed.

Lemma push_raise_unchanged cmd p e p' :
  push cmd p = (Raise e, p') → p' = p.
Proof.
  unfold push. destruct (apply_command cmd (g p)); [done |]. by intros [= _ <-].
Qed.

(** ** Deleting the selection *)

Lemma append_w_partners_spec gr selection acc :
  w_paired gr →
  (∀ v, v ∈ selection → is_Some (vertices gr !! v)) →
  append_w_partners gr selection acc
  = Ok (acc ++ omap (partner_if_w gr) selection).
Proof.
  intros [Hpart Hall]. revert acc.
  induction selection as [| v rest IH]; intros acc Hin; cbn.
  - by rewrite app_nil_r.
  - destruct (Hin v) as [x Hx]; [left |].
    unfold type, partner_if_w, get_w_partner. rewrite Hx. cbn.
    destruct (vertex_is_w (kind x)) eqn:Hw.
    + destruct (Hall _ _ Hx Hw) as [u Hu]. rewrite Hu. cbn.
      rewrite IH; [| intros; apply Hin; by right].
      by rewrite <- app_assoc.
    + apply IH. intros; apply Hin; by right.
Qed.

Lemma as_set_closure gr selection :
  as_set (selection ++ omap (partner_if_w gr) selection)
  = removal_closure gr selection.
Proof. unfold removal_closure, as_set. by rewrite list_to_set_app_L. Qed.

(** The closure is closed: it holds the partner of each of its W vertices. *)
Lemma removal_closure_closed gr selection v u :
  w_paired gr →
  v ∈ removal_closure gr selection → w_partner gr !! v = Some u →
  u ∈ removal_closure gr selection.
Proof.
  intros [Hpart Hall] Hv Hu.
  unfold removal_closure, as_set in *.
  apply elem_of_union in Hv as [Hv | Hv].
  - apply elem_of_union_r, elem_of_list_to_set, list_elem_of_omap.
    exists v. split; [by apply elem_of_list_to_set in Hv |].
    destruct (Hpart _ _ Hu) as (x & y & Hx & _ & Hw & _).
    unfold partner_if_w. by rewrite Hx, Hw.
  - apply elem_of_list_to_set, list_elem_of_omap in Hv as (s & Hs & Hps).
    unfold partner_if_w in Hps.
    destruct (vertices gr !! s) as [x |]; [| done].
    destruct (vertex_is_w (kind x)); [| done].
    destruct (Hpart _ _ Hps) as (_ & _ & _ & _ & _ & _ & _ & Hback).
    assert (u = s) as -> by congruence.
    by apply elem_of_union_l, elem_of_list_to_set.
Qed.

Lemma closed_under_partner_closure gr es selection :
  w_paired gr →
  closed_under_partner (remove_edges gr es)
    (elements (removal_closure gr selection)) = true.
Proof.
  intros Hwf. unfold closed_under_partner. apply forallb_forall.
  intros v Hv. apply list_elem_of_In, elem_of_elements in Hv. cbn.
  destruct (w_partner gr !! v) as [u |] eqn:Hu; [| done].
  apply bool_decide_eq_true_2, elem_of_elements.
  by eapply removal_closure_closed.
Qed.

(** Taking a closed set of vertices out keeps the pairing invariant. *)
Lemma remove_vertices_w_paired gr vs gr' :
  w_paired gr → remove_vertices gr vs = Ok gr' → w_paired gr'.
Proof.
  intros [Hpart Hall]. unfold remove_vertices.
  destruct (closed_under_partner gr vs) eqn:Hc; [| done].
  intros [= <-]. unfold closed_under_partner in Hc.
  rewrite forallb_forall in Hc.
  split; cbn.
  - intros v u Hvu. apply map_lookup_filter_Some in Hvu as [Hvu Hnv].
    cbn in Hnv.
    destruct (Hpart _ _ Hvu) as (x & y & Hx & Hy & Hwx & Hwy & Hne & Hback).
    assert (Hnu : u ∉ vs).
    { intros Hu. apply list_elem_of_In in Hu. specialize (Hc _ Hu).
      rewrite Hback in Hc. by apply bool_decide_eq_true_1 in Hc. }
    exists x, y. repeat split; try done.
    + by apply map_lookup_filter_Some.
    + by apply map_lookup_filter_Some.
    + by apply map_lookup_filter_Some.
  - intros v x Hx Hw. apply map_lookup_filter_Some in Hx as [Hx Hnv].
    destruct (Hall _ _ Hx Hw) as [u Hu]. exists u.
    by apply map_lookup_filter_Some.
Qed.

Lemma remove_edges_w_paired gr es : w_paired gr → w_paired (remove_edges gr es).
Proof. intros H. exact H. Qed.

(** What the handler does once there is something to delete. *)
Lemma delete_selection_run p :
  w_paired (g p) →
  (∀ v, v ∈ selected_vertices p → is_Some (vertices (g p) !! v)) →
  let closure := removal_closure (g p) (selected_vertices p) in
  ∃ new_g,
    remove_vertices (remove_edges (g p) (selected_edges p)) (elements closure)
    = Ok new_g
    ∧ delete_selection p =
        if is_empty (selected_vertices p
                     ++ omap (partner_if_w (g p)) (selected_vertices p))
           && is_empty (selected_edges p)
        then (Ok tt, p)
        else push (if (128 <? size closure)%nat
                   then SetGraph new_g else UpdateGraph new_g) (cleared p).
Proof.
  intros Hwf Hsel closure. subst closure.
  assert (Hrv : ∃ new_g,
    remove_vertices (remove_edges (g p) (selected_edges p))
      (elements (removal_closure (g p) (selected_vertices p)))
    = Ok new_g).
  { unfold remove_vertices. rewrite closed_under_partner_closure by done. eauto. }
  destruct Hrv as [new_g Hrv]. exists new_g. split; [done |].
  unfold delete_selection, mbind, gets, lift, ret.
  rewrite (append_w_partners_spec _ _ _ Hwf Hsel).
  destruct (is_empty _ && is_empty _); [done |].
  cbn. rewrite as_set_closure.
  rewrite Hrv. done.
Qed.

Lemma example_selection_known (vs : list VT) :
  Forall (λ v, 0 ≤ v ≤ 4) vs →
  ∀ v, v ∈ vs → is_Some (vertices (g (example_panel vs [])) !! v).
Proof.
  intros Hall v Hv. rewrite Forall_forall in Hall. specialize (Hall v Hv).
  assert (v = 0 ∨ v = 1 ∨ v = 2 ∨ v = 3 ∨ v = 4) as Hc by lia.
  destruct Hc as [-> | [-> | [-> | [-> | ->]]]]; by eexists.
Qed.

(** C1.  On a graph whose W vertices are paired, and for every selection of
    its vertices, [delete_selection] returns; the vertices it takes out of
    the graph are the selection closed under W-partnership, which holds the
    partner of every selected W vertex; and in the graph it leaves behind
    the W vertices are still paired. *)
Theorem delete_selection_removes_closure p :
  w_paired (g p) →
  (∀ v, v ∈ selected_vertices p → is_Some (vertices (g p) !! v)) →
  ∃ p',
    delete_selection p = (Ok tt, p')
    ∧ vertices (g p')
      = filter (λ kv, kv.1 ∉ removal_closure (g p) (selected_vertices p))
               (vertices (g p))
    ∧ (∀ v x u, v ∈ selected_vertices p → vertices (g p) !! v = Some x →
         vertex_is_w (kind x) = true → w_partner (g p) !! v = Some u →
         u ∈ removal_closure (g p) (selected_vertices p)
         ∧ vertices (g p') !! v = None ∧ vertices (g p') !! u = None)
    ∧ w_paired (g p').
Proof.
  intros Hwf Hsel.
  destruct (delete_selection_run p Hwf Hsel) as (new_g & Hrm & Hrun).
  assert (Hclosed : ∀ v x u, v ∈ selected_vertices p →
            vertices (g p) !! v = Some x → vertex_is_w (kind x) = true →
            w_partner (g p) !! v = Some u →
            v ∈ removal_closure (g p) (selected_vertices p)
            ∧ u ∈ removal_closure (g p) (selected_vertices p)).
  { intros v x u Hv Hx Hw Hu.
    assert (v ∈ removal_closure (g p) (selected_vertices p)) as Hvc.
    { unfold removal_closure, as_set.
      by apply elem_of_union_l, elem_of_list_to_set. }
    split; [done |]. by eapply removal_closure_closed. }
  destruct (is_empty _ && is_empty _) eqn:Hempty.
  - apply andb_prop in Hempty as [He _].
    destruct (selected_vertices p) as [| s rest] eqn:Hs; [| done].
    exists p. split; [done |].
    split; [| split; [| done]].
    + symmetry. apply map_filter_id. intros i x _. cbn.
      unfold removal_closure, as_set. cbn.
      apply not_elem_of_union; split; apply not_elem_of_empty.
    + intros v x u Hv. by apply elem_of_nil in Hv.
  - unfold push in Hrun.
    assert (Hap : apply_command
              (if (128 <? size (removal_closure (g p) (selected_vertices p)))%nat
               then SetGraph new_g else UpdateGraph new_g) (g (cleared p))
            = Ok new_g) by (by destruct (_ <? _)%nat).
    rewrite Hap in Hrun.
    eexists. split; [exact Hrun |]. cbn.
    assert (Hvs : vertices new_g
              = filter (λ kv, kv.1 ∉ removal_closure (g p) (selected_vertices p))
                       (vertices (g p))).
    { unfold remove_vertices in Hrm.
      destruct (closed_under_partner _ _); [| done].
      injection Hrm as <-. cbn.
      apply map_filter_ext. intros i x _. cbn.
      by rewrite elem_of_elements. }
    split; [done |]. split.
    + intros v x u Hv Hx Hw Hu.
      destruct (Hclosed v x u Hv Hx Hw Hu) as [Hvc Huc].
      split; [done |]. rewrite Hvs.
      split; apply map_lookup_filter_None; right; intros ? _ Hn; by apply Hn.
    + eapply remove_vertices_w_paired; [| exact Hrm].
      by apply remove_edges_w_paired.
Qed.

Lemma delete_selection_removes_closure_witness :
  ∃ p', delete_selection (example_panel [3] []) = (Ok tt, p')
        ∧ vertices (g p') !! 4 = None.
Proof.
  destruct (delete_selection_removes_closure (example_panel [3] [])
              example_graph_w_paired
              (example_selection_known [3] ltac:(repeat constructor; lia)))
    as (p' & Hrun & _ & Hpartner & _).
  exists p'. split; [exact Hrun |].
  apply (Hpartner 3 (vertex_of VertexType.W_INPUT) 4);
    [by left | reflexivity | reflexivity | reflexivity].
Defined.

(** C6.  On a graph whose W vertices are paired, and for a selection of its
    vertices, [delete_selection] changes nothing exactly when the removal
    closure and the selected edges are both empty; otherwise it clears the
    selection and pushes the graph without the selected edges and without
    the closure, as a [SetGraph] when the closure has more than 128
    vertices and as an [UpdateGraph] when it has not. *)
Theorem delete_selection_command p :
  w_paired (g p) →
  (∀ v, v ∈ selected_vertices p → is_Some (vertices (g p) !! v)) →
  let closure := removal_closure (g p) (selected_vertices p) in
  (delete_selection p = (Ok tt, p) ↔ closure = ∅ ∧ selected_edges p = [])
  ∧ (¬ (closure = ∅ ∧ selected_edges p = []) →
     ∃ new_g,
       remove_vertices (remove_edges (g p) (selected_edges p))
         (elements closure) = Ok new_g
       ∧ delete_selection p =
           push (if (128 <? size closure)%nat
                 then SetGraph new_g else UpdateGraph new_g) (cleared p)
       ∧ g (delete_selection p).2 = new_g
       ∧ applied (undo_stack (delete_selection p).2)
         = (if (128 <? size closure)%nat
            then SetGraph new_g else UpdateGraph new_g)
           :: applied (undo_stack p)).
Proof.
  intros Hwf Hsel closure.
  destruct (delete_selection_run p Hwf Hsel) as (new_g & Hrm & Hrun).
  fold closure in Hrm, Hrun.
  assert (Hiff : is_empty (selected_vertices p
                   ++ omap (partner_if_w (g p)) (selected_vertices p))
                 && is_empty (selected_edges p) = true
                 ↔ closure = ∅ ∧ selected_edges p = []).
  { subst closure. unfold removal_closure, as_set. split.
    - intros [He Hee]%andb_prop.
      destruct (selected_vertices p); [| done].
      destruct (selected_edges p); [| done]. cbn. split; [set_solver | done].
    - intros [Hc ->].
      destruct (selected_vertices p) as [| s rest]; [done |].
      exfalso. cbn in Hc. set_solver. }
  assert (Hpush :
    push (if (128 <? size closure)%nat
          then SetGraph new_g else UpdateGraph new_g) (cleared p)
    = (Ok tt,
       set_undo_stack
         {| applied := (if (128 <? size closure)%nat
                        then SetGraph new_g else UpdateGraph new_g)
                       :: applied (undo_stack p);
            redoable := [] |} (set_g new_g (cleared p)))).
  { unfold push. by destruct (_ <? _)%nat. }
  destruct (is_empty _ && is_empty _) eqn:Hempty.
  - split.
    + split; [intros _; by apply Hiff | done].
    + intros Hn. exfalso. apply Hn. by apply Hiff.
  - assert (Hne : ¬ (closure = ∅ ∧ selected_edges p = [])).
    { intros H. apply Hiff in H. congruence. }
    split.
    + split; [| done]. rewrite Hrun, Hpush. intros [= Heq]. exfalso.
      apply (f_equal (λ q, length (applied (undo_stack q)))) in Heq.
      cbn in Heq. lia.
    + intros _. exists new_g. rewrite Hrun, Hpush. cbn. done.
Qed.

Lemma delete_selection_command_witness :
  delete_selection (example_panel [] []) = (Ok tt, example_panel [] [])
  ↔ removal_closure example_graph [] = ∅ ∧ @nil ET = [].
Proof.
  exact (proj1 (delete_selection_command (example_panel [] [])
                  example_graph_w_paired
                  (example_selection_known [] ltac:(constructor)))).
Defined.

(** ** The edge gesture, continued *)

(** C4.  On a graph whose W vertices are paired, and for two of its
    vertices: when they are the two halves of one W node, or one of them is
    a W-input that already bears two ordinary edges, [add_edge] returns
    with the panel as it was (no command, no error message); in every other
    case it hands exactly one [AddEdge] with the current edge kind to the
    undo stack. *)
Theorem add_edge_policy p u v x y :
  w_paired (g p) →
  vertices (g p) !! u = Some x →
  vertices (g p) !! v = Some y →
  (w_pair (g p) u v ∨ w_input_full (g p) u = true
   ∨ w_input_full (g p) v = true →
   add_edge u v p = (Ok tt, p))
  ∧ (¬ (w_pair (g p) u v ∨ w_input_full (g p) u = true
        ∨ w_input_full (g p) v = true) →
     add_edge u v p = push (AddEdge u v (_curr_ety p)) p).
Proof.
  intros Hwf Hu Hv. split.
  - by eapply add_edge_rejects.
  - by eapply add_edge_pushes.
Qed.

Lemma add_edge_policy_witness :
  add_edge 3 4 (example_panel [] []) = (Ok tt, example_panel [] [])
  ∧ add_edge 0 2 (example_panel [] [])
    = push (AddEdge 0 2 EdgeType.SIMPLE) (example_panel [] []).
Proof.
  split.
  - apply (proj1 (add_edge_policy (example_panel [] []) 3 4
                    (vertex_of VertexType.W_INPUT)
                    (vertex_of VertexType.W_OUTPUT)
                    example_graph_w_paired eq_refl eq_refl)).
    left. left. reflexivity.
  - apply (proj2 (add_edge_policy (example_panel [] []) 0 2
                    (vertex_of VertexType.Z) (vertex_of VertexType.BOUNDARY)
                    example_graph_w_paired eq_refl eq_refl)).
    intros [[H | H] | [H | H]]; vm_compute in H; discriminate.
Defined.

(** C5.  With the graph model of the spec, where an edge between two
    vertices that already have one is turned down: after [add_edge] has run
    for a pair, running it again for the same pair changes nothing, so the
    edge set keeps its size; and when the pair has an edge of one kind,
    [add_edge] with another current kind changes nothing either and appends
    no command. *)
Theorem add_edge_twice p u v :
  (∀ r1 p1 r2 p2,
     add_edge u v p = (r1, p1) → add_edge u v p1 = (r2, p2) →
     p2 = p1 ∧ size (edges (g p2)) = size (edges (g p1)))
  ∧ (∀ k, edges (g p) !! edge_key u v = Some k → _curr_ety p ≠ k →
     ∃ r, add_edge u v p = (r, p) ∧ (r = Ok tt ∨ ∃ e, r = Raise e)).
Proof.
  assert (Hexisting : ∀ q k, edges (g q) !! edge_key u v = Some k →
            ∃ r, add_edge u v q = (r, q) ∧ (r = Ok tt ∨ ∃ e, r = Raise e)).
  { intros q k Hk.
    destruct (add_edge_cases q u v) as [H | [[e H] | H]].
    - exists (Ok tt). split; [done | by left].
    - exists (Raise e). split; [done | right; by exists e].
    - rewrite (push_AddEdge_existing _ _ _ _ _ Hk) in H.
      exists (Raise InvalidEdge). split; [done | right; by eexists]. }
  split.
  - intros r1 p1 r2 p2 H1 H2.
    assert (p2 = p1) as ->; [| done].
    destruct (add_edge_cases p u v) as [H | [[e H] | H]].
    + rewrite H in H1. injection H1 as <- <-. rewrite H in H2. congruence.
    + rewrite H in H1. injection H1 as <- <-. rewrite H in H2. congruence.
    + rewrite H in H1. destruct r1 as [[] | e].
      * destruct (push_AddEdge_ok _ _ _ _ _ H1) as [Hedge _].
        destruct (Hexisting p1 _ Hedge) as (r & Hr & _). congruence.
      * apply push_raise_unchanged in H1 as Hp. subst p1.
        rewrite H, H1 in H2. congruence.
  - intros k Hk _. by eapply Hexisting.
Qed.

Lemma add_edge_twice_witness :
  (let '(_, p1) := add_edge 0 2 (example_panel [] []) in
   let '(_, p2) := add_edge 0 2 p1 in
   p2 = p1 ∧ size (edges (g p2)) = size (edges (g p1)))
  ∧ ∃ r, add_edge 0 1 (with_ety EdgeType.HADAMARD (example_panel [] []))
         = (r, with_ety EdgeType.HADAMARD (example_panel [] []))
         ∧ (r = Ok tt ∨ ∃ e, r = Raise e).
Proof.
  split.
  - destruct (add_edge 0 2 (example_panel [] [])) as [r1 p1] eqn:E1.
    destruct (add_edge 0 2 p1) as [r2 p2] eqn:E2.
    exact (proj1 (add_edge_twice (example_panel [] []) 0 2) r1 p1 r2 p2 E1 E2).
  - apply (proj2 (add_edge_twice
                    (with_ety EdgeType.HADAMARD (example_panel [] [])) 0 1)
             EdgeType.SIMPLE);
      [reflexivity | discriminate].
Defined.

(** ** The double click *)

Lemma resolve_all_frame names p :
  ∃ p', resolve_all names p = (Ok tt, p')
        ∧ g p' = g p ∧ undo_stack p' = undo_stack p
        ∧ error_msgs p' = error_msgs p
        ∧ selected_vertices p' = selected_vertices p
        ∧ selected_edges p' = selected_edges p
        ∧ _curr_ety p' = _curr_ety p.
Proof.
  revert p. induction names as [| n rest IH]; intros p; cbn.
  - by exists p.
  - unfold mbind, _new_var.
    destruct (variable_types p !! n).
    + apply IH.
    + match goal with |- context [resolve_all rest ?q] =>
        destruct (IH q) as (p' & -> & Hg & Hu & He & Hsv & Hse & Hety) end.
      exists p'. by repeat split.
Qed.

Lemma vert_double_clicked_generator_run parse p v x input_ ok :
  vertices (g p) !! v = Some x →
  kind x ≠ VertexType.BOUNDARY →
  vertex_is_w (kind x) = false →
  vert_double_clicked parse v (input_, ok) p
  = (if negb ok then ret tt
     else
       outcome <- try_ValueError
                    (new_phase <- run_parse parse input_ ;; ret (Some new_phase))
                    (show_error_msg "Wrong Input Type"
                       "Please enter a valid input (e.g. 1/2, 2)" ;;;
                     ret None) ;;
       match outcome with
       | Some new_phase => push (ChangePhase v new_phase)
       | None => ret tt
       end)%M p.
Proof.
  intros Hx Hnb Hnw.
  unfold vert_double_clicked, mbind, gets, lift, type. rewrite Hx. cbn.
  rewrite bool_decide_eq_false_2 by done. by rewrite Hnw.
Qed.

Lemma run_parse_frame parse input_ p names outcome :
  parse input_ (variable_types p) = (names, outcome) →
  ∃ p', run_parse parse input_ p = (outcome, p')
        ∧ g p' = g p ∧ undo_stack p' = undo_stack p
        ∧ error_msgs p' = error_msgs p.
Proof.
  intros Hparse. unfold run_parse, mbind, gets, lift. rewrite Hparse.
  destruct (resolve_all_frame names p) as (p' & Hres & Hg & Hu & He & _).
  unfold mbind in Hres. rewrite Hres. by exists p'.
Qed.

(** C7.  A double click on a vertex that is neither a boundary nor a W
    vertex: when the dialog is cancelled the panel is left as it was; when
    the text does not parse ([ValueError]) one error is shown, and the graph
    and the undo stack are as they were; when it parses, exactly one
    [ChangePhase] for the vertex and the parsed phase is appended to the
    undo stack. *)
Theorem vert_double_clicked_generator parse p v x input_ ok :
  vertices (g p) !! v = Some x →
  kind x ≠ VertexType.BOUNDARY →
  vertex_is_w (kind x) = false →
  (ok = false → vert_double_clicked parse v (input_, ok) p = (Ok tt, p))
  ∧ (ok = true → ∀ names,
       parse input_ (variable_types p) = (names, Raise ValueError) →
       ∃ p', vert_double_clicked parse v (input_, ok) p = (Ok tt, p')
             ∧ g p' = g p ∧ undo_stack p' = undo_stack p
             ∧ error_msgs p'
               = error_msgs p
                 ++ [("Wrong Input Type"%string,
                      "Please enter a valid input (e.g. 1/2, 2)"%string)])
  ∧ (ok = true → ∀ names new_phase,
       parse input_ (variable_types p) = (names, Ok new_phase) →
       ∃ p', vert_double_clicked parse v (input_, ok) p = (Ok tt, p')
             ∧ applied (undo_stack p')
               = ChangePhase v new_phase :: applied (undo_stack p)
             ∧ g p' = set_phase (g p) v new_phase
             ∧ error_msgs p' = error_msgs p).
Proof.
  intros Hx Hnb Hnw.
  rewrite (vert_double_clicked_generator_run parse p v x input_ ok Hx Hnb Hnw).
  split; [| split].
  - intros ->. done.
  - intros -> names Hparse. cbn.
    destruct (run_parse_frame _ _ _ _ _ Hparse) as (p1 & Hrun & Hg & Hu & He).
    unfold mbind, try_ValueError. unfold mbind in Hrun. rewrite Hrun. cbn.
    eexists. split; [reflexivity |]. cbn. by rewrite Hg, Hu, He.
  - intros -> names new_phase Hparse. cbn.
    destruct (run_parse_frame _ _ _ _ _ Hparse) as (p1 & Hrun & Hg & Hu & He).
    unfold mbind, try_ValueError. unfold mbind in Hrun. rewrite Hrun. cbn.
    eexists. split; [reflexivity |]. cbn. by rewrite Hg, Hu, He.
Qed.

Lemma vert_double_clicked_generator_witness :
  vert_double_clicked example_parse 0 (lit "junk", false) (example_panel [] [])
  = (Ok tt, example_panel [] [])
  ∧ (∃ p', vert_double_clicked example_parse 0 (lit "junk", true)
             (example_panel [] []) = (Ok tt, p')
           ∧ undo_stack p' = undo_stack (example_panel [] []))
  ∧ (∃ p', vert_double_clicked example_parse 0 (lit "1/2", true)
             (example_panel [] []) = (Ok tt, p')
           ∧ applied (undo_stack p') = [ChangePhase 0 (PFraction (1 # 2))]).
Proof.
  split; [| split].
  - apply (proj1 (vert_double_clicked_generator example_parse
                    (example_panel [] []) 0 (vertex_of VertexType.Z)
                    (lit "junk") false eq_refl ltac:(discriminate) eq_refl)).
    reflexivity.
  - destruct (proj1 (proj2 (vert_double_clicked_generator example_parse
                    (example_panel [] []) 0 (vertex_of VertexType.Z)
                    (lit "junk") true eq_refl ltac:(discriminate) eq_refl))
                eq_refl [] eq_refl) as (p' & Hrun & _ & Hundo & _).
    by exists p'.
  - destruct (proj2 (proj2 (vert_double_clicked_generator example_parse
                    (example_panel [] []) 0 (vertex_of VertexType.Z)
                    (lit "1/2") true eq_refl ltac:(discriminate) eq_refl))
                eq_refl [] (PFraction (1 # 2)) eq_refl)
      as (p' & Hrun & Hundo & _).
    by exists p'.
Defined.

(** C8.  A double click on a boundary vertex with a text that reads as the
    integer [q]: the handler returns, the undo stack and every other part
    of the panel are as they were, and in the graph only the qubit index of
    that vertex has changed, to [q]. *)
Theorem vert_double_clicked_boundary parse p v x input_ ok q :
  vertices (g p) !! v = Some x →
  kind x = VertexType.BOUNDARY →
  py_int (strip input_) = Ok q →
  ∃ p', vert_double_clicked parse v (input_, ok) p = (Ok tt, p')
        ∧ p' = set_g (g p') p
        ∧ undo_stack p' = undo_stack p
        ∧ vertices (g p') !! v
          = Some {| kind := kind x; phase := phase x; pos_x := pos_x x;
                    pos_y := pos_y x; qubit := Some q |}
        ∧ (∀ u, u ≠ v → vertices (g p') !! u = vertices (g p) !! u)
        ∧ edges (g p') = edges (g p)
        ∧ w_partner (g p') = w_partner (g p).
Proof.
  intros Hx Hb Hq.
  unfold vert_double_clicked.
  unfold mbind at 1 2, gets at 1, lift at 1, type. rewrite Hx. cbn.
  rewrite bool_decide_eq_true_2 by done.
  unfold mbind, try_ValueError, lift, modify, ret. rewrite Hq. cbn.
  eexists. split; [reflexivity |]. cbn.
  split; [done |]. split; [done |]. split.
  { by rewrite lookup_alter_eq, Hx. }
  split; [| done].
  intros u Hne. by rewrite lookup_alter_ne.
Qed.

Lemma vert_double_clicked_boundary_witness :
  ∃ p', vert_double_clicked example_parse 2 (lit " 7 ", true)
          (example_panel [] []) = (Ok tt, p')
        ∧ undo_stack p' = undo_stack (example_panel [] []).
Proof.
  destruct (vert_double_clicked_boundary example_parse (example_panel [] []) 2
              (vertex_of VertexType.BOUNDARY) (lit " 7 ") true 7
              eq_refl eq_refl eq_refl)
    as (p' & Hrun & _ & Hundo & _).
  exists p'. split; [exact Hrun | exact Hundo].
Defined.


(** ** Strings, [int()] and [float()] *)

Lemma pair_ind (P : str → Prop) :
  P [] → (∀ c, P [c]) → (∀ c d r, P r → P (d :: r) → P (c :: d :: r)) →
  ∀ s, P s.
Proof.
  intros Hnil Hone Hstep s.
  assert (H : P s ∧ ∀ c, P (c :: s)).
  { induction s as [| d r [IHr IHdr]]; [by split |].
    split; [apply IHdr |]. intros c. apply Hstep; [exact IHr | apply IHdr]. }
  apply H.
Qed.

Lemma contains_true c s : contains c s = true ↔ c ∈ s.
Proof.
  unfold contains. rewrite existsb_exists. split.
  - intros (x & Hx & ->%Z.eqb_eq). by apply list_elem_of_In.
  - intros H. exists c. split; [by apply list_elem_of_In | apply Z.eqb_refl].
Qed.

Lemma contains_false c s : contains c s = false ↔ c ∉ s.
Proof.
  rewrite <- contains_true. destruct (contains c s); split; try done.
Qed.

(** Replacing a one-character string by nothing filters the character
    out. *)
Lemma replace_char c s : replace [c] [] s = filter (λ x, x ≠ c) s.
Proof.
  unfold replace. induction s as [| a s IH]; [done |].
  cbn [replace_from starts_with length Nat.pred].
  rewrite andb_true_r. rewrite filter_cons.
  destruct (Z.eqb_spec c a) as [-> | Hne].
  - cbn. rewrite decide_False by (intros H; by apply H). exact IH.
  - rewrite decide_True by congruence. f_equal. exact IH.
Qed.

Lemma replace_pi_cons c d r :
  replace (lit "pi") [] (c :: d :: r)
  = if (c =? 112) && (d =? 105) then replace (lit "pi") [] r
    else c :: replace (lit "pi") [] (d :: r).
Proof.
  unfold replace. cbn [lit replace_from starts_with length Nat.pred].
  change (chr "p") with 112. change (chr "i") with 105.
  rewrite andb_true_r, (Z.eqb_sym 112 c), (Z.eqb_sym 105 d).
  by destruct ((c =? 112) && (d =? 105)).
Qed.

Lemma replace_pi_single c : replace (lit "pi") [] [c] = [c].
Proof.
  unfold replace. cbn. by rewrite andb_false_r.
Qed.

(** What is left after the removal of ["pi"] was there before. *)
Lemma replace_pi_subseteq s : replace (lit "pi") [] s ⊆ s.
Proof.
  induction s as [| c | c d r IHr IHdr] using pair_ind.
  - done.
  - by rewrite replace_pi_single.
  - rewrite replace_pi_cons. destruct (_ && _).
    + intros x Hx. do 2 right. by apply IHr.
    + intros x [-> | Hx]%elem_of_cons; [by left |]. right. by apply IHdr.
Qed.

(** Only the letters [p] and [i] go. *)
Lemma replace_pi_keeps c s :
  c ≠ 112 → c ≠ 105 → c ∈ s → c ∈ replace (lit "pi") [] s.
Proof.
  intros Hp Hi.
  induction s as [| a | a d r IHr IHdr] using pair_ind.
  - done.
  - by rewrite replace_pi_single.
  - rewrite replace_pi_cons.
    destruct ((a =? 112) && (d =? 105)) eqn:E.
    + apply andb_prop in E as [->%Z.eqb_eq ->%Z.eqb_eq].
      intros [-> | [-> | H]%elem_of_cons]%elem_of_cons; [done | done |].
      by apply IHr.
    + intros [-> | H]%elem_of_cons; [by left |]. right. by apply IHdr.
Qed.

(** A text without the letter [p] is left alone, and so is what follows
    it. *)
Lemma replace_pi_app_no_p a s :
  112 ∉ a → replace (lit "pi") [] (a ++ s) = a ++ replace (lit "pi") [] s.
Proof.
  induction a as [| c a IH]; [done |]. intros Hn.
  apply not_elem_of_cons in Hn as [Hc Ha].
  cbn [app]. destruct a as [| d a'].
  - cbn [app]. destruct s as [| d r]; [by rewrite replace_pi_single |].
    rewrite replace_pi_cons.
    destruct (Z.eqb_spec c 112); [congruence | done].
  - cbn [app]. rewrite replace_pi_cons.
    destruct (Z.eqb_spec c 112); [congruence |]. cbn.
    f_equal. by apply IH.
Qed.

Lemma replace_pi_head s :
  replace (lit "pi") [] (lit "pi" ++ s) = replace (lit "pi") [] s.
Proof. cbn [lit app]. by rewrite replace_pi_cons. Qed.

Lemma lower_app a b : lower (a ++ b) = lower a ++ lower b.
Proof. apply flat_map_app. Qed.

Lemma lower_char_uncased c : cased c = false → lower_char c = [c].
Proof.
  unfold cased, lower_char. intros H.
  apply orb_false_elim in H as [H H3].
  apply orb_false_elim in H as [H H2].
  apply orb_false_elim in H as [H0 H1].
  by rewrite H0, H1, H2, H3.
Qed.

Lemma lower_uncased s : Forall (λ c, cased c = false) s → lower s = s.
Proof.
  induction 1 as [| c s Hc _ IH]; [done |].
  unfold lower in *. cbn. by rewrite lower_char_uncased, IH.
Qed.

(** The characters of [lower s] come from those of [s]. *)
Lemma lower_elem c s : c ∈ lower s ↔ ∃ d, d ∈ s ∧ c ∈ lower_char d.
Proof.
  unfold lower. rewrite list_elem_of_In, in_flat_map.
  split; intros (d & Hd & Hc); exists d; by rewrite ?list_elem_of_In in *.
Qed.

Lemma lower_char_cases c d :
  c ∈ lower_char d →
  c = d ∨ (65 ≤ d ≤ 90 ∧ c = d + 32) ∨ (d = 304 ∧ (c = 105 ∨ c = 775))
  ∨ (d = 928 ∧ c = GREEK_PI) ∨ (d = 8490 ∧ c = 107).
Proof.
  unfold lower_char.
  destruct ((65 <=? d) && (d <=? 90)) eqn:E.
  { intros ->%list_elem_of_singleton. right; left. lia. }
  destruct (Z.eqb_spec d 304).
  { intros [-> | ->%list_elem_of_singleton]%elem_of_cons; right; right; left; auto. }
  destruct (Z.eqb_spec d 928).
  { intros ->%list_elem_of_singleton. do 3 right. left. auto. }
  destruct (Z.eqb_spec d 8490).
  { intros ->%list_elem_of_singleton. do 4 right. auto. }
  intros ->%list_elem_of_singleton. by left.
Qed.


Lemma normalise_filter string :
  normalise string
  = replace (lit "pi") []
      (filter (λ x, x ≠ GREEK_PI) (filter (λ x, x ≠ 32) (lower string))).
Proof.
  unfold normalise. change (lit " ") with [32]. by rewrite !replace_char.
Qed.

(** *** Stripping *)

Section Strip.

Variable f : char → bool.

Lemma lstrip_all_space l x :
  all_space f l → lstrip_by f (l ++ x) = lstrip_by f x.
Proof. induction 1 as [| c l Hc _ IH]; [done |]. cbn. by rewrite Hc. Qed.

Lemma lstrip_all_space_nil l : all_space f l → lstrip_by f l = [].
Proof. intros H. rewrite <- (app_nil_r l). by rewrite lstrip_all_space. Qed.

Lemma lstrip_spec s :
  ∃ l, s = l ++ lstrip_by f s ∧ all_space f l
       ∧ ∀ c r, lstrip_by f s = c :: r → f c = false.
Proof.
  induction s as [| a s (l & Hs & Hl & Hhead)]; cbn.
  - exists []. split; [done |]. split; [constructor | done].
  - destruct (f a) eqn:Ha.
    + exists (a :: l). split; [by rewrite Hs at 1 |].
      split; [by constructor | done].
    + exists []. split; [done |]. split; [constructor |].
      by intros c r [= <- _].
Qed.

Lemma all_space_rev l : all_space f l → all_space f (rev l).
Proof.
  unfold all_space. rewrite !Forall_forall. intros H c Hc.
  apply H. by apply list_elem_of_In, in_rev, list_elem_of_In.
Qed.

(** A text is blanks, its stripped part, and blanks. *)
Lemma strip_spec s :
  ∃ l r, s = l ++ strip_by f s ++ r ∧ all_space f l ∧ all_space f r
         ∧ trimmed f (strip_by f s).
Proof.
  destruct (lstrip_spec s) as (l & Hs & Hl & Hhead).
  destruct (lstrip_spec (rev (lstrip_by f s))) as (l2 & Hr & Hl2 & Hhead2).
  assert (Hls : lstrip_by f s = strip_by f s ++ rev l2).
  { unfold strip_by. rewrite <- rev_app_distr, <- Hr. by rewrite rev_involutive. }
  exists l, (rev l2). split; [by rewrite <- Hls |].
  split; [done |]. split; [by apply all_space_rev |].
  split.
  - intros c r Hc. apply (Hhead c (r ++ rev l2)). by rewrite Hls, Hc.
  - intros c r Hc. apply (Hhead2 c (rev r)).
    unfold strip_by in Hc. apply (f_equal (@rev Z)) in Hc.
    by rewrite rev_involutive, rev_app_distr in Hc.
Qed.

Lemma strip_unique l core r :
  all_space f l → all_space f r → trimmed f core →
  strip_by f (l ++ core ++ r) = core.
Proof.
  intros Hl Hr [Hhead Hlast]. unfold strip_by.
  rewrite lstrip_all_space by done.
  destruct core as [| c core'].
  - cbn. rewrite (lstrip_all_space_nil r) by done. done.
  - assert (lstrip_by f ((c :: core') ++ r) = (c :: core') ++ r) as ->.
    { cbn. by rewrite (Hhead c core'). }
    rewrite rev_app_distr, lstrip_all_space by (by apply all_space_rev).
    destruct (rev (c :: core')) as [| d x] eqn:E.
    + apply (f_equal (@rev Z)) in E. by rewrite rev_involutive in E.
    + cbn [lstrip_by]. rewrite (Hlast d (rev x)).
      * by rewrite <- E, rev_involutive.
      * apply (f_equal (@rev Z)) in E. by rewrite rev_involutive in E.
Qed.



End Strip.

(** *** Digit parts *)

(** A digit part that is read starts with a digit and is made of digits
    and underscores. *)
Lemma digitpart_consumes s :
  ∀ acc k n k' rest,
    digitpart acc k s = Some (n, k', rest) →
    ∃ c pre, s = c :: pre ++ rest ∧ is_digit c = true
             ∧ Forall digit_or_underscore pre.
Proof.
  induction s as [| c | c d r IHr IHdr] using pair_ind;
    intros acc k n k' rest H.
  - done.
  - cbn in H. destruct (is_digit c) eqn:Hc; [| done].
    injection H as <- <- <-. exists c, [].
    split; [done |]. split; [done | constructor].
  - cbn [digitpart] in H. destruct (is_digit c) eqn:Hc; [| done].
    destruct (Z.eqb_spec d UNDERSCORE) as [-> | Hd].
    + destruct (digitpart _ _ r) as [[[n1 k1] rest1] |] eqn:E.
      * injection H as <- <- <-.
        destruct (IHr _ _ _ _ _ E) as (c1 & pre & -> & Hc1 & Hpre).
        exists c, (UNDERSCORE :: c1 :: pre). split; [done |].
        split; [done |]. constructor; [by right |].
        constructor; [by left | done].
      * injection H as <- <- <-. exists c, [].
        split; [done |]. split; [done | constructor].
    + destruct (digitpart _ _ (d :: r)) as [[[n1 k1] rest1] |] eqn:E.
      * injection H as <- <- <-.
        destruct (IHdr _ _ _ _ _ E) as (c1 & pre & Heq & Hc1 & Hpre).
        exists c, (c1 :: pre). split; [by rewrite Heq |].
        split; [done |]. constructor; [by left | done].
      * injection H as <- <- <-. exists c, [].
        split; [done |]. split; [done | constructor].
Qed.



(** [int()] raises nothing but [ValueError]. *)
Lemma py_int_raises s e : py_int s = Raise e → e = ValueError.
Proof.
  unfold py_int. destruct (sign (number_strip s)) as [neg body].
  destruct (digitpart 0 0 body) as [[[n k] [| ? ?]] |]; congruence.
Qed.


(** *** Float literals *)

Lemma digit_or_underscore_float_char pre :
  Forall digit_or_underscore pre → Forall float_char pre.
Proof.
  intros Hpre. eapply Forall_impl; [exact Hpre |].
  intros c [H | H]; [by left | right; by left].
Qed.

Lemma sign_spec s :
  (sign s).2 = s ∨ s = chr "-" :: (sign s).2 ∨ s = chr "+" :: (sign s).2.
Proof.
  destruct s as [| c t]; [by left |]. cbn.
  destruct (Z.eqb_spec c (chr "-")) as [-> | _]; [right; by left |].
  destruct (Z.eqb_spec c (chr "+")) as [-> | _]; [right; by right |].
  by left.
Qed.

Lemma sign_float_char s : Forall float_char (sign s).2 → Forall float_char s.
Proof.
  destruct (sign_spec s) as [-> | [H | H]]; [done | |]; rewrite H at 2;
    intros Hs; constructor; try done; unfold float_char; auto 10.
Qed.

Lemma exponent_chars r x : exponent r = Some x → Forall float_char r.
Proof.
  destruct r as [| c t]; [constructor |]. cbn [exponent].
  destruct ((c =? chr "e") || (c =? chr "E")) eqn:Hc; [| done].
  pose proof (sign_float_char t) as Hsign.
  destruct (sign t) as [neg body]. cbn in Hsign.
  destruct (digitpart 0 0 body) as [[[n k] [| ? ?]] |] eqn:E; try done.
  intros _. apply digitpart_consumes in E as (d & pre & -> & Hd & Hpre).
  constructor.
  - unfold float_char. change (chr "e") with 101 in *.
    change (chr "E") with 69 in *. lia.
  - apply Hsign. rewrite app_nil_r.
    constructor; [by left | by apply digit_or_underscore_float_char].
Qed.

Lemma digitpart_chars acc k s n k' rest :
  digitpart acc k s = Some (n, k', rest) →
  Forall float_char rest → Forall float_char s.
Proof.
  intros (d & pre & -> & Hd & Hpre)%digitpart_consumes Hrest.
  constructor; [by left |]. apply Forall_app. split; [| done].
  by apply digit_or_underscore_float_char.
Qed.

Lemma digitpart_has_digit acc k s n k' rest :
  digitpart acc k s = Some (n, k', rest) → ∃ c, c ∈ s ∧ is_digit c = true.
Proof.
  intros (d & pre & -> & Hd & _)%digitpart_consumes. exists d.
  split; [by left | done].
Qed.

(** A decimal literal holds a digit and is made of the characters of
    decimal literals. *)
Lemma floatnumber_spec s m e :
  floatnumber s = Some (m, e) →
  Forall float_char s ∧ ∃ c, c ∈ s ∧ is_digit c = true.
Proof.
  unfold floatnumber.
  assert (Hpoint : float_char (chr ".")) by (unfold float_char; auto).
  destruct (digitpart 0 0 s) as [[[n k] r1] |] eqn:Ei.
  - pose proof (digitpart_has_digit _ _ _ _ _ _ Ei) as Hdigit.
    pose proof (digitpart_chars _ _ _ _ _ _ Ei) as Hchars.
    destruct r1 as [| c r2].
    { destruct (exponent []) eqn:Ex; [| done]. intros _.
      split; [apply Hchars; constructor | done]. }
    destruct (Z.eqb_spec c (chr ".")) as [-> | Hc].
    +       destruct (digitpart n 0 r2) as [[[m' k'] r3] |] eqn:Ef.
      * destruct (exponent r3) eqn:Ex; [| done]. intros _.
        split; [| done]. apply Hchars. constructor; [done |].
        eapply digitpart_chars; [exact Ef |]. by eapply exponent_chars.
      * destruct (exponent r2) eqn:Ex; [| done]. intros _.
        split; [| done]. apply Hchars. constructor; [done |].
        by eapply exponent_chars.
    + destruct (exponent (c :: r2)) eqn:Ex; [| done]. intros _.
      split; [| done]. apply Hchars. by eapply exponent_chars.
  - destruct s as [| c r2]; [done |].
    destruct (Z.eqb_spec c (chr ".")) as [-> | Hc]; [| done].
    destruct (digitpart 0 0 r2) as [[[m' k'] r3] |] eqn:Ef; [| done].
    destruct (exponent r3) eqn:Ex; [| done]. intros _.
    split.
    + constructor; [done |].
      eapply digitpart_chars; [exact Ef |]. by eapply exponent_chars.
    + destruct (digitpart_has_digit _ _ _ _ _ _ Ef) as (d & Hd & Hdd).
      exists d. split; [by right | done].
Qed.

(** [float()] raises nothing but [ValueError]. *)
Lemma py_float_raises s e : py_float s = Raise e → e = ValueError.
Proof.
  unfold py_float. destruct (sign (number_strip s)) as [neg body].
  destruct (_ || _); [done |]. destruct (str_eqb _ _); [done |].
  destruct (floatnumber body) as [[m x] |]; congruence.
Qed.


(** The words [float()] knows hold none of the characters [c] that are
    their own lower case and do not occur in them. *)
Ltac absent_from_literal :=
  let H := fresh in
  cbn; intros H;
  repeat (apply elem_of_cons in H as [H | H]; [done |]);
  by apply elem_of_nil in H.

Lemma float_word_absent c body :
  lower_char c = [c] → c ∈ body →
  c ∉ lit "inf" → c ∉ lit "infinity" → c ∉ lit "nan" →
  str_eqb (lower body) (lit "inf") || str_eqb (lower body) (lit "infinity")
  = false
  ∧ str_eqb (lower body) (lit "nan") = false.
Proof.
  intros Hlow Hc H1 H2 H3.
  assert (Hin : c ∈ lower body).
  { apply lower_elem. exists c. split; [done |]. rewrite Hlow. by left. }
  unfold str_eqb. repeat split.
  rewrite !bool_decide_eq_false_2; [done | |]; intros E; rewrite E in Hin; done.
  rewrite bool_decide_eq_false_2; [done |]. intros E. rewrite E in Hin. done.
Qed.



(** *** Splitting *)


Lemma partition_at_None sep s : partition_at sep s = None ↔ sep ∉ s.
Proof.
  induction s as [| c s IH]; cbn.
  - split; [intros _; apply not_elem_of_nil | done].
  - destruct (Z.eqb_spec c sep) as [-> | Hc].
    + split; [done |]. intros H. exfalso. apply H. by left.
    + destruct (partition_at sep s) as [[a' b'] |].
      * split; [done |]. intros H. apply not_elem_of_cons in H as [_ H].
        by apply IH in H.
      * split; [| done]. intros _. apply not_elem_of_cons.
        split; [congruence | by apply IH].
Qed.


(** ** The numeric reading of a phase text *)













(** ** NaN and infinities *)

(** C9, refuted as stated: with a fall-back that reads the name [nan] as
    sympy's NaN, the text ["nan"] is parsed successfully, to NaN. *)
Lemma string_to_phase_nan_counterexample :
  string_to_phase sympify_names (lit "nan") = Ok (PExpr NaN)
  ∧ ¬ (∀ string v, string_to_phase sympify_names string = Ok v →
         is_nan_or_infinite v = false).
Proof.
  split; [reflexivity |].
  intros H. specialize (H (lit "nan") (PExpr NaN) eq_refl). discriminate.
Qed.

(** C9, amended.  A value the parser returns is a [Fraction], an exact
    rational that is neither NaN nor infinite, or it is what the symbolic
    fall-back returned after the numeric reading raised [ValueError]; and a
    decimal literal that rounds to an infinite double is not returned but
    raises [OverflowError]. *)
Theorem string_to_phase_finite_or_symbolic sympify string :
  (∀ v, string_to_phase sympify string = Ok v →
     (∃ q, v = PFraction q ∧ is_nan_or_infinite v = false)
     ∨ (∃ e, v = PExpr e ∧ numeric_phase string = Raise ValueError
             ∧ sympify string = Ok e))
  ∧ (∀ neg, string ≠ [] →
       contains (chr ".") (normalise string)
       || contains (chr "e") (normalise string) = true →
       py_float (normalise string) = Ok (FInf neg) →
       string_to_phase sympify string = Raise OverflowError).
Proof.
  split.
  - intros v. unfold string_to_phase.
    destruct (str_eqb string []).
    { intros [= <-]. left. by eexists. }
    destruct (numeric_phase string) as [q | err] eqn:Hnum; cbn.
    { intros [= <-]. left. by eexists. }
    destruct err; try done.
    destruct (sympify string) as [e | err]; [| done]. cbn.
    intros [= <-]. right. by exists e.
  - intros neg Hne Hpe Hinf. unfold string_to_phase, str_eqb.
    rewrite bool_decide_eq_false_2 by done.
    unfold numeric_phase, numeric_token. by rewrite Hpe, Hinf.
Qed.

Lemma string_to_phase_finite_or_symbolic_witness :
  string_to_phase sympify_names (lit "1e400") = Raise OverflowError
  ∧ ((∃ q, PExpr Infinity = PFraction q
           ∧ is_nan_or_infinite (PExpr Infinity) = false)
     ∨ (∃ e, PExpr Infinity = PExpr e
             ∧ numeric_phase (lit "oo") = Raise ValueError
             ∧ sympify_names (lit "oo") = Ok e)).
Proof.
  split.
  - apply (proj2 (string_to_phase_finite_or_symbolic sympify_names
                    (lit "1e400")) false);
      [discriminate | reflexivity | by vm_compute].
  - apply (proj1 (string_to_phase_finite_or_symbolic sympify_names
                    (lit "oo")) (PExpr Infinity)).
    reflexivity.
Defined.

(** ** The examples of the phase grammar *)

Lemma normalise_pi_char a b :
  normalise (a ++ GREEK_PI :: b) = normalise (a ++ b).
Proof.
  rewrite !normalise_filter, !lower_app.
  change (lower (GREEK_PI :: b)) with ([GREEK_PI] ++ lower b).
  by rewrite !filter_app.
Qed.

Lemma lower_no_p a : 112 ∉ a → 80 ∉ a → 112 ∉ lower a.
Proof.
  intros Hp HP (d & Hd & Hc)%lower_elem.
  apply lower_char_cases in Hc. unfold GREEK_PI in Hc.
  assert (d = 112 ∨ d = 80) as Hd' by lia.
  by destruct Hd' as [-> | ->].
Qed.

Lemma normalise_pi_word a w b :
  lower w = lit "pi" → 112 ∉ a → 80 ∉ a →
  normalise (a ++ w ++ b) = normalise (a ++ b).
Proof.
  intros Hw Hp HP.
  rewrite !normalise_filter, !lower_app, Hw.
  rewrite !filter_app.
  change (filter (λ x, x ≠ GREEK_PI) (filter (λ x, x ≠ 32) (lit "pi")))
    with (lit "pi").
  assert (Hno : 112 ∉ filter (λ x, x ≠ GREEK_PI) (filter (λ x, x ≠ 32) (lower a))).
  { intros [_ [_ H]%list_elem_of_filter]%list_elem_of_filter.
    by apply (lower_no_p a). }
  rewrite replace_pi_app_no_p by done. rewrite replace_pi_head.
  symmetry. by apply replace_pi_app_no_p.
Qed.

Lemma string_to_phase_numeric sympify string q :
  numeric_phase string = Ok q →
  string_to_phase sympify string = Ok (PFraction q).
Proof.
  intros H. unfold string_to_phase.
  destruct (str_eqb string []) eqn:E.
  - apply bool_decide_eq_true_1 in E as ->. by vm_compute in H.
  - by rewrite H.
Qed.

(** *** The token ["/b"] *)

Lemma py_int_shape t b :
  py_int t = Ok b → Forall int_core_char (number_strip t).
Proof.
  unfold py_int. pose proof (sign_spec (number_strip t)) as Hsign.
  destruct (sign (number_strip t)) as [neg body]. cbn in Hsign.
  destruct (digitpart 0 0 body) as [[[n k] [| ? ?]] |] eqn:E; try done.
  intros _. apply digitpart_consumes in E as (c & pre & -> & Hc & Hpre).
  rewrite app_nil_r in Hsign.
  assert (Hbody : Forall int_core_char (c :: pre)).
  { constructor; [by left |]. eapply Forall_impl; [exact Hpre |].
    intros d [H | H]; [by left | right; by left]. }
  destruct Hsign as [<- | [-> | ->]]; [done | |];
    constructor; try done; unfold int_core_char; auto.
Qed.

Lemma py_int_strip t t' :
  number_strip t' = number_strip t → py_int t' = py_int t.
Proof. unfold py_int. by intros ->. Qed.

Lemma int_char_facts c :
  int_char c →
  cased c = false ∧ c ≠ GREEK_PI ∧ c ≠ 112 ∧ c ≠ chr "." ∧ c ≠ chr "e"
  ∧ c ≠ chr "/".
Proof.
  unfold int_char, int_core_char, cased, is_number_space, is_space, is_digit,
    UNDERSCORE,
    GREEK_PI.
  change (chr "+") with 43. change (chr "-") with 45.
  change (chr ".") with 46. change (chr "e") with 101.
  change (chr "/") with 47.
  lia.
Qed.

Lemma int_core_char_no_blank c :
  int_core_char c → c ≠ 32 ∧ is_number_space c = false.
Proof.
  unfold int_core_char, is_number_space, is_space, is_digit, UNDERSCORE.
  change (chr "+") with 43. change (chr "-") with 45. lia.
Qed.

Lemma filter_all (P : Z → Prop) `{!∀ x, Decision (P x)} (l : list Z) :
  Forall P l → filter P l = l.
Proof.
  induction 1 as [| x l Hx _ IH]; [done |].
  by rewrite filter_cons_True, IH.
Qed.

Lemma all_space_filter f (P : Z → Prop) `{!∀ x, Decision (P x)} l :
  all_space f l → all_space f (filter P l).
Proof.
  unfold all_space. rewrite !Forall_forall.
  intros Hsp c [_ Hc]%list_elem_of_filter. by apply Hsp.
Qed.

Lemma replace_pi_no_p a : 112 ∉ a → replace (lit "pi") [] a = a.
Proof.
  intros H. rewrite <- (app_nil_r a) at 1.
  rewrite replace_pi_app_no_p by done. by rewrite app_nil_r.
Qed.

(** A token that [int()] reads is read the same without its blanks;
    lower case and the removal of pi leave it alone, and it has no point,
    no [e] and no fraction bar. *)
Lemma int_token t b :
  py_int t = Ok b →
  let t' := filter (λ x, x ≠ 32) t in
  normalise (chr "/" :: t) = chr "/" :: t'
  ∧ py_int t' = Ok b
  ∧ (chr "." ∉ t') ∧ (chr "e" ∉ t') ∧ (chr "/" ∉ t').
Proof.
  intros Hint t'.
  pose proof (py_int_shape t b Hint) as Hcore.
  destruct (strip_spec is_number_space t) as (l & r & Ht & Hl & Hr & Htrim).
  assert (Hchars : Forall int_char t).
  { rewrite Ht. rewrite !Forall_app. repeat split.
    - eapply Forall_impl; [exact Hl |]. intros c H. by left.
    - eapply Forall_impl; [exact Hcore |]. intros c H. by right.
    - eapply Forall_impl; [exact Hr |]. intros c H. by left. }
  assert (Hchars' : Forall int_char t').
  { rewrite Forall_forall in *. intros c [_ Hc]%list_elem_of_filter. by apply Hchars. }
  assert (Hstrip : number_strip t' = number_strip t).
  { subst t'. rewrite Ht at 1. rewrite !filter_app.
    rewrite (filter_all _ (number_strip t)).
    - apply strip_unique; [by apply all_space_filter .. | done].
    - eapply Forall_impl; [exact Hcore |].
      intros c H. by apply int_core_char_no_blank in H as [H _]. }
  split; [| split].
  - rewrite normalise_filter.
    assert (lower (chr "/" :: t) = chr "/" :: t) as ->.
    { apply lower_uncased. constructor; [done |].
      eapply Forall_impl; [exact Hchars |].
      intros c H. by apply int_char_facts in H as [H _]. }
    rewrite filter_cons_True by done. fold t'.
    rewrite filter_all.
    + apply replace_pi_no_p. apply not_elem_of_cons. split; [done |].
      intros H. rewrite Forall_forall in Hchars'.
      apply Hchars', int_char_facts in H. by destruct H as (_ & _ & H & _).
    + constructor; [done |]. eapply Forall_impl; [exact Hchars' |].
      intros c H. by apply int_char_facts in H as (_ & H & _).
  - by rewrite (py_int_strip t t').
  - rewrite Forall_forall in Hchars'.
    repeat split; intros H; apply Hchars', int_char_facts in H;
      by destruct H as (_ & _ & _ & H1 & H2 & H3).
Qed.

Lemma Fraction_one b :
  b ≠ 0 → Fraction 1 b = Ok (Qred (1 / inject_Z b)).
Proof.
  intros Hb. unfold Fraction.
  destruct (Z.eqb_spec b 0); [done |]. f_equal.
  apply Qred_complete. unfold Qeq, Qdiv, Qmult, Qinv, inject_Z. cbn.
  destruct b; cbn; [done | lia | lia].
Qed.

Lemma string_to_phase_slash sympify t b :
  py_int t = Ok b → b ≠ 0 →
  string_to_phase sympify (chr "/" :: t)
  = Ok (PFraction (Qred (1 / inject_Z b))).
Proof.
  intros Hint Hb. apply string_to_phase_numeric.
  destruct (int_token t b Hint) as (Hnorm & Hint' & Hpoint & He & Hslash).
  unfold numeric_phase. rewrite Hnorm.
  set (t' := filter (λ x, x ≠ 32) t) in *.
  unfold numeric_token.
  assert (contains (chr ".") (chr "/" :: t') = false) as ->.
  { apply contains_false, not_elem_of_cons. by split. }
  assert (contains (chr "e") (chr "/" :: t') = false) as ->.
  { apply contains_false, not_elem_of_cons. by split. }
  cbn [orb contains existsb]. rewrite Z.eqb_refl. cbn [orb split partition_at].
  rewrite Z.eqb_refl.
  rewrite (proj2 (partition_at_None _ _) Hslash).
  change (str_eqb [] []) with true. cbn iota.
  rewrite Hint'. cbn [bind]. by apply Fraction_one.
Qed.

(** C2.  The empty text is zero, ["1/2"] is one half, ["-/3"] is minus one
    third; ["/b"], for a token [b] that [int()] reads as a non-zero
    integer, is the rational [1/b] in lowest terms; and a text that has the
    letter pi, or the word [pi] in any case after a prefix without the
    letter [p], reads as the same text without it. *)
Theorem string_to_phase_examples sympify :
  string_to_phase sympify [] = Ok (PFraction 0)
  ∧ string_to_phase sympify (lit "1/2") = Ok (PFraction (1 # 2))
  ∧ string_to_phase sympify (lit "-/3") = Ok (PFraction (-1 # 3))
  ∧ (∀ t b, py_int t = Ok b → b ≠ 0 →
       string_to_phase sympify (chr "/" :: t)
       = Ok (PFraction (Qred (1 / inject_Z b))))
  ∧ (∀ a b q, numeric_phase (a ++ b) = Ok q →
       string_to_phase sympify (a ++ GREEK_PI :: b) = Ok (PFraction q))
  ∧ (∀ a w b q, lower w = lit "pi" → 112 ∉ a → 80 ∉ a →
       numeric_phase (a ++ b) = Ok q →
       string_to_phase sympify (a ++ w ++ b) = Ok (PFraction q)).
Proof.
  split; [reflexivity |]. split; [reflexivity |]. split; [reflexivity |].
  split; [| split].
  - intros t b. apply string_to_phase_slash.
  - intros a b q Hq. apply string_to_phase_numeric.
    unfold numeric_phase in *. by rewrite normalise_pi_char.
  - intros a w b q Hw Hp HP Hq. apply string_to_phase_numeric.
    unfold numeric_phase in *. by rewrite normalise_pi_word.
Qed.

Lemma string_to_phase_examples_witness :
  string_to_phase no_grammar (lit "/ -4") = Ok (PFraction (-1 # 4))
  ∧ string_to_phase no_grammar (lit "3" ++ GREEK_PI :: lit "/4")
    = Ok (PFraction (3 # 4))
  ∧ string_to_phase no_grammar (lit "3" ++ lit "Pi" ++ lit "/4")
    = Ok (PFraction (3 # 4)).
Proof.
  destruct (string_to_phase_examples no_grammar)
    as (_ & _ & _ & Hslash & Hchar & Hword).
  split; [| split].
  - apply (Hslash (lit " -4") (-4)); [reflexivity | lia].
  - apply (Hchar (lit "3") (lit "/4")). reflexivity.
  - apply (Hword (lit "3") (lit "Pi") (lit "/4")); try reflexivity;
      absent_from_literal.
Defined.

(** ** Rounding to binary64 *)

Lemma nearest_even_spec n d :
  0 ≤ n → 0 < d →
  0 ≤ nearest_even n d ∧ 2 * Z.abs (n - nearest_even n d * d) ≤ d.
Proof.
  intros Hn Hd. unfold nearest_even.
  pose proof (Z.div_mod n d ltac:(lia)) as Hdm.
  pose proof (Z.mod_pos_bound n d Hd) as Hmod.
  assert (0 ≤ n / d) by (apply Z.div_pos; lia).
  destruct (Z.ltb_spec (2 * (n mod d)) d).
  { split; [lia |]. nia. }
  destruct (Z.ltb_spec d (2 * (n mod d))).
  { split; [lia |]. nia. }
  destruct (Z.even (n / d)); split; try lia; nia.
Qed.

(** The rounded integer is as near as any integer. *)
Lemma nearest_even_nearest n d k :
  0 ≤ n → 0 < d →
  Z.abs (n - nearest_even n d * d) ≤ Z.abs (n - k * d).
Proof.
  intros Hn Hd.
  destruct (nearest_even_spec n d Hn Hd) as [_ H].
  destruct (Z.eq_dec k (nearest_even n d)) as [-> | Hne]; [lia |].
  assert (d ≤ Z.abs ((k - nearest_even n d) * d)) by nia.
  lia.
Qed.

Lemma pow2_pos e : (0 < pow2 e)%Q.
Proof. apply Qpower_0_lt. reflexivity. Qed.

Lemma pow2_add a b : (pow2 (a + b) == pow2 a * pow2 b)%Q.
Proof. apply Qpower_plus. discriminate. Qed.

Lemma pow2_inject e : 0 ≤ e → (inject_Z (2 ^ e) == pow2 e)%Q.
Proof. intros H. by rewrite Zpower_Qpower. Qed.

Lemma pow2_le a b : a ≤ b → (pow2 a <= pow2 b)%Q.
Proof. intros H. apply Qpower_le_compat_l; [done | by compute]. Qed.

(** [2 ^ max 0 a / 2 ^ max 0 (- a)] is [2 ^ a]. *)
Lemma pow2_split a :
  (inject_Z (2 ^ Z.max 0 a) == pow2 a * inject_Z (2 ^ Z.max 0 (- a)))%Q.
Proof.
  rewrite !pow2_inject by lia.
  rewrite <- pow2_add. destruct (Z.le_ge_cases 0 a).
  - rewrite !Z.max_r, Z.max_l by lia. by rewrite Z.add_0_r.
  - rewrite Z.max_l, Z.max_r by lia. by replace (a + - a) with 0 by lia.
Qed.

Lemma log2_pow2 n :
  0 < n →
  (pow2 (Z.log2 n) <= inject_Z n)%Q ∧ (inject_Z n < pow2 (Z.log2 n + 1))%Q.
Proof.
  intros Hn. destruct (Z.log2_spec n Hn) as [Hlo Hhi].
  pose proof (Z.log2_nonneg n) as Hnn.
  rewrite <- !pow2_inject by lia. split.
  - by rewrite <- Zle_Qle.
  - rewrite <- Zlt_Qlt. by rewrite <- Z.add_1_r in Hhi.
Qed.

(** [floor_log2 n d] is the binade of [n / d]. *)
Lemma floor_log2_spec n d :
  0 < n → 0 < d →
  (pow2 (floor_log2 n d) * inject_Z d <= inject_Z n)%Q
  ∧ (inject_Z n < pow2 (floor_log2 n d + 1) * inject_Z d)%Q.
Proof.
  intros Hn Hd.
  destruct (log2_pow2 n Hn) as [Hn1 Hn2].
  destruct (log2_pow2 d Hd) as [Hd1 Hd2].
  unfold floor_log2.
  set (k := Z.log2 n - Z.log2 d).
  pose proof (pow2_split k) as Hsplit.
  pose proof (pow2_pos k) as Hk.
  pose proof (pow2_pos (k + 1)) as Hk1.
  pose proof (pow2_pos (k - 1)) as Hkm.
  assert (Hc : (0 < inject_Z (2 ^ Z.max 0 (- k)))%Q).
  { rewrite pow2_inject by lia. apply pow2_pos. }
  assert (Ha : (pow2 (Z.log2 n + 1) == pow2 (k + 1) * pow2 (Z.log2 d))%Q).
  { rewrite <- pow2_add. by replace (k + 1 + Z.log2 d) with (Z.log2 n + 1) by lia. }
  assert (Hb : (pow2 (Z.log2 n) == pow2 (k - 1) * pow2 (Z.log2 d + 1))%Q).
  { rewrite <- pow2_add. by replace (k - 1 + (Z.log2 d + 1)) with (Z.log2 n) by lia. }
  assert (Hdq : (0 < inject_Z d)%Q).
  { change 0%Q with (inject_Z 0). by rewrite <- Zlt_Qlt. }
  pose proof (pow2_pos (Z.log2 d)) as Hld.
  destruct (Z.leb_spec (d * 2 ^ Z.max 0 k) (n * 2 ^ Z.max 0 (- k))) as [Ht | Ht].
  - rewrite Zle_Qle, !inject_Z_mult, Hsplit in Ht.
    split.
    + apply (Qmult_le_r _ _ _ Hc). lra.
    + rewrite Ha in Hn2.
      apply Qlt_le_trans with (1 := Hn2).
      apply Qmult_le_l; [done | done].
  - rewrite Zlt_Qlt, !inject_Z_mult, Hsplit in Ht.
    replace (k - 1 + 1) with k by lia. split.
    + rewrite Hb in Hn1. apply Qle_trans with (2 := Hn1).
      apply Qmult_le_l; [done |]. by apply Qlt_le_weak.
    + apply (Qmult_lt_r _ _ _ Hc). lra.
Qed.

Lemma inject_Z_pos z : 0 < z → (0 < inject_Z z)%Q.
Proof. intros H. change 0%Q with (inject_Z 0). by rewrite <- Zlt_Qlt. Qed.

Lemma scaled_value m e : (scaled m e == inject_Z m * pow2 e)%Q.
Proof.
  unfold scaled. rewrite Qred_correct, Qmake_Qdiv.
  assert (Hpos : 0 < 2 ^ Z.max 0 (- e)) by (apply Z.pow_pos_nonneg; lia).
  rewrite Z2Pos.id by done.
  rewrite inject_Z_mult, (pow2_split e).
  pose proof (inject_Z_pos _ Hpos) as Hq.
  field. lra.
Qed.

Lemma Qabs_inject_Z z : Qabs (inject_Z z) = inject_Z (Z.abs z).
Proof. reflexivity. Qed.

Section Rounding.

Variables n d : Z.
Hypothesis Hn : 0 < n.
Hypothesis Hd : 0 < d.

Let e := ulp_exponent n d.
Let m := nearest_even (n * 2 ^ Z.max 0 (- e)) (d * 2 ^ Z.max 0 e).
Let x : Q := (inject_Z n / inject_Z d)%Q.

Lemma rounding_denominator_pos : (0 < inject_Z d)%Q.
Proof using Hd. by apply inject_Z_pos. Qed.

Lemma rounding_numerator : (inject_Z n == x * inject_Z d)%Q.
Proof using Hd.
  pose proof rounding_denominator_pos. unfold x. field. lra.
Qed.

(** In units of [2 ^ e], the distance of [n / d] to an integer [k]. *)
Lemma rounding_units k :
  (inject_Z (n * 2 ^ Z.max 0 (- e) - k * (d * 2 ^ Z.max 0 e))
   == (x - inject_Z k * pow2 e)
      * (inject_Z d * inject_Z (2 ^ Z.max 0 (- e))))%Q.
Proof using Hd.
  unfold Z.sub. rewrite inject_Z_plus, inject_Z_opp, !inject_Z_mult.
  rewrite (pow2_split e), rounding_numerator. ring.
Qed.

Lemma rounding_scale_pos :
  (0 < inject_Z d * inject_Z (2 ^ Z.max 0 (- e)))%Q.
Proof using Hd.
  apply Qmult_lt_0_compat; [apply rounding_denominator_pos |].
  apply inject_Z_pos, Z.pow_pos_nonneg; lia.
Qed.

(** No multiple of [2 ^ e] is nearer to [n / d] than [m * 2 ^ e]. *)
Lemma rounding_nearest_multiple k :
  (Qabs (x - inject_Z m * pow2 e) <= Qabs (x - inject_Z k * pow2 e))%Q.
Proof using Hn Hd.
  pose proof (nearest_even_nearest (n * 2 ^ Z.max 0 (- e))
                (d * 2 ^ Z.max 0 e) k) as Hz.
  assert (0 < 2 ^ Z.max 0 (- e)) by (apply Z.pow_pos_nonneg; lia).
  assert (0 < 2 ^ Z.max 0 e) by (apply Z.pow_pos_nonneg; lia).
  specialize (Hz ltac:(nia) ltac:(nia)). fold m in Hz.
  rewrite Zle_Qle, <- !Qabs_inject_Z, !rounding_units in Hz.
  rewrite (Qabs_Qmult (x - inject_Z m * pow2 e)),
    (Qabs_Qmult (x - inject_Z k * pow2 e)) in Hz.
  pose proof rounding_scale_pos as Hs.
  pose proof (Qabs_pos _ (Qlt_le_weak _ _ Hs)) as Ha.
  rewrite Ha in Hz. by apply Qmult_le_r in Hz.
Qed.

Lemma rounding_binade :
  (pow2 (floor_log2 n d) <= x)%Q ∧ (x < pow2 (floor_log2 n d + 1))%Q.
Proof using Hn Hd.
  destruct (floor_log2_spec n d Hn Hd) as [Hlo Hhi].
  pose proof rounding_denominator_pos as Hq.
  rewrite rounding_numerator in Hlo, Hhi. split.
  - by apply Qmult_le_r in Hlo.
  - by apply Qmult_lt_r in Hhi.
Qed.

Lemma rounding_below : (x < inject_Z (2 ^ 53) * pow2 e)%Q.
Proof using Hn Hd.
  destruct rounding_binade as [_ Hhi].
  apply Qlt_le_trans with (1 := Hhi).
  rewrite pow2_inject by lia. rewrite <- pow2_add.
  apply pow2_le. unfold e, ulp_exponent. lia.
Qed.

Lemma rounding_above :
  -1074 < e → (inject_Z (2 ^ 52) * pow2 e <= x)%Q.
Proof using Hn Hd.
  intros He. destruct rounding_binade as [Hlo _].
  apply Qle_trans with (2 := Hlo).
  rewrite pow2_inject by lia. rewrite <- pow2_add.
  apply pow2_le. unfold e, ulp_exponent in *. lia.
Qed.

(** The significand has at most 53 bits, or is [2 ^ 53]. *)
Lemma rounding_significand : 0 ≤ m ≤ 2 ^ 53.
Proof using Hn Hd.
  assert (Hp1 : 0 < 2 ^ Z.max 0 (- e)) by (apply Z.pow_pos_nonneg; lia).
  assert (Hp2 : 0 < 2 ^ Z.max 0 e) by (apply Z.pow_pos_nonneg; lia).
  destruct (nearest_even_spec (n * 2 ^ Z.max 0 (- e)) (d * 2 ^ Z.max 0 e))
    as [Hm0 Hm]; [nia | nia |]. fold m in Hm0, Hm.
  split; [done |].
  assert (Hlt : n * 2 ^ Z.max 0 (- e) < 2 ^ 53 * (d * 2 ^ Z.max 0 e)).
  { pose proof rounding_below as Hb. pose proof rounding_scale_pos as Hs.
    pose proof (rounding_units (2 ^ 53)) as Hu.
    apply Z.lt_sub_0. rewrite Zlt_Qlt, Hu. change (inject_Z 0) with 0%Q.
    set (s := (inject_Z d * inject_Z (2 ^ Z.max 0 (- e)))%Q) in *.
    set (a := (x - inject_Z (2 ^ 53) * pow2 e)%Q).
    assert (a < 0)%Q by (unfold a; lra). nra. }
  nia.
Qed.

Lemma rounding_significand_normal : -1074 < e → 2 ^ 52 ≤ m.
Proof using Hn Hd.
  intros He.
  assert (Hp1 : 0 < 2 ^ Z.max 0 (- e)) by (apply Z.pow_pos_nonneg; lia).
  assert (Hp2 : 0 < 2 ^ Z.max 0 e) by (apply Z.pow_pos_nonneg; lia).
  destruct (nearest_even_spec (n * 2 ^ Z.max 0 (- e)) (d * 2 ^ Z.max 0 e))
    as [Hm0 Hm]; [nia | nia |]. fold m in Hm0, Hm.
  assert (Hle : 2 ^ 52 * (d * 2 ^ Z.max 0 e) ≤ n * 2 ^ Z.max 0 (- e)).
  { pose proof (rounding_above He) as Hb. pose proof rounding_scale_pos as Hs.
    pose proof (rounding_units (2 ^ 52)) as Hu.
    apply Z.le_0_sub. rewrite Zle_Qle, Hu. change (inject_Z 0) with 0%Q.
    set (s := (inject_Z d * inject_Z (2 ^ Z.max 0 (- e)))%Q) in *.
    set (a := (x - inject_Z (2 ^ 52) * pow2 e)%Q).
    assert (0 <= a)%Q by (unfold a; lra). nra. }
  nia.
Qed.

End Rounding.

Lemma binary64_opp q : binary64 q → binary64 (- q)%Q.
Proof.
  intros (m & e & Hm & He & Hq). exists (- m), e.
  split; [lia |]. split; [done |]. rewrite Hq, inject_Z_opp. ring.
Qed.

(** What [round_binary64] returns is a binary64 number, and none is
    nearer. *)
Lemma round_binary64_nearest n d q :
  0 ≤ n → 0 < d → round_binary64 n d = Some q →
  nearest_binary64 (inject_Z n / inject_Z d) q.
Proof.
  intros Hn Hd. unfold round_binary64.
  destruct (Z.eqb_spec n 0) as [-> | Hn0].
  { intros [= <-]. split.
    - exists 0, 0. split; [done |]. split; [lia | reflexivity].
    - intros d' _.
      assert (inject_Z 0 / inject_Z d - 0 == 0)%Q as ->
        by (unfold Qdiv; ring).
      apply Qabs_nonneg. }
  assert (Hn' : 0 < n) by lia. clear Hn Hn0.
  set (e := ulp_exponent n d).
  set (m := nearest_even (n * 2 ^ Z.max 0 (- e)) (d * 2 ^ Z.max 0 e)).
  set (x := (inject_Z n / inject_Z d)%Q).
  destruct (Z.leb_spec (2 ^ 1024) (m * 2 ^ Z.max 0 e)) as [| Hfin]; [done |].
  intros [= <-].
  pose proof (rounding_significand n d Hn' Hd) as Hm. fold e m in Hm.
  pose proof (rounding_significand_normal n d Hn' Hd) as Hnormal.
  fold e m in Hnormal.
  pose proof (rounding_nearest_multiple n d Hn' Hd) as Hnear.
  fold e m x in Hnear.
  assert (He : -1074 ≤ e) by (unfold e, ulp_exponent; lia).
  split.
  - (* representable *)
    destruct (Z.eq_dec m (2 ^ 53)) as [Hm53 | Hm53].
    + exists (2 ^ 52), (e + 1). split; [done |]. split.
      * split; [lia |].
        destruct (Z.le_gt_cases 971 e) as [Hbig |]; [| lia]. exfalso.
        rewrite Hm53, Z.max_r in Hfin by lia.
        assert (2 ^ 971 ≤ 2 ^ e) by (apply Z.pow_le_mono_r; lia).
        change (2 ^ 1024) with (2 ^ 53 * 2 ^ 971) in Hfin. nia.
      * rewrite scaled_value, Hm53, pow2_add.
        change (pow2 1) with 2%Q.
        change (inject_Z (2 ^ 53)) with (inject_Z (2 ^ 52) * 2)%Q. ring.
    + exists m, e. split; [lia |]. split; [| apply scaled_value].
      split; [done |].
      destruct (Z.le_gt_cases 972 e) as [Hbig |]; [| lia]. exfalso.
      specialize (Hnormal ltac:(lia)).
      rewrite Z.max_r in Hfin by lia.
      assert (2 ^ 972 ≤ 2 ^ e) by (apply Z.pow_le_mono_r; lia).
      change (2 ^ 1024) with (2 ^ 52 * 2 ^ 972) in Hfin. nia.
  - (* nearest *)
    intros d' (m' & e' & Hm' & He' & Hd').
    rewrite scaled_value, Hd'.
    destruct (Z.le_gt_cases e e') as [Hge | Hlt].
    + (* a multiple of the unit in the last place *)
      specialize (Hnear (m' * 2 ^ (e' - e))).
      rewrite inject_Z_mult, pow2_inject in Hnear by lia.
      assert (Heq : (inject_Z m' * pow2 (e' - e) * pow2 e
                     == inject_Z m' * pow2 e')%Q).
      { rewrite <- Qmult_assoc, <- pow2_add.
        by replace (e' - e + e) with e' by lia. }
      by rewrite Heq in Hnear.
    + (* below the binade *)
      pose proof (rounding_above n d Hn' Hd) as Habove. fold e x in Habove.
      specialize (Habove ltac:(lia)).
      specialize (Hnear (2 ^ 52)).
      apply Qle_trans with (1 := Hnear).
      assert (Hbelow : (inject_Z m' * pow2 e' < inject_Z (2 ^ 52) * pow2 e)%Q).
      { pose proof (pow2_pos e') as Hpe'.
        pose proof (pow2_le e' (e - 1) ltac:(lia)) as Hpe.
        assert (Hpow : (pow2 e == 2 * pow2 (e - 1))%Q).
        { change 2%Q with (pow2 1). rewrite <- pow2_add.
          by replace (1 + (e - 1)) with e by lia. }
        assert (Hm'q : (inject_Z m' < inject_Z (2 ^ 53))%Q).
        { rewrite <- Zlt_Qlt. lia. }
        change (inject_Z (2 ^ 53)) with (inject_Z (2 ^ 52) * 2)%Q in Hm'q.
        assert (H52 : (0 < inject_Z (2 ^ 52))%Q) by reflexivity.
        rewrite Hpow.
        set (a := inject_Z m') in *. set (b := inject_Z (2 ^ 52)) in *.
        set (u := pow2 e') in *. set (w := pow2 (e - 1)) in *.
        nra. }
      rewrite (Qabs_pos (x - inject_Z (2 ^ 52) * pow2 e)) by lra.
      apply Qle_trans with (2 := Qle_Qabs _). lra.
Qed.

(** ** Decimal literals *)

Lemma digitpart_nonneg s :
  ∀ acc k n k' rest,
    digitpart acc k s = Some (n, k', rest) → 0 ≤ acc → 0 ≤ n.
Proof.
  induction s as [| c | c d r IHr IHdr] using pair_ind;
    intros acc k n k' rest H Hacc.
  - done.
  - cbn in H. destruct (is_digit c) eqn:Hc; [| done].
    injection H as <- <- <-. unfold is_digit in Hc. lia.
  - cbn [digitpart] in H. destruct (is_digit c) eqn:Hc; [| done].
    assert (0 ≤ 10 * acc + (c - 48)) by (unfold is_digit in Hc; lia).
    destruct (d =? UNDERSCORE).
    + destruct (digitpart _ _ r) as [[[n1 k1] rest1] |] eqn:E.
      * injection H as <- <- <-. by eapply IHr.
      * by injection H as <- <- <-.
    + destruct (digitpart _ _ (d :: r)) as [[[n1 k1] rest1] |] eqn:E.
      * injection H as <- <- <-. by eapply IHdr.
      * by injection H as <- <- <-.
Qed.

Lemma floatnumber_nonneg s m e : floatnumber s = Some (m, e) → 0 ≤ m.
Proof.
  unfold floatnumber.
  destruct (digitpart 0 0 s) as [[[n k] r1] |] eqn:Ei.
  - pose proof (digitpart_nonneg _ _ _ _ _ _ Ei ltac:(lia)) as Hn.
    destruct r1 as [| c r2].
    { destruct (exponent []); [| done]. by intros [= <- _]. }
    destruct (c =? chr ".").
    + destruct (digitpart n 0 r2) as [[[m' k'] r3] |] eqn:Ef.
      * destruct (exponent r3); [| done]. intros [= <- _].
        by eapply digitpart_nonneg.
      * destruct (exponent r2); [| done]. by intros [= <- _].
    + destruct (exponent (c :: r2)); [| done]. by intros [= <- _].
  - destruct s as [| c r2]; [done |].
    destruct (c =? chr "."); [| done].
    destruct (digitpart 0 0 r2) as [[[m' k'] r3] |] eqn:Ef; [| done].
    destruct (exponent r3); [| done]. intros [= <- _].
    by eapply digitpart_nonneg.
Qed.

Lemma pow10_split a :
  (inject_Z (10 ^ Z.max 0 a) == 10 ^ a * inject_Z (10 ^ Z.max 0 (- a)))%Q.
Proof.
  rewrite !Zpower_Qpower by lia. change (inject_Z 10) with 10%Q.
  rewrite <- Qpower_plus by discriminate. destruct (Z.le_ge_cases 0 a).
  - rewrite !Z.max_r, Z.max_l by lia. by rewrite Z.add_0_r.
  - rewrite Z.max_l, Z.max_r by lia. by replace (a + - a) with 0 by lia.
Qed.

Lemma decimal_quotient m e :
  (inject_Z (m * 10 ^ Z.max 0 e) / inject_Z (10 ^ Z.max 0 (- e))
   == inject_Z m * 10 ^ e)%Q.
Proof.
  rewrite inject_Z_mult, (pow10_split e).
  assert (0 < inject_Z (10 ^ Z.max 0 (- e)))%Q
    by (apply inject_Z_pos, Z.pow_pos_nonneg; lia).
  field. lra.
Qed.

Lemma nearest_binary64_proper x x' q :
  (x == x')%Q → nearest_binary64 x q → nearest_binary64 x' q.
Proof.
  intros Hx [Hq Hnear]. split; [done |]. intros d Hd.
  rewrite <- Hx. by apply Hnear.
Qed.

Lemma nearest_binary64_opp x q :
  nearest_binary64 x q → nearest_binary64 (- x) (- q).
Proof.
  intros [Hq Hnear]. split; [by apply binary64_opp |]. intros d Hd.
  specialize (Hnear (- d)%Q (binary64_opp _ Hd)).
  assert (- x - - q == - (x - q))%Q as -> by ring.
  assert (- x - d == - (x - - d))%Q as -> by ring.
  by rewrite !Qabs_opp.
Qed.

(** The double of a decimal literal is the binary64 number nearest to the
    number the literal stands for. *)
Lemma decimal_to_float_nearest neg m e q :
  0 ≤ m → decimal_to_float neg m e = FFinite q →
  nearest_binary64 (decimal_value neg m e) q.
Proof.
  intros Hm. unfold decimal_to_float.
  destruct (round_binary64 _ _) as [q0 |] eqn:E; [| done].
  intros [= <-].
  apply round_binary64_nearest in E;
    [| apply Z.mul_nonneg_nonneg; [done | apply Z.pow_nonneg; lia]
     | apply Z.pow_pos_nonneg; lia].
  apply (nearest_binary64_proper _ _ _ (decimal_quotient m e)) in E.
  unfold decimal_value. destruct neg; cbn [apply_sign]; [| done].
  apply nearest_binary64_opp in E.
  eapply nearest_binary64_proper; [| exact E].
  rewrite inject_Z_opp. ring.
Qed.

Lemma normalise_keeps c string :
  c ≠ GREEK_PI → c ≠ 112 → c ≠ 105 →
  c ∈ normalise string ↔ c ∈ replace (lit " ") [] (lower string).
Proof.
  intros Hpi Hp Hi. unfold normalise. split.
  - intros H%replace_pi_subseteq. rewrite replace_char in H.
    by apply list_elem_of_filter in H as [_ H].
  - intros H. apply replace_pi_keeps; [done | done |].
    rewrite replace_char. by apply list_elem_of_filter.
Qed.

Lemma contains_normalise c string :
  c ≠ GREEK_PI → c ≠ 112 → c ≠ 105 →
  contains c (normalise string)
  = contains c (replace (lit " ") [] (lower string)).
Proof.
  intros Hpi Hp Hi. apply eq_true_iff_eq.
  rewrite !contains_true. by apply normalise_keeps.
Qed.

(** C10.  For a text that has a point or an [e] once it is in lower case
    and without blanks, the parser answers [Fraction(float(s))] on the
    normalised text [s], and falls back to the symbolic parser when that
    raises [ValueError].  When [s] is a decimal literal and [float(s)] is
    the finite double [d], the answer is [d] as an exact rational, and [d]
    is the binary64 number nearest to the number the literal stands
    for. *)
Theorem string_to_phase_decimal sympify string :
  contains (chr ".") (replace (lit " ") [] (lower string))
  || contains (chr "e") (replace (lit " ") [] (lower string)) = true →
  string_to_phase sympify string
  = try_except_ValueError
      (x <- py_float (normalise string) ;;
       q <- Fraction_of_float x ;; Ok (PFraction q))
      (e <- sympify string ;; Ok (PExpr e))
  ∧ ∀ neg body m e d,
      sign (number_strip (normalise string)) = (neg, body) →
      floatnumber body = Some (m, e) →
      py_float (normalise string) = Ok (FFinite d) →
      string_to_phase sympify string = Ok (PFraction (Qred d))
      ∧ nearest_binary64 (decimal_value neg m e) d.
Proof.
  intros Hpe.
  assert (Hne : string ≠ []).
  { intros ->. by vm_compute in Hpe. }
  assert (Hpe' : contains (chr ".") (normalise string)
                 || contains (chr "e") (normalise string) = true).
  { by rewrite !contains_normalise. }
  assert (Hrun : string_to_phase sympify string
    = try_except_ValueError
        (x <- py_float (normalise string) ;;
         q <- Fraction_of_float x ;; Ok (PFraction q))
        (e <- sympify string ;; Ok (PExpr e))).
  { unfold string_to_phase, str_eqb. rewrite bool_decide_eq_false_2 by done.
    unfold numeric_phase, numeric_token. rewrite Hpe'.
    by destruct (py_float (normalise string)). }
  split; [done |].
  intros neg body m e d Hsign Hlit Hfloat.
  split.
  - rewrite Hrun, Hfloat. reflexivity.
  - unfold py_float in Hfloat. rewrite Hsign in Hfloat.
    destruct (str_eqb (lower body) (lit "inf") || _) in Hfloat; [done |].
    destruct (str_eqb (lower body) (lit "nan")) in Hfloat; [done |].
    rewrite Hlit in Hfloat. injection Hfloat as Hfloat.
    apply decimal_to_float_nearest; [| done].
    by eapply floatnumber_nonneg.
Qed.

Lemma string_to_phase_decimal_witness :
  string_to_phase no_grammar (lit "0.1")
  = Ok (PFraction (3602879701896397 # 36028797018963968))
  ∧ nearest_binary64 (1 # 10) (3602879701896397 # 36028797018963968)
  ∧ ¬ (3602879701896397 # 36028797018963968 == 1 # 10)%Q.
Proof.
  destruct (proj2 (string_to_phase_decimal no_grammar (lit "0.1") eq_refl)
              false (lit "0.1") 1 (-1)
              (3602879701896397 # 36028797018963968)%Q
              eq_refl eq_refl ltac:(by vm_compute))
    as [Hrun Hnear].
  split; [exact Hrun |]. split; [| by vm_compute].
  eapply nearest_binary64_proper; [| exact Hnear]. reflexivity.
Defined.

(** * Part VI: further properties *)

(** ** Numerals in the phase text *)

(** A text that [int()] reads is made of blanks, signs, digits and
    underscores, and it is read the same without its blanks. *)
Lemma py_int_token t n :
  py_int t = Ok n →
  Forall int_char t ∧ py_int (filter (λ x, x ≠ 32) t) = Ok n.
Proof.
  intros Hint.
  pose proof (py_int_shape t n Hint) as Hcore.
  destruct (strip_spec is_number_space t) as (l & r & Ht & Hl & Hr & Htrim).
  split.
  - rewrite Ht. rewrite !Forall_app. repeat split.
    + eapply Forall_impl; [exact Hl |]. intros c H. by left.
    + eapply Forall_impl; [exact Hcore |]. intros c H. by right.
    + eapply Forall_impl; [exact Hr |]. intros c H. by left.
  - rewrite <- Hint. apply py_int_strip.
    rewrite Ht at 1. rewrite !filter_app.
    rewrite (filter_all _ (number_strip t)).
    + apply strip_unique; [by apply all_space_filter .. | done].
    + eapply Forall_impl; [exact Hcore |].
      intros c H. by apply int_core_char_no_blank in H as [H _].
Qed.

(** Lower case and the removal of pi leave alone a text without cased
    letters, without the letter pi and without the letter [p]. *)
Lemma normalise_plain s :
  Forall (λ c, cased c = false ∧ c ≠ GREEK_PI ∧ c ≠ 112) s →
  normalise s = filter (λ x, x ≠ 32) s.
Proof.
  intros H. rewrite normalise_filter.
  rewrite lower_uncased
    by (eapply Forall_impl; [exact H |]; by intros c (Hc & _)).
  assert (H' : Forall (λ c, cased c = false ∧ c ≠ GREEK_PI ∧ c ≠ 112)
                 (filter (λ x, x ≠ 32) s)).
  { rewrite Forall_forall in *. intros c [_ Hc]%list_elem_of_filter. by apply H. }
  rewrite filter_all
    by (eapply Forall_impl; [exact H' |]; by intros c (_ & Hc & _)).
  apply replace_pi_no_p. intros Hp.
  rewrite Forall_forall in H'. by destruct (H' _ Hp) as (_ & _ & Hne).
Qed.

Lemma int_char_plain c :
  int_char c ∨ c = chr "/" → cased c = false ∧ c ≠ GREEK_PI ∧ c ≠ 112.
Proof.
  intros [H | ->]; [| done].
  by apply int_char_facts in H as (H1 & H2 & H3 & _).
Qed.

Lemma partition_at_app sep a b :
  sep ∉ a → partition_at sep (a ++ sep :: b) = Some (a, b).
Proof.
  induction a as [| c a IH]; intros Hn; cbn.
  - by rewrite Z.eqb_refl.
  - apply not_elem_of_cons in Hn as [Hc Hn].
    destruct (Z.eqb_spec c sep) as [-> | _]; [done |]. by rewrite IH.
Qed.

(** The numerator of a fraction text: nothing stands for one, a lone minus
    sign for minus one, and any other text is read by [int()]. *)
Lemma numeric_phase_fraction a b n d :
  (a = [] ∧ n = 1) ∨ (a = lit "-" ∧ n = -1) ∨ py_int a = Ok n →
  py_int b = Ok d →
  numeric_phase (a ++ chr "/" :: b) = Fraction n d.
Proof.
  intros Ha Hb.
  destruct (py_int_token b d Hb) as [Hbc Hb'].
  set (a' := filter (λ x, x ≠ 32) a).
  set (b' := filter (λ x, x ≠ 32) b) in *.
  assert (Hac : Forall int_char a).
  { destruct Ha as [[-> _] | [[-> _] | Ha]]; [constructor | |].
    - constructor; [| constructor]. right. unfold int_core_char. auto.
    - by apply py_int_token in Ha as [Ha _]. }
  assert (Hnum : (if str_eqb a' [] then d0 <- py_int b' ;; Fraction 1 d0
                  else n0 <- py_int (if str_eqb a' (lit "-") then lit "-1" else a') ;;
                       d0 <- py_int b' ;; Fraction n0 d0)
                 = Fraction n d).
  { rewrite Hb'. destruct Ha as [[-> ->] | [[-> ->] | Ha]]; [done | done |].
    apply py_int_token in Ha as [_ Ha]. fold a' in Ha.
    unfold str_eqb.
    rewrite bool_decide_eq_false_2 by (intros E; by rewrite E in Ha).
    rewrite bool_decide_eq_false_2 by (intros E; by rewrite E in Ha).
    by rewrite Ha. }
  assert (Hfacts : ∀ t, Forall int_char t →
            (chr "." ∉ filter (λ x, x ≠ 32) t)
            ∧ (chr "e" ∉ filter (λ x, x ≠ 32) t)
            ∧ (chr "/" ∉ filter (λ x, x ≠ 32) t)).
  { intros t Ht. rewrite Forall_forall in Ht.
    repeat split; intros [_ H]%list_elem_of_filter;
      apply Ht, int_char_facts in H; by destruct H as (_ & _ & _ & H1 & H2 & H3). }
  destruct (Hfacts a Hac) as (Hap & Hae & Has). fold a' in Hap, Hae, Has.
  destruct (Hfacts b Hbc) as (Hbp & Hbe & Hbs). fold b' in Hbp, Hbe, Hbs.
  unfold numeric_phase. rewrite normalise_plain.
  2:{ apply Forall_app. split; [| constructor].
      - eapply Forall_impl; [exact Hac |]. intros c H. apply int_char_plain. by left.
      - apply int_char_plain. by right.
      - eapply Forall_impl; [exact Hbc |]. intros c H. apply int_char_plain. by left. }
  rewrite filter_app, filter_cons_True by done. fold a' b'.
  unfold numeric_token.
  assert (contains (chr ".") (a' ++ chr "/" :: b') = false) as ->.
  { apply contains_false. intros [H | H]%elem_of_app; [done |].
    by apply elem_of_cons in H as [H | H]. }
  assert (contains (chr "e") (a' ++ chr "/" :: b') = false) as ->.
  { apply contains_false. intros [H | H]%elem_of_app; [done |].
    by apply elem_of_cons in H as [H | H]. }
  assert (contains (chr "/") (a' ++ chr "/" :: b') = true) as ->.
  { apply contains_true, elem_of_app. right. by left. }
  cbn [orb split]. rewrite partition_at_app by done.
  rewrite (proj2 (partition_at_None _ _) Hbs). exact Hnum.
Qed.

Lemma Fraction_value n d :
  d ≠ 0 → Fraction n d = Ok (Qred (inject_Z n / inject_Z d)).
Proof.
  intros Hd. unfold Fraction.
  destruct (Z.eqb_spec d 0); [done |]. f_equal.
  apply Qred_complete. unfold Qeq, Qdiv, Qmult, Qinv, inject_Z. cbn.
  destruct d as [| p | p]; [done | |]; cbn; rewrite Pos.mul_1_l.
  - change (Z.to_pos (Z.abs (Z.pos p))) with p. lia.
  - change (Z.to_pos (Z.abs (Z.neg p))) with p. lia.
Qed.

(** An error of the numeric reading other than [ValueError] leaves the
    parser as it is. *)
Lemma string_to_phase_escapes sympify string e :
  numeric_phase string = Raise e → e ≠ ValueError →
  string_to_phase sympify string = Raise e.
Proof.
  intros H He. unfold string_to_phase.
  destruct (str_eqb string []) eqn:E.
  - apply bool_decide_eq_true_1 in E as ->. vm_compute in H. congruence.
  - rewrite H. by destruct e.
Qed.

Lemma numeric_phase_integer t n :
  py_int t = Ok n → numeric_phase t = Ok (inject_Z n).
Proof.
  intros Hint. destruct (py_int_token t n Hint) as [Hc Hint'].
  unfold numeric_phase. rewrite normalise_plain.
  2:{ eapply Forall_impl; [exact Hc |]. intros c H. apply int_char_plain. by left. }
  set (t' := filter (λ x, x ≠ 32) t) in *.
  assert (Hfacts : (chr "." ∉ t') ∧ (chr "e" ∉ t') ∧ (chr "/" ∉ t')).
  { rewrite Forall_forall in Hc.
    repeat split; intros [_ H]%list_elem_of_filter;
      apply Hc, int_char_facts in H; by destruct H as (_ & _ & _ & H1 & H2 & H3). }
  destruct Hfacts as (Hp & He & Hs).
  unfold numeric_token.
  rewrite (proj2 (contains_false _ _) Hp), (proj2 (contains_false _ _) He),
    (proj2 (contains_false _ _) Hs).
  cbn [orb]. by rewrite Hint'.
Qed.

(** X1.  The integers and the fractions: a text that [int()] reads as [n] is
    the phase [n]; two such texts around a fraction bar, the second for an
    integer other than zero, are the quotient in lowest terms; and a lone
    minus sign before the bar stands for minus one. *)
Theorem string_to_phase_numerals sympify :
  (∀ t n, py_int t = Ok n →
     string_to_phase sympify t = Ok (PFraction (inject_Z n)))
  ∧ (∀ a b n d, py_int a = Ok n → py_int b = Ok d → d ≠ 0 →
       string_to_phase sympify (a ++ chr "/" :: b)
       = Ok (PFraction (Qred (inject_Z n / inject_Z d))))
  ∧ (∀ b d, py_int b = Ok d → d ≠ 0 →
       string_to_phase sympify (lit "-/" ++ b)
       = Ok (PFraction (Qred (-1 / inject_Z d)))).
Proof.
  split; [| split].
  - intros t n Hint. by apply string_to_phase_numeric, numeric_phase_integer.
  - intros a b n d Ha Hb Hd. apply string_to_phase_numeric.
    rewrite (numeric_phase_fraction a b n d) by auto.
    by apply Fraction_value.
  - intros b d Hb Hd. apply string_to_phase_numeric.
    change (lit "-/" ++ b) with (lit "-" ++ chr "/" :: b).
    rewrite (numeric_phase_fraction (lit "-") b (-1) d) by auto.
    by apply (Fraction_value (-1)).
Qed.

Lemma string_to_phase_numerals_witness :
  string_to_phase no_grammar (lit " -1_2 ") = Ok (PFraction (-12 # 1))
  ∧ string_to_phase no_grammar (lit "6 / -4") = Ok (PFraction (-3 # 2))
  ∧ string_to_phase no_grammar (lit "-/ 03") = Ok (PFraction (-1 # 3)).
Proof.
  destruct (string_to_phase_numerals no_grammar) as (Hint & Hfrac & Hminus).
  split; [| split].
  - apply (Hint (lit " -1_2 ") (-12)). reflexivity.
  - apply (Hfrac (lit "6 ") (lit " -4") 6 (-4)); [reflexivity | reflexivity | lia].
  - apply (Hminus (lit " 03") 3); [reflexivity | lia].
Defined.

(** X2.  A fraction text whose denominator reads as zero raises
    [ZeroDivisionError], whatever the numerator ([int()] has read it, or it
    is left out, or it is a lone minus sign).  The handler of line 371
    does not catch it, and the symbolic fall-back is not asked. *)
Theorem string_to_phase_zero_denominator sympify a b :
  a = [] ∨ a = lit "-" ∨ (∃ n, py_int a = Ok n) →
  py_int b = Ok 0 →
  string_to_phase sympify (a ++ chr "/" :: b) = Raise ZeroDivisionError.
Proof.
  intros Ha Hb. apply string_to_phase_escapes; [| done].
  destruct Ha as [-> | [-> | [n Hn]]].
  - by rewrite (numeric_phase_fraction [] b 1 0) by auto.
  - by rewrite (numeric_phase_fraction (lit "-") b (-1) 0) by auto.
  - by rewrite (numeric_phase_fraction a b n 0) by auto.
Qed.

Lemma string_to_phase_zero_denominator_witness :
  string_to_phase sympify_names (lit "1/0") = Raise ZeroDivisionError
  ∧ string_to_phase sympify_names (lit "/ 0") = Raise ZeroDivisionError.
Proof.
  split.
  - apply (string_to_phase_zero_denominator sympify_names (lit "1") (lit "0"));
      [right; right; by exists 1 | reflexivity].
  - apply (string_to_phase_zero_denominator sympify_names [] (lit " 0"));
      [by left | reflexivity].
Defined.

(** ** Blanks *)

Lemma normalise_blank a b : normalise (a ++ 32 :: b) = normalise (a ++ b).
Proof.
  rewrite !normalise_filter, !lower_app.
  change (lower (32 :: b)) with (32 :: lower b).
  by rewrite !filter_app, filter_cons_False by (intros H; by apply H).
Qed.

(** X3.  The blanks of a phase text (U+0020) do not count, wherever they stand:
    the numeric reading of a text with one more blank is the numeric
    reading of the text, so that ["1 2"] is the number twelve, which
    [int()] alone would turn down. *)
Theorem string_to_phase_blanks sympify a b :
  numeric_phase (a ++ 32 :: b) = numeric_phase (a ++ b)
  ∧ ∀ q, numeric_phase (a ++ b) = Ok q →
      string_to_phase sympify (a ++ 32 :: b) = Ok (PFraction q).
Proof.
  assert (H : numeric_phase (a ++ 32 :: b) = numeric_phase (a ++ b)).
  { unfold numeric_phase. by rewrite normalise_blank. }
  split; [done |]. intros q Hq. apply string_to_phase_numeric. by rewrite H.
Qed.

Lemma string_to_phase_blanks_witness :
  py_int (lit "1 2") = Raise ValueError
  ∧ string_to_phase no_grammar (lit "1 2") = Ok (PFraction (12 # 1)).
Proof.
  split; [reflexivity |].
  apply (proj2 (string_to_phase_blanks no_grammar (lit "1") (lit "2"))).
  reflexivity.
Defined.

(** ** Lowest terms *)

Lemma Qred_inject_Z n : Qred (inject_Z n) = inject_Z n.
Proof.
  unfold Qred, inject_Z.
  pose proof (Z.ggcd_gcd n 1) as Hg.
  pose proof (Z.ggcd_correct_divisors n 1) as Hd.
  destruct (Z.ggcd n 1) as [g0 [aa bb]]. cbn in Hg, Hd.
  rewrite Z.gcd_1_r in Hg. subst g0. destruct Hd as [Ha Hb].
  rewrite Z.mul_1_l in Ha, Hb. by subst aa bb.
Qed.

Lemma Fraction_reduced n d q : Fraction n d = Ok q → Qred q = q.
Proof.
  unfold Fraction. destruct (d =? 0); [done |].
  intros [= <-]. apply Qred_complete, Qred_correct.
Qed.

Lemma numeric_token_reduced s q : numeric_token s = Ok q → Qred q = q.
Proof.
  unfold numeric_token.
  destruct (_ || _).
  { destruct (py_float s) as [[x | neg |] | e]; try done.
    cbn. intros [= <-]. apply Qred_complete, Qred_correct. }
  destruct (contains (chr "/") s).
  - destruct (split _ _ _) as [| a [| b [| c l]]]; try done.
    destruct (str_eqb a []).
    + destruct (py_int b) as [d | e]; [| done]. cbn. apply Fraction_reduced.
    + destruct (py_int _) as [n | e]; [| done]. cbn.
      destruct (py_int b) as [d | e]; [| done]. cbn. apply Fraction_reduced.
  - destruct (py_int s) as [n | e]; [| done]. cbn.
    intros [= <-]. apply Qred_inject_Z.
Qed.

(** X4.  Every [Fraction] the parser returns is in lowest terms: it is its own
    reduced form, so that two phases that are equal as numbers are the same
    value. *)
Theorem string_to_phase_lowest_terms sympify string q :
  string_to_phase sympify string = Ok (PFraction q) →
  Qred q = q ∧ Z.gcd (Qnum q) (Zpos (Qden q)) = 1.
Proof.
  intros H.
  assert (Hred : Qred q = q).
  { unfold string_to_phase in H.
    destruct (str_eqb string []).
    { by injection H as <-. }
    destruct (numeric_phase string) as [q' | e] eqn:Hnum; cbn in H.
    - injection H as <-. by eapply numeric_token_reduced.
    - destruct e; try done.
      by destruct (sympify string). }
  split; [done |].
  rewrite <- Hred. unfold Qred.
  pose proof (Z.ggcd_gcd (Qnum q) (Zpos (Qden q))) as Hg.
  pose proof (Z.ggcd_correct_divisors (Qnum q) (Zpos (Qden q))) as Hd.
  pose proof (Z.gcd_nonneg (Qnum q) (Zpos (Qden q))) as Hnn.
  destruct q as [qn qd]. cbn [Qnum Qden] in *.
  destruct (Z.ggcd qn (Z.pos qd)) as [g0 [aa bb]]. cbn in Hg, Hd.
  destruct Hd as [Hn Hp]. cbn [Qnum Qden snd].
  rewrite <- Hg in Hnn.
  assert (Hg0 : 0 < g0).
  { destruct (Z.eq_dec g0 0) as [E | E]; [| lia]. rewrite E in Hp. lia. }
  assert (0 < bb) by nia.
  rewrite Z2Pos.id by done.
  assert (aa = qn / g0) as ->
    by (rewrite Hn, Z.mul_comm, Z.div_mul; [done | lia]).
  assert (bb = Z.pos qd / g0) as ->
    by (rewrite Hp, Z.mul_comm, Z.div_mul; [done | lia]).
  apply Z.gcd_div_gcd; [lia | done].
Qed.

Lemma string_to_phase_lowest_terms_witness :
  Qred (3 # 2) = (3 # 2)%Q ∧ Z.gcd 3 2 = 1.
Proof.
  exact (string_to_phase_lowest_terms no_grammar (lit "6/4") (3 # 2) eq_refl).
Defined.

(** ** Errors *)

Lemma numeric_token_raises s e :
  numeric_token s = Raise e →
  e = ValueError
  ∨ (e = OverflowError
     ∧ contains (chr ".") s || contains (chr "e") s = true)
  ∨ (e = ZeroDivisionError
     ∧ contains (chr ".") s || contains (chr "e") s = false
     ∧ contains (chr "/") s = true).
Proof.
  unfold numeric_token.
  destruct (_ || _).
  { destruct (py_float s) as [[x | neg |] | e'] eqn:E; cbn; try done.
    - intros [= <-]. right. by left.
    - intros [= <-]. by left.
    - intros [= <-]. apply py_float_raises in E. by left. }
  destruct (contains (chr "/") s).
  - assert (HF : ∀ n d, Fraction n d = Raise e → e = ZeroDivisionError).
    { intros n d. unfold Fraction. destruct (d =? 0); congruence. }
    destruct (split _ _ _) as [| a [| b [| c l]]];
      try (intros [= <-]; by left).
    destruct (str_eqb a []).
    + destruct (py_int b) as [d | e'] eqn:E; cbn.
      * intros H%HF. right. by right.
      * intros [= <-]. apply py_int_raises in E. by left.
    + destruct (py_int _) as [n | e'] eqn:E; cbn.
      * destruct (py_int b) as [d | e''] eqn:E'; cbn.
        -- intros H%HF. right. by right.
        -- intros [= <-]. apply py_int_raises in E'. by left.
      * intros [= <-]. apply py_int_raises in E. by left.
  - destruct (py_int s) as [n | e'] eqn:E; cbn; [done |].
    intros [= <-]. apply py_int_raises in E. by left.
Qed.

(** X5.  The errors of the parser.  When it raises, then either the numeric
    reading has raised [ValueError] and the error is the one of the
    symbolic fall-back; or the text has a point or an [e] and the error is
    [OverflowError]; or it has a fraction bar, no point and no [e], and
    the error is [ZeroDivisionError].  In the last two cases the fall-back
    is not asked. *)
Theorem string_to_phase_errors sympify string e :
  string_to_phase sympify string = Raise e →
  (numeric_phase string = Raise ValueError ∧ sympify string = Raise e)
  ∨ (numeric_phase string = Raise OverflowError ∧ e = OverflowError
     ∧ contains (chr ".") (normalise string)
       || contains (chr "e") (normalise string) = true)
  ∨ (numeric_phase string = Raise ZeroDivisionError ∧ e = ZeroDivisionError
     ∧ contains (chr ".") (normalise string)
       || contains (chr "e") (normalise string) = false
     ∧ contains (chr "/") (normalise string) = true).
Proof.
  unfold string_to_phase. destruct (str_eqb string []); [done |].
  destruct (numeric_phase string) as [q | e'] eqn:Hnum; [done |].
  pose proof (numeric_token_raises _ _ Hnum) as [-> | [[-> Hpe] | [-> Hs]]]; cbn.
  - destruct (sympify string) as [x | e''] eqn:Hs; [done |].
    cbn. intros [= <-]. by left.
  - intros [= <-]. right. by left.
  - intros [= <-]. right. by right.
Qed.

Lemma string_to_phase_errors_witness :
  numeric_phase (lit "1e999") = Raise OverflowError.
Proof.
  destruct (string_to_phase_errors sympify_names (lit "1e999") OverflowError)
    as [[_ H] | [[H _] | (_ & H & _)]].
  - by vm_compute.
  - by vm_compute in H.
  - exact H.
  - discriminate H.
Defined.

(** ** The range of binary64 *)

Lemma nearest_even_le n d k :
  0 ≤ n → 0 < d → 2 * n < (2 * k + 1) * d → nearest_even n d ≤ k.
Proof.
  intros Hn Hd Hk. destruct (nearest_even_spec n d Hn Hd) as [_ H]. nia.
Qed.

(** A tie goes to the even integer. *)
Lemma nearest_even_ge n d k :
  0 ≤ n → 0 < d → Z.even k = true → (2 * k - 1) * d ≤ 2 * n →
  k ≤ nearest_even n d.
Proof.
  intros Hn Hd Hev Hk. unfold nearest_even.
  pose proof (Z.div_mod n d ltac:(lia)) as Hdm.
  pose proof (Z.mod_pos_bound n d Hd) as Hmod.
  assert (Hq : k ≤ n / d + 1) by nia.
  destruct (Z.ltb_spec (2 * (n mod d)) d); [nia |].
  destruct (Z.ltb_spec d (2 * (n mod d))); [lia |].
  destruct (Z.even (n / d)) eqn:Hqe; [| lia].
  destruct (Z.eq_dec k (n / d + 1)) as [-> | Hne]; [| lia].
  rewrite Z.even_add, Hqe in Hev. done.
Qed.

Lemma floor_log2_ge n d k :
  0 < n → 0 < d → 0 ≤ k → 2 ^ k * d ≤ n → k ≤ floor_log2 n d.
Proof.
  intros Hn Hd Hk Hle.
  destruct (floor_log2_spec n d Hn Hd) as [_ Hhi].
  destruct (Z.le_gt_cases k (floor_log2 n d)) as [| Hlt]; [done |]. exfalso.
  pose proof (pow2_le (floor_log2 n d + 1) k ltac:(lia)) as Hp.
  rewrite <- (pow2_inject k) in Hp by done.
  rewrite Zle_Qle, inject_Z_mult in Hle.
  pose proof (inject_Z_pos d Hd) as Hdq.
  set (a := pow2 (floor_log2 n d + 1)) in *. nra.
Qed.

Lemma floor_log2_lt n d k :
  0 < n → 0 < d → 0 ≤ k → n < 2 ^ k * d → floor_log2 n d < k.
Proof.
  intros Hn Hd Hk Hlt.
  destruct (floor_log2_spec n d Hn Hd) as [Hlo _].
  destruct (Z.le_gt_cases k (floor_log2 n d)) as [Hge |]; [| done]. exfalso.
  pose proof (pow2_le k (floor_log2 n d) Hge) as Hp.
  rewrite <- (pow2_inject k) in Hp by done.
  rewrite Zlt_Qlt, inject_Z_mult in Hlt.
  pose proof (inject_Z_pos d Hd) as Hdq.
  set (a := pow2 (floor_log2 n d)) in *. nra.
Qed.

(** The rounding of [n / d] is infinite from [2 ^ 1024 - 2 ^ 970] on, the
    midpoint between the largest binary64 number and [2 ^ 1024], and
    finite below. *)
Lemma round_binary64_overflow n d :
  0 ≤ n → 0 < d →
  round_binary64 n d = None ↔ (2 ^ 1024 - 2 ^ 970) * d ≤ n.
Proof.
  intros Hn Hd. unfold round_binary64.
  destruct (Z.eqb_spec n 0) as [-> | Hn0].
  { split; [done |]. intros H. exfalso. nia. }
  assert (Hn' : 0 < n) by lia. clear Hn Hn0.
  pose proof (rounding_significand n d Hn' Hd) as Hm.
  pose proof (rounding_significand_normal n d Hn' Hd) as Hnormal.
  set (e := ulp_exponent n d) in *.
  set (m := nearest_even (n * 2 ^ Z.max 0 (- e)) (d * 2 ^ Z.max 0 e)) in *.
  assert (He : e = Z.max (floor_log2 n d - 52) (-1074)) by done.
  destruct (Z.le_gt_cases ((2 ^ 1024 - 2 ^ 970) * d) n) as [Hbig | Hsmall].
  - (* at or above the threshold *)
    assert (Hfl : 1023 ≤ floor_log2 n d).
    { apply floor_log2_ge; try done. nia. }
    assert (Hm' : 2 ^ 1024 ≤ m * 2 ^ Z.max 0 e).
    { destruct (Z.le_gt_cases 972 e) as [He' | He'].
      - specialize (Hnormal ltac:(lia)). rewrite Z.max_r by lia.
        assert (2 ^ 972 ≤ 2 ^ e) by (apply Z.pow_le_mono_r; lia).
        change (2 ^ 1024) with (2 ^ 52 * 2 ^ 972). nia.
      - assert (e = 971) as Hee by lia.
        assert (2 ^ 53 ≤ m).
        { unfold m. rewrite Hee. change (Z.max 0 (- 971)) with 0.
          change (Z.max 0 971) with 971. rewrite Z.pow_0_r, Z.mul_1_r.
          apply nearest_even_ge; [lia | lia | done |].
          change (2 * 2 ^ 53 - 1) with (2 ^ 54 - 1).
          replace ((2 ^ 54 - 1) * (d * 2 ^ 971))
            with (2 * ((2 ^ 1024 - 2 ^ 970) * d)); [lia |].
          change (2 ^ 971) with (2 * 2 ^ 970).
          change (2 ^ 1024) with (2 ^ 54 * 2 ^ 970). ring. }
        rewrite Hee. change (Z.max 0 971) with 971.
        change (2 ^ 1024) with (2 ^ 53 * 2 ^ 971). nia. }
    destruct (Z.leb_spec (2 ^ 1024) (m * 2 ^ Z.max 0 e)); [done | lia].
  - (* below the threshold *)
    assert (Hm' : m * 2 ^ Z.max 0 e < 2 ^ 1024).
    { destruct (Z.le_gt_cases e 970) as [He' | He'].
      - assert (2 ^ Z.max 0 e ≤ 2 ^ 970) by (apply Z.pow_le_mono_r; lia).
        assert (0 < 2 ^ Z.max 0 e) by (apply Z.pow_pos_nonneg; lia).
        change (2 ^ 1024) with (2 * (2 ^ 53 * 2 ^ 970)). nia.
      - assert (Hfl : floor_log2 n d < 1024).
        { apply floor_log2_lt; try done. nia. }
        assert (e = 971) as Hee by lia.
        assert (m ≤ 2 ^ 53 - 1).
        { unfold m. rewrite Hee. change (Z.max 0 (- 971)) with 0.
          change (Z.max 0 971) with 971. rewrite Z.pow_0_r, Z.mul_1_r.
          apply nearest_even_le; [lia | lia |].
          change (2 * (2 ^ 53 - 1) + 1) with (2 ^ 54 - 1).
          replace ((2 ^ 54 - 1) * (d * 2 ^ 971))
            with (2 * ((2 ^ 1024 - 2 ^ 970) * d)); [lia |].
          change (2 ^ 971) with (2 * 2 ^ 970).
          change (2 ^ 1024) with (2 ^ 54 * 2 ^ 970). ring. }
        rewrite Hee. change (Z.max 0 971) with 971.
        change (2 ^ 1024) with (2 ^ 53 * 2 ^ 971). nia. }
    destruct (Z.leb_spec (2 ^ 1024) (m * 2 ^ Z.max 0 e)); [lia |].
    split; [done | lia].
Qed.

(** ** Decimal literals, continued *)

Lemma digit_not_in_word c w :
  is_digit c = true → Forall (λ x, is_digit x = false) w → c ∉ w.
Proof.
  intros Hc Hw Hin. rewrite Forall_forall in Hw. apply Hw in Hin. congruence.
Qed.

(** A decimal literal is none of the words of [float()]. *)
Lemma py_float_literal s neg body m e :
  sign (number_strip s) = (neg, body) → floatnumber body = Some (m, e) →
  py_float s = Ok (decimal_to_float neg m e).
Proof.
  intros Hs Hf. unfold py_float. rewrite Hs.
  destruct (floatnumber_spec _ _ _ Hf) as [_ (c & Hc & Hd)].
  assert (Hlow : lower_char c = [c]).
  { apply lower_char_uncased. unfold cased, is_digit in *. lia. }
  destruct (float_word_absent c body Hlow Hc) as [-> ->];
    try (apply digit_not_in_word; [done | by repeat constructor]).
  by rewrite Hf.
Qed.

(** The parser on a decimal literal: [Fraction(float(s))], with the double
    of the literal. *)
Lemma string_to_phase_literal sympify string neg body m e :
  contains (chr ".") (normalise string)
  || contains (chr "e") (normalise string) = true →
  sign (number_strip (normalise string)) = (neg, body) →
  floatnumber body = Some (m, e) →
  string_to_phase sympify string
  = (q <- Fraction_of_float (decimal_to_float neg m e) ;; Ok (PFraction q)).
Proof.
  intros Hpe Hs Hf.
  assert (Hne : string ≠ []).
  { intros ->. by vm_compute in Hpe. }
  unfold string_to_phase, str_eqb. rewrite bool_decide_eq_false_2 by done.
  unfold numeric_phase, numeric_token. rewrite Hpe.
  rewrite (py_float_literal _ _ _ _ _ Hs Hf). cbn [bind].
  unfold decimal_to_float. by destruct (round_binary64 _ _).
Qed.

Lemma pow10_pos e : (0 < 10 ^ e)%Q.
Proof. apply Qpower_0_lt. reflexivity. Qed.

Lemma decimal_value_abs neg m e :
  0 ≤ m → (Qabs (decimal_value neg m e) == inject_Z m * 10 ^ e)%Q.
Proof.
  intros Hm. unfold decimal_value.
  rewrite Qabs_Qmult, (Qabs_pos (10 ^ e)) by apply Qlt_le_weak, pow10_pos.
  rewrite Qabs_inject_Z.
  by replace (Z.abs (apply_sign neg m)) with m by (destruct neg; cbn; lia).
Qed.

(** The double of a decimal literal is infinite exactly when the literal
    stands for a number of magnitude [2 ^ 1024 - 2 ^ 970] or more. *)
Lemma decimal_to_float_overflow neg m e :
  0 ≤ m →
  round_binary64 (m * 10 ^ Z.max 0 e) (10 ^ Z.max 0 (- e)) = None
  ↔ (inject_Z (2 ^ 1024 - 2 ^ 970) <= Qabs (decimal_value neg m e))%Q.
Proof.
  intros Hm.
  assert (Hd : 0 < 10 ^ Z.max 0 (- e)) by (apply Z.pow_pos_nonneg; lia).
  assert (Hn : 0 ≤ m * 10 ^ Z.max 0 e)
    by (apply Z.mul_nonneg_nonneg; [done | apply Z.pow_nonneg; lia]).
  rewrite (round_binary64_overflow _ _ Hn Hd).
  rewrite decimal_value_abs by done.
  rewrite <- decimal_quotient.
  rewrite Zle_Qle, inject_Z_mult.
  pose proof (inject_Z_pos _ Hd) as Hdq.
  set (t := inject_Z (2 ^ 1024 - 2 ^ 970)).
  set (a := inject_Z (m * 10 ^ Z.max 0 e)).
  set (b := inject_Z (10 ^ Z.max 0 (- e))) in *.
  split.
  - intros H. apply Qle_shift_div_l; [done |]. exact H.
  - intros H. apply (Qmult_le_r _ _ b) in H; [| done].
    assert (a / b * b == a)%Q as Hab by (field; lra).
    by rewrite Hab in H.
Qed.

(** X6.  A decimal literal raises [OverflowError] exactly when it stands for a
    number of magnitude [2 ^ 1024 - 2 ^ 970] or more, halfway between the
    largest double and [2 ^ 1024]; below that the parser returns a
    [Fraction]. *)
Theorem string_to_phase_overflow sympify string neg body m e :
  contains (chr ".") (normalise string)
  || contains (chr "e") (normalise string) = true →
  sign (number_strip (normalise string)) = (neg, body) →
  floatnumber body = Some (m, e) →
  (string_to_phase sympify string = Raise OverflowError
   ↔ (inject_Z (2 ^ 1024 - 2 ^ 970) <= Qabs (decimal_value neg m e))%Q)
  ∧ ((Qabs (decimal_value neg m e) < inject_Z (2 ^ 1024 - 2 ^ 970))%Q →
     ∃ q, string_to_phase sympify string = Ok (PFraction q)).
Proof.
  intros Hpe Hs Hf.
  pose proof (floatnumber_nonneg _ _ _ Hf) as Hm.
  rewrite (string_to_phase_literal sympify string neg body m e Hpe Hs Hf).
  pose proof (decimal_to_float_overflow neg m e Hm) as Hover.
  unfold decimal_to_float.
  destruct (round_binary64 _ _) as [q |]; cbn.
  - split.
    + split; [done |]. intros H. by apply Hover in H.
    + intros _. by eexists.
  - split.
    + split; [intros _; by apply Hover | done].
    + intros H. exfalso. apply (Qlt_not_le _ _ H). by apply Hover.
Qed.

Lemma string_to_phase_overflow_witness :
  string_to_phase no_grammar (lit "1.7976931348623158e308")
  ≠ Raise OverflowError
  ∧ string_to_phase no_grammar (lit "1.7976931348623159e308")
    = Raise OverflowError.
Proof.
  split.
  - intros H.
    apply (proj1 (string_to_phase_overflow no_grammar
                    (lit "1.7976931348623158e308") false
                    (lit "1.7976931348623158e308") 17976931348623158 292
                    eq_refl eq_refl eq_refl)) in H.
    by vm_compute in H.
  - apply (proj1 (string_to_phase_overflow no_grammar
                    (lit "1.7976931348623159e308") false
                    (lit "1.7976931348623159e308") 17976931348623159 292
                    eq_refl eq_refl eq_refl)).
    by vm_compute.
Defined.

Lemma binary64_bound q :
  binary64 q → (Qabs q < inject_Z (2 ^ 1024 - 2 ^ 970))%Q.
Proof.
  intros (m & e & Hm & He & ->).
  rewrite Qabs_Qmult, (Qabs_pos (pow2 e)) by apply Qlt_le_weak, pow2_pos.
  rewrite Qabs_inject_Z.
  pose proof (pow2_le e 971 ltac:(lia)) as Hp.
  rewrite <- (pow2_inject 971) in Hp by lia.
  pose proof (pow2_pos e) as Hpos.
  assert (Hmq : (inject_Z (Z.abs m) <= inject_Z (2 ^ 53 - 1))%Q)
    by (rewrite <- Zle_Qle; lia).
  assert (Hm0 : (0 <= inject_Z (Z.abs m))%Q)
    by (change 0%Q with (inject_Z 0); rewrite <- Zle_Qle; lia).
  apply Qle_lt_trans with (inject_Z (2 ^ 53 - 1) * inject_Z (2 ^ 971))%Q.
  - set (a := inject_Z (Z.abs m)) in *. set (p := pow2 e) in *.
    set (b := inject_Z (2 ^ 53 - 1)) in *. set (c := inject_Z (2 ^ 971)) in *.
    assert (0 <= b)%Q by lra. nra.
  - rewrite <- inject_Z_mult, <- Zlt_Qlt. by vm_compute.
Qed.

(** Below the overflow threshold the double of a decimal literal is
    finite, and nearest to the literal. *)
Lemma decimal_to_float_finite neg m e :
  0 ≤ m →
  (Qabs (decimal_value neg m e) < inject_Z (2 ^ 1024 - 2 ^ 970))%Q →
  ∃ d, decimal_to_float neg m e = FFinite d
       ∧ nearest_binary64 (decimal_value neg m e) d.
Proof.
  intros Hm Hlt.
  destruct (decimal_to_float neg m e) as [d | neg' |] eqn:E.
  - exists d. split; [done |]. by apply decimal_to_float_nearest.
  - exfalso. unfold decimal_to_float in E.
    destruct (round_binary64 _ _) eqn:Er; [done |].
    apply (decimal_to_float_overflow neg m e Hm) in Er.
    by apply (Qlt_not_le _ _ Hlt).
  - unfold decimal_to_float in E. by destruct (round_binary64 _ _).
Qed.

Lemma binary64_zero : binary64 0.
Proof. exists 0, 0. split; [done |]. split; [lia | reflexivity]. Qed.

(** A binary64 number is its own nearest binary64 number. *)
Lemma nearest_binary64_exact x q :
  binary64 x → nearest_binary64 x q → (q == x)%Q.
Proof.
  intros Hx [_ Hnear]. specialize (Hnear x Hx).
  assert (Hz : (x - x == 0)%Q) by ring. rewrite Hz in Hnear.
  change (Qabs 0) with 0%Q in Hnear.
  apply Qabs_Qle_condition in Hnear. lra.
Qed.

(** Next to zero there is no binary64 number but zero. *)
Lemma nearest_binary64_underflow x q :
  (Qabs x < pow2 (-1075))%Q → nearest_binary64 x q → (q == 0)%Q.
Proof.
  intros Hx [(m & e & Hm & He & Hq) Hnear].
  specialize (Hnear 0%Q binary64_zero).
  assert (Hz : (x - 0 == x)%Q) by ring. rewrite Hz in Hnear.
  apply Qabs_Qle_condition in Hnear.
  assert (Hxa : (- pow2 (-1075) < x < pow2 (-1075))%Q).
  { pose proof (Qle_Qabs x) as H1. pose proof (Qle_Qabs (- x)) as H2.
    rewrite Qabs_opp in H2. lra. }
  assert (Hxb : (Qabs x < pow2 (-1075))%Q) by done.
  pose proof (pow2_le (-1074) e ltac:(lia)) as Hp.
  assert (Hb : (pow2 (-1074) == 2 * pow2 (-1075))%Q).
  { change 2%Q with (pow2 1). by rewrite <- pow2_add. }
  pose proof (pow2_pos (-1075)) as Hpos.
  rewrite Hq in *.
  assert (m = 0 ∨ 1 ≤ m ∨ m ≤ -1) as [-> | [Hm1 | Hm1]] by lia.
  - ring.
  - exfalso. rewrite Zle_Qle in Hm1.
    set (a := inject_Z m) in *. set (p := pow2 e) in *.
    set (b := pow2 (-1075)) in *. set (b2 := pow2 (-1074)) in *.
    set (ax := Qabs x) in *.
    change (inject_Z 1) with 1%Q in Hm1. nra.
  - exfalso. rewrite Zle_Qle in Hm1.
    set (a := inject_Z m) in *. set (p := pow2 e) in *.
    set (b := pow2 (-1075)) in *. set (b2 := pow2 (-1074)) in *.
    set (ax := Qabs x) in *.
    change (inject_Z (-1)) with (-1)%Q in Hm1. nra.
Qed.

(** X7.  Decimal literals without loss, and with all lost.  A literal that
    stands for a binary64 number, as ["0.5"] and ["1e2"] do, is read as
    that very number; and a literal of magnitude below [2 ^ -1075], half the
    least positive double, is read as zero, with no error. *)
Theorem string_to_phase_exact_decimal sympify string neg body m e :
  contains (chr ".") (normalise string)
  || contains (chr "e") (normalise string) = true →
  sign (number_strip (normalise string)) = (neg, body) →
  floatnumber body = Some (m, e) →
  (binary64 (decimal_value neg m e) →
   string_to_phase sympify string
   = Ok (PFraction (Qred (decimal_value neg m e))))
  ∧ ((Qabs (decimal_value neg m e) < pow2 (-1075))%Q →
     string_to_phase sympify string = Ok (PFraction 0)).
Proof.
  intros Hpe Hs Hf.
  pose proof (floatnumber_nonneg _ _ _ Hf) as Hm.
  rewrite (string_to_phase_literal sympify string neg body m e Hpe Hs Hf).
  split.
  - intros Hb.
    destruct (decimal_to_float_finite neg m e Hm (binary64_bound _ Hb))
      as (d & -> & Hnear).
    cbn. do 2 f_equal. apply Qred_complete.
    by apply nearest_binary64_exact.
  - intros Hsmall.
    assert (Hlt : (Qabs (decimal_value neg m e)
                   < inject_Z (2 ^ 1024 - 2 ^ 970))%Q).
    { apply Qlt_le_trans with (1 := Hsmall).
      apply Qle_trans with (pow2 0); [apply pow2_le; lia | by vm_compute]. }
    destruct (decimal_to_float_finite neg m e Hm Hlt) as (d & -> & Hnear).
    cbn. do 2 f_equal.
    change 0%Q with (Qred 0). apply Qred_complete.
    by eapply nearest_binary64_underflow.
Qed.

Lemma string_to_phase_exact_decimal_witness :
  string_to_phase no_grammar (lit "-2.5e-1") = Ok (PFraction (-1 # 4))
  ∧ string_to_phase no_grammar (lit "1e-400") = Ok (PFraction 0).
Proof.
  split.
  - apply (proj1 (string_to_phase_exact_decimal no_grammar (lit "-2.5e-1")
                    true (lit "2.5e-1") 25 (-2) eq_refl eq_refl eq_refl)).
    exists (-1), (-2). split; [done |]. split; [lia | by vm_compute].
  - apply (proj2 (string_to_phase_exact_decimal no_grammar (lit "1e-400")
                    false (lit "1e-400") 1 (-400) eq_refl eq_refl eq_refl)).
    by vm_compute.
Defined.

(** ** Printing and reading back *)

(** A run of digits is one digit part, read in base ten. *)
Lemma digitpart_digits ds :
  ∀ acc k, ds ≠ [] → Forall (λ c, is_digit c = true) ds →
    digitpart acc k ds
    = Some (foldl (λ a c, 10 * a + (c - 48)) acc ds,
            k + Z.of_nat (length ds), []).
Proof.
  induction ds as [| c | c d r _ IH] using pair_ind; intros acc k Hne Hds.
  - done.
  - apply Forall_cons in Hds as [Hc _]. cbn. rewrite Hc. done.
  - apply Forall_cons in Hds as [Hc Hds].
    pose proof Hds as [Hd _]%Forall_cons.
    cbn [digitpart]. rewrite Hc.
    assert ((d =? UNDERSCORE) = false) as ->.
    { unfold is_digit, UNDERSCORE in *. lia. }
    rewrite IH by done. cbn [foldl length]. do 3 f_equal. lia.
Qed.

Lemma digits_onto_S fuel n acc :
  digits_onto (S fuel) n acc
  = if n <? 10 then (48 + n mod 10) :: acc
    else digits_onto fuel (n / 10) ((48 + n mod 10) :: acc).
Proof. reflexivity. Qed.

Lemma digits_onto_spec fuel :
  ∀ n acc, 0 ≤ n → n < 10 ^ Z.of_nat (S fuel) →
    ∃ ds, digits_onto (S fuel) n acc = ds ++ acc ∧ ds ≠ []
          ∧ Forall (λ c, is_digit c = true) ds
          ∧ (∀ a, foldl (λ a c, 10 * a + (c - 48)) a ds
                  = a * 10 ^ Z.of_nat (length ds) + n)
          ∧ 10 ^ (Z.of_nat (length ds) - 1) ≤ Z.max n 1.
Proof.
  induction fuel as [| fuel IH]; intros n acc Hn Hlt.
  - change (10 ^ Z.of_nat 1) with 10 in Hlt. rewrite digits_onto_S.
    destruct (Z.ltb_spec n 10); [| lia].
    exists [48 + n mod 10]. rewrite Z.mod_small by lia.
    split; [done |]. split; [done |]. split; [| split].
    + constructor; [unfold is_digit; lia | constructor].
    + intros a. cbn. lia.
    + cbn. lia.
  - rewrite digits_onto_S. destruct (Z.ltb_spec n 10).
    + exists [48 + n mod 10]. rewrite Z.mod_small by lia.
      split; [done |]. split; [done |]. split; [| split].
      * constructor; [unfold is_digit; lia | constructor].
      * intros a. cbn. lia.
      * cbn. lia.
    + pose proof (Z.div_mod n 10 ltac:(lia)) as Hdm.
      pose proof (Z.mod_pos_bound n 10 ltac:(lia)) as Hmod.
      assert (Hq : n / 10 < 10 ^ Z.of_nat (S fuel)).
      { rewrite (Nat2Z.inj_succ (S fuel)), Z.pow_succ_r in Hlt by lia. lia. }
      destruct (IH (n / 10) ((48 + n mod 10) :: acc) ltac:(lia) Hq)
        as (ds & Heq & Hne & Hds & Hval & Hlen).
      exists (ds ++ [48 + n mod 10]).
      split; [by rewrite Heq, <- app_assoc |].
      split; [by destruct ds |]. split; [| split].
      * apply Forall_app. split; [done |].
        constructor; [unfold is_digit; lia | constructor].
      * intros a. rewrite foldl_app, Hval. cbn [foldl].
        rewrite length_app, Nat2Z.inj_add, Z.pow_add_r by lia.
        cbn [length]. change (10 ^ Z.of_nat 1) with 10. lia.
      * rewrite length_app, Nat2Z.inj_add. cbn [length].
        replace (Z.of_nat (length ds) + Z.of_nat 1 - 1)
          with (Z.succ (Z.of_nat (length ds) - 1)) by lia.
        assert (0 < length ds)%nat by (destruct ds; [done | cbn; lia]).
        rewrite Z.pow_succ_r by lia. lia.
Qed.

Lemma trimmed_no_space f s :
  Forall (λ c, f c = false) s → trimmed f s.
Proof.
  intros H. rewrite Forall_forall in H. split; intros c r ->; apply H.
  - by left.
  - apply elem_of_app. right. by left.
Qed.

Lemma strip_no_space f s :
  Forall (λ c, f c = false) s → strip_by f s = s.
Proof.
  intros H.
  pose proof (strip_unique f [] s [] ltac:(constructor) ltac:(constructor)
                (trimmed_no_space f s H)) as Hs.
  by rewrite app_nil_l, app_nil_r in Hs.
Qed.

(** The digits of [n], as [str_of_int] makes them. *)
Lemma str_of_int_digits n :
  ∃ ds, digits_onto (S (Z.to_nat (Z.log2 (Z.abs n)))) (Z.abs n) [] = ds
        ∧ ds ≠ [] ∧ Forall (λ c, is_digit c = true) ds
        ∧ foldl (λ a c, 10 * a + (c - 48)) 0 ds = Z.abs n
        ∧ 10 ^ (Z.of_nat (length ds) - 1) ≤ Z.max (Z.abs n) 1.
Proof.
  assert (Hlt : Z.abs n < 10 ^ Z.of_nat (S (Z.to_nat (Z.log2 (Z.abs n))))).
  { pose proof (Z.log2_nonneg (Z.abs n)) as Hl.
    rewrite Nat2Z.inj_succ, Z2Nat.id by done.
    destruct (Z.eq_dec (Z.abs n) 0) as [-> | Hne]; [done |].
    destruct (Z.log2_spec (Z.abs n) ltac:(lia)) as [_ Hhi].
    apply Z.lt_le_trans with (1 := Hhi).
    apply Z.pow_le_mono_l. lia. }
  destruct (digits_onto_spec _ (Z.abs n) [] ltac:(lia) Hlt)
    as (ds & -> & Hne & Hds & Hval & Hlen).
  exists (ds ++ []). rewrite app_nil_r.
  split; [done |]. split; [done |]. split; [done |].
  split; [| done]. rewrite Hval. lia.
Qed.

(** An integer of at most [MAX_STR_DIGITS] digits is printed. *)
Lemma str_of_int_prints n :
  Z.abs n < 10 ^ MAX_STR_DIGITS → ∃ s, str_of_int n = Ok s.
Proof.
  intros Hn. unfold str_of_int.
  destruct (str_of_int_digits n) as (ds & -> & _ & _ & _ & Hlen).
  destruct (Z.ltb_spec MAX_STR_DIGITS (Z.of_nat (length ds))) as [Hbig |];
    [| by eexists].
  exfalso.
  assert (10 ^ MAX_STR_DIGITS ≤ 10 ^ (Z.of_nat (length ds) - 1)).
  { apply Z.pow_le_mono_r; [lia |]. unfold MAX_STR_DIGITS in *. lia. }
  assert (1 < 10 ^ MAX_STR_DIGITS) by (by apply Z.pow_gt_1).
  lia.
Qed.

(** [int(str(n))] is [n]. *)
Lemma py_int_str_of_int n s : str_of_int n = Ok s → py_int s = Ok n.
Proof.
  unfold str_of_int.
  destruct (str_of_int_digits n) as (ds & -> & Hne & Hds & Hval & _).
  destruct (_ <? _); [done |]. intros [= <-].
  assert (Hns : Forall (λ c, is_number_space c = false) ds).
  { eapply Forall_impl; [exact Hds |]. intros c Hc.
    unfold is_digit, is_number_space, is_space in *. lia. }
  assert (Hsign : ∀ c r, ds = c :: r → sign ds = (false, ds)).
  { intros c r ->. apply Forall_cons in Hds as [Hc _]. cbn.
    assert ((c =? chr "-") = false) as ->
      by (change (chr "-") with 45; unfold is_digit in Hc; lia).
    assert ((c =? chr "+") = false) as ->
      by (change (chr "+") with 43; unfold is_digit in Hc; lia).
    done. }
  unfold py_int. destruct (Z.ltb_spec n 0).
  - rewrite strip_no_space by (by constructor).
    cbn [sign]. rewrite Z.eqb_refl.
    rewrite digitpart_digits by done. rewrite Hval. cbn. f_equal. lia.
  - rewrite strip_no_space by done.
    destruct ds as [| c r]; [done |].
    rewrite (Hsign c r eq_refl).
    rewrite digitpart_digits by done. rewrite Hval. cbn. f_equal. lia.
Qed.

(** X8.  What Python prints for a [Fraction] is read back as that
    [Fraction].  For every rational [q] in lowest terms whose numerator and
    denominator have at most 4300 digits, the limit up to which the
    interpreter prints and reads integers, [str(q)] is a text, and the
    parser turns it into [q]; and whatever the size of [q], a text that
    [str(q)] returns is read back as [q]. *)
Theorem string_to_phase_round_trip sympify q :
  Qred q = q →
  (Z.abs (Qnum q) < 10 ^ MAX_STR_DIGITS →
   Zpos (Qden q) < 10 ^ MAX_STR_DIGITS →
   ∃ s, str_of_Fraction q = Ok s
        ∧ string_to_phase sympify s = Ok (PFraction q))
  ∧ (∀ s, str_of_Fraction q = Ok s →
       string_to_phase sympify s = Ok (PFraction q)).
Proof.
  intros Hred.
  assert (Hback : ∀ s, str_of_Fraction q = Ok s →
            string_to_phase sympify s = Ok (PFraction q)).
  { intros s Hs. apply string_to_phase_numeric.
    unfold str_of_Fraction in Hs.
    destruct q as [n d]. cbn [Qnum Qden] in *.
    destruct (Pos.eqb_spec d 1) as [-> | Hd].
    - by rewrite (numeric_phase_integer _ n (py_int_str_of_int n s Hs)).
    - destruct (str_of_int n) as [sn |] eqn:En; [| done].
      destruct (str_of_int (Z.pos d)) as [sd |] eqn:Ed; [| done].
      cbn in Hs. injection Hs as <-.
      rewrite (numeric_phase_fraction _ _ n (Z.pos d));
        [| right; right; by apply py_int_str_of_int
         | by apply py_int_str_of_int].
      unfold Fraction. cbn [Z.eqb Z.sgn].
      change (Z.to_pos (Z.abs (Z.pos d))) with d.
      rewrite Z.mul_1_l. by rewrite Hred. }
  split; [| done].
  intros Hn Hd.
  assert (∃ s, str_of_Fraction q = Ok s) as [s Hs].
  { unfold str_of_Fraction.
    destruct (str_of_int_prints (Qnum q) Hn) as [sn ->].
    destruct (Qden q =? 1)%positive; [by eexists |].
    destruct (str_of_int_prints (Z.pos (Qden q)) ltac:(done)) as [sd ->].
    by eexists. }
  exists s. split; [done |]. by apply Hback.
Qed.

Lemma string_to_phase_round_trip_witness :
  str_of_Fraction (-3 # 4) = Ok (lit "-3/4")
  ∧ string_to_phase no_grammar (lit "-3/4") = Ok (PFraction (-3 # 4)).
Proof.
  split; [reflexivity |].
  apply (proj2 (string_to_phase_round_trip no_grammar (-3 # 4) eq_refl)).
  reflexivity.
Defined.

(** ** The double click, continued *)

Lemma vert_double_clicked_boundary_run parse p v x input_ ok :
  vertices (g p) !! v = Some x →
  kind x = VertexType.BOUNDARY →
  vert_double_clicked parse v (input_, ok) p
  = match py_int (strip input_) with
    | Ok q => (Ok tt, set_g (set_qubit (g p) v q) p)
    | Raise ValueError =>
        show_error_msg "Wrong Input Type"
          "Please enter a valid input (e.g. 1, 2)" p
    | Raise e => (Raise e, p)
    end.
Proof.
  intros Hx Hb. unfold vert_double_clicked.
  unfold mbind at 1 2, gets at 1, lift at 1, type. rewrite Hx. cbn.
  rewrite bool_decide_eq_true_2 by done.
  unfold mbind, try_ValueError, lift, modify, ret, show_error_msg.
  destruct (py_int (strip input_)) as [q | []]; reflexivity.
Qed.

(** X9.  A double click on a boundary vertex, with a text that [int()] turns
    down: one error is shown, and the graph and the undo stack are as they
    were.  Whether the dialog was accepted is not looked at, so that a
    cancelled dialog, which hands over the empty text, shows the error
    too. *)
Theorem vert_double_clicked_boundary_invalid parse p v x :
  vertices (g p) !! v = Some x →
  kind x = VertexType.BOUNDARY →
  (∀ input_ ok e, py_int (strip input_) = Raise e →
     ∃ p', vert_double_clicked parse v (input_, ok) p = (Ok tt, p')
           ∧ g p' = g p ∧ undo_stack p' = undo_stack p
           ∧ error_msgs p'
             = error_msgs p
               ++ [("Wrong Input Type"%string,
                    "Please enter a valid input (e.g. 1, 2)"%string)])
  ∧ (∃ p', vert_double_clicked parse v ([], false) p = (Ok tt, p')
           ∧ g p' = g p
           ∧ length (error_msgs p') = S (length (error_msgs p)))
  ∧ (∀ input_,
       vert_double_clicked parse v (input_, false) p
       = vert_double_clicked parse v (input_, true) p).
Proof.
  intros Hx Hb. split; [| split].
  - intros input_ ok e He.
    rewrite (vert_double_clicked_boundary_run parse p v x input_ ok Hx Hb).
    rewrite He. apply py_int_raises in He as ->.
    eexists. split; [reflexivity |]. done.
  - rewrite (vert_double_clicked_boundary_run parse p v x [] false Hx Hb).
    eexists. split; [reflexivity |]. split; [done |].
    cbn. rewrite length_app. cbn. lia.
  - intros input_.
    by rewrite !(vert_double_clicked_boundary_run parse p v x input_ _ Hx Hb).
Qed.

Lemma vert_double_clicked_boundary_invalid_witness :
  ∃ p', vert_double_clicked example_parse 2 (lit "1.5", true)
          (example_panel [] []) = (Ok tt, p')
        ∧ g p' = example_graph
        ∧ error_msgs p'
          = [("Wrong Input Type"%string,
              "Please enter a valid input (e.g. 1, 2)"%string)].
Proof.
  destruct (proj1 (vert_double_clicked_boundary_invalid example_parse
                     (example_panel [] []) 2 (vertex_of VertexType.BOUNDARY)
                     eq_refl eq_refl) (lit "1.5") true ValueError eq_refl)
    as (p' & Hrun & Hg & _ & Hmsg).
  exists p'. split; [exact Hrun |]. split; [exact Hg | exact Hmsg].
Defined.

(** X10.  A double click on a boundary or on a W vertex never reaches the undo
    stack, the variable table or the parser, and leaves every vertex its
    kind, its phase and its place, and the edges and the pairing as they
    are; on a W vertex it changes nothing at all. *)
Theorem vert_double_clicked_non_generator parse p v x dialog :
  vertices (g p) !! v = Some x →
  kind x = VertexType.BOUNDARY ∨ vertex_is_w (kind x) = true →
  ∃ p', vert_double_clicked parse v dialog p = (Ok tt, p')
        ∧ undo_stack p' = undo_stack p
        ∧ variable_types p' = variable_types p
        ∧ variable_viewer p' = variable_viewer p
        ∧ edges (g p') = edges (g p)
        ∧ w_partner (g p') = w_partner (g p)
        ∧ (∀ u y, vertices (g p) !! u = Some y →
             ∃ y', vertices (g p') !! u = Some y' ∧ kind y' = kind y
                   ∧ phase y' = phase y ∧ pos_x y' = pos_x y
                   ∧ pos_y y' = pos_y y)
        ∧ (vertex_is_w (kind x) = true → p' = p).
Proof.
  intros Hx [Hb | Hw]; destruct dialog as [input_ ok].
  - rewrite (vert_double_clicked_boundary_run parse p v x input_ ok Hx Hb).
    assert (Hnw : vertex_is_w (kind x) = false) by (by rewrite Hb).
    destruct (py_int (strip input_)) as [q | e] eqn:E.
    + eexists. split; [reflexivity |]. cbn. repeat split; try done.
      * intros u y Hy. destruct (decide (u = v)) as [-> | Hne].
        -- rewrite lookup_alter_eq, Hy. cbn. by eexists.
        -- rewrite lookup_alter_ne by done. by eexists.
      * congruence.
    + apply py_int_raises in E as ->.
      eexists. split; [reflexivity |]. cbn. repeat split; try done.
      * intros u y Hy. by eexists.
      * congruence.
  - unfold vert_double_clicked, mbind, gets, lift, type. rewrite Hx. cbn.
    assert (kind x ≠ VertexType.BOUNDARY) by (intros E; by rewrite E in Hw).
    rewrite bool_decide_eq_false_2 by done. rewrite Hw.
    exists p. repeat split; try done. intros u y Hy. by eexists.
Qed.

Lemma vert_double_clicked_non_generator_witness :
  ∃ p', vert_double_clicked example_parse 3 (lit "1/2", true)
          (example_panel [] []) = (Ok tt, p')
        ∧ undo_stack p' = undo_stack (example_panel [] []).
Proof.
  destruct (vert_double_clicked_non_generator example_parse
              (example_panel [] []) 3 (vertex_of VertexType.W_INPUT)
              (lit "1/2", true) eq_refl (or_intror eq_refl))
    as (p' & Hrun & Hundo & _).
  exists p'. split; [exact Hrun | exact Hundo].
Defined.

(** ** The variable table *)

Lemma _new_var_cases name p :
  (is_Some (variable_types p !! name) ∧ _new_var name p = (Ok tt, p))
  ∨ (variable_types p !! name = None
     ∧ _new_var name p
       = (Ok tt,
          set_variable_viewer (variable_viewer p ++ [name])
            (set_variable_types (<[name := false]> (variable_types p)) p))).
Proof.
  unfold _new_var. destruct (variable_types p !! name) eqn:E.
  - left. split; [by eexists | done].
  - right. done.
Qed.

(** The row of a new variable is made by [add_item] (line 188), which
    finds the flag that line 187 has just put in the table. *)
Lemma _new_var_add_item name p :
  _new_var name p
  = (if bool_decide (is_Some (variable_types p !! name)) then ret tt
     else (modify (λ q, set_variable_types
                          (<[name := false]> (variable_types q)) q) ;;;
           add_item name)%M) p.
Proof.
  unfold _new_var. destruct (variable_types p !! name) eqn:E.
  - by rewrite bool_decide_eq_true_2 by (by eexists).
  - rewrite bool_decide_eq_false_2 by (by intros [? ?]).
    unfold mbind, modify, add_item. cbn. by rewrite lookup_insert_eq.
Qed.

Lemma _new_var_in_sync name p :
  viewer_in_sync p → viewer_in_sync (_new_var name p).2.
Proof.
  intros [Hnd Hrows].
  destruct (_new_var_cases name p) as [[_ ->] | [Hnone ->]]; [done |].
  split; cbn.
  - apply NoDup_app. split; [done |]. split; [| apply NoDup_singleton].
    intros n Hn ->%list_elem_of_singleton.
    apply Hrows in Hn as [b Hb]. congruence.
  - intros n. rewrite elem_of_app, list_elem_of_singleton, Hrows.
    rewrite lookup_insert_is_Some. split.
    + intros [H | ->]; [| by left]. destruct (decide (name = n)); auto.
    + intros [-> | [_ H]]; auto.
Qed.

Lemma _text_changed_cases name text p :
  (∃ b, (_text_changed name text p).2
        = set_variable_types (<[name := b]> (variable_types p)) p)
  ∨ (_text_changed name text p).2 = p.
Proof.
  unfold _text_changed.
  destruct (str_eqb text (lit "Parametric")); [left; by exists false |].
  destruct (str_eqb text (lit "Boolean")); [left; by exists true |].
  by right.
Qed.

Lemma _text_changed_in_sync name text p :
  name ∈ variable_viewer p →
  viewer_in_sync p → viewer_in_sync (_text_changed name text p).2.
Proof.
  intros Hname [Hnd Hrows].
  destruct (_text_changed_cases name text p) as [[b ->] | ->]; [| done].
  split; [done |]. cbn. intros n. rewrite Hrows, lookup_insert_is_Some.
  split; [intros H; destruct (decide (name = n)); auto |].
  intros [<- | [_ H]]; [by apply Hrows | done].
Qed.

(** X11.  The viewer and the table stay in step: when the viewer lists the
    variables of the table, each in one row, it still does after any run
    of calls of [_new_var] and of changes of the combo box of a row; and no
    variable is ever dropped. *)
Theorem registry_in_sync p p' :
  viewer_in_sync p → rtc registry_step p p' →
  viewer_in_sync p'
  ∧ ∀ name, is_Some (variable_types p !! name) →
            is_Some (variable_types p' !! name).
Proof.
  intros Hsync Hsteps. induction Hsteps as [p | p q r Hstep _ IH].
  - done.
  - destruct Hstep as [name p | name text p Hname].
    + destruct (IH (_new_var_in_sync name p Hsync)) as [Hr Hkeep].
      split; [done |]. intros n Hn. apply Hkeep.
      destruct (_new_var_cases name p) as [[_ ->] | [_ ->]]; [done |].
      cbn. apply lookup_insert_is_Some. destruct (decide (name = n)); auto.
    + destruct (IH (_text_changed_in_sync name text p Hname Hsync))
        as [Hr Hkeep].
      split; [done |]. intros n Hn. apply Hkeep.
      destruct (_text_changed_cases name text p) as [[b ->] | ->]; [| done].
      cbn. apply lookup_insert_is_Some. destruct (decide (name = n)); auto.
Qed.

Lemma registry_in_sync_witness :
  viewer_in_sync
    (_text_changed (lit "x") (lit "Boolean")
       (_new_var (lit "x") (example_panel [] [])).2).2.
Proof.
  refine (proj1 (registry_in_sync (example_panel [] []) _ _ _)).
  - split; [constructor |]. intros name. cbn. rewrite lookup_empty. split.
    + by intros ?%elem_of_nil.
    + by intros [? ?].
  - eapply rtc_l; [apply (step_new_var (lit "x")) |].
    eapply rtc_l; [| apply rtc_refl].
    apply (step_text_changed (lit "x") (lit "Boolean")).
    by left.
Defined.

(** X12.  [_new_var] never takes a flag back.  A variable that is in the table
    keeps its flag, Boolean or not; a new one comes in as parametric; the
    other entries are not touched; and a second call for the same name
    changes nothing more. *)
Theorem new_var_keeps_flags name p :
  let p' := (_new_var name p).2 in
  _new_var name p = (Ok tt, p')
  ∧ variable_types p' !! name
    = Some (default false (variable_types p !! name))
  ∧ (∀ n, n ≠ name → variable_types p' !! n = variable_types p !! n)
  ∧ _new_var name p' = (Ok tt, p')
  ∧ (_new_var name (_text_changed name (lit "Boolean") p).2).2
    = (_text_changed name (lit "Boolean") p).2.
Proof.
  cbn zeta. split; [| split; [| split; [| split]]].
  - by destruct (_new_var_cases name p) as [[_ ->] | [_ ->]].
  - destruct (_new_var_cases name p) as [[[b Hb] ->] | [Hnone ->]]; cbn.
    + by rewrite Hb.
    + by rewrite lookup_insert_eq, Hnone.
  - intros n Hne.
    destruct (_new_var_cases name p) as [[_ ->] | [_ ->]]; [done |].
    cbn. by rewrite lookup_insert_ne.
  - unfold _new_var.
    destruct (variable_types p !! name) as [b |] eqn:E; cbn.
    + by rewrite E.
    + by rewrite lookup_insert_eq.
  - unfold _text_changed.
    change (str_eqb (lit "Boolean") (lit "Parametric")) with false.
    change (str_eqb (lit "Boolean") (lit "Boolean")) with true.
    unfold _new_var. cbn. by rewrite lookup_insert_eq.
Qed.

Lemma _new_var_table name p :
  _new_var name p = (Ok tt, (_new_var name p).2)
  ∧ variable_types (_new_var name p).2 !! name
    = Some (default false (variable_types p !! name))
  ∧ (∀ n, n ≠ name →
       variable_types (_new_var name p).2 !! n = variable_types p !! n).
Proof.
  split; [| split].
  - by destruct (_new_var_cases name p) as [[_ ->] | [_ ->]].
  - destruct (_new_var_cases name p) as [[[b Hb] ->] | [Hnone ->]]; cbn.
    + by rewrite Hb.
    + by rewrite lookup_insert_eq, Hnone.
  - intros n Hne.
    destruct (_new_var_cases name p) as [[_ ->] | [_ ->]]; [done |].
    cbn. by rewrite lookup_insert_ne.
Qed.

Lemma viewer_in_sync_ext p q :
  variable_types q = variable_types p →
  variable_viewer q = variable_viewer p →
  viewer_in_sync p → viewer_in_sync q.
Proof. unfold viewer_in_sync. by intros -> ->. Qed.

(** The table after the resolver has been called for [names]. *)
Lemma resolve_all_table names :
  ∀ p, ∃ p',
    resolve_all names p = (Ok tt, p')
    ∧ (∀ n, variable_types p' !! n
            = match variable_types p !! n with
              | Some b => Some b
              | None => if bool_decide (n ∈ names) then Some false else None
              end)
    ∧ (viewer_in_sync p → viewer_in_sync p')
    ∧ g p' = g p ∧ undo_stack p' = undo_stack p
    ∧ error_msgs p' = error_msgs p.
Proof.
  induction names as [| name rest IH]; intros p.
  - exists p. split; [done |]. split; [| done].
    intros n. rewrite bool_decide_eq_false_2 by apply not_elem_of_nil.
    by destruct (variable_types p !! n).
  - cbn [resolve_all]. unfold mbind.
    destruct (_new_var_table name p) as (Hrun & Hname & Hother).
    rewrite Hrun.
    destruct (IH (_new_var name p).2)
      as (p' & Hrest & Htable & Hsync & Hg & Hu & He).
    exists p'. split; [done |]. split; [| split].
    + intros n. rewrite Htable.
      destruct (decide (n = name)) as [-> | Hne].
      * rewrite Hname. rewrite bool_decide_eq_true_2 by (by left).
        by destruct (variable_types p !! name).
      * rewrite Hother by done.
        destruct (variable_types p !! n); [done |].
        destruct (decide (n ∈ rest)) as [Hin | Hin].
        -- rewrite !bool_decide_eq_true_2; [done | by right | done].
        -- rewrite !bool_decide_eq_false_2; [done | | done].
           by intros [? | ?]%elem_of_cons.
    + intros H. by apply Hsync, _new_var_in_sync.
    + destruct (_new_var_cases name p) as [[_ E] | [_ E]];
        rewrite E in Hg, Hu, He; by cbn in *.
Qed.

(** X13.  A double click on a generator vertex with an accepted dialog: every
    name the parser hands to the resolver is in the variable table
    afterwards, parametric when it was not there before, whether the text
    is a phase or not; the flags that were in the table are kept; and the
    viewer still lists the table.  A text that is turned down leaves its
    variables behind. *)
Theorem vert_double_clicked_registers parse p v x input_ names outcome :
  vertices (g p) !! v = Some x →
  kind x ≠ VertexType.BOUNDARY →
  vertex_is_w (kind x) = false →
  parse input_ (variable_types p) = (names, outcome) →
  let p' := (vert_double_clicked parse v (input_, true) p).2 in
  (∀ n, variable_types p' !! n
        = match variable_types p !! n with
          | Some b => Some b
          | None => if bool_decide (n ∈ names) then Some false else None
          end)
  ∧ (viewer_in_sync p → viewer_in_sync p')
  ∧ (outcome = Raise ValueError →
     g p' = g p ∧ undo_stack p' = undo_stack p).
Proof.
  intros Hx Hnb Hnw Hparse.
  rewrite (vert_double_clicked_generator_run parse p v x input_ true Hx Hnb Hnw).
  cbn [negb].
  destruct (resolve_all_table names p)
    as (p1 & Hres & Htable & Hsync & Hg & Hu & He).
  assert (Hrun : run_parse parse input_ p = (outcome, p1)).
  { unfold run_parse, mbind, gets, lift. rewrite Hparse.
    unfold mbind in *. by rewrite Hres. }
  unfold mbind, try_ValueError. unfold mbind in Hrun. rewrite Hrun.
  destruct outcome as [new_phase | e]; cbn.
  - split; [done |]. split; [| done].
    intros H. eapply viewer_in_sync_ext; [| | exact (Hsync H)]; done.
  - destruct e; cbn; (split; [done |]);
      (split; [intros H; eapply viewer_in_sync_ext; [| | exact (Hsync H)]; done
              |]);
      done.
Qed.

Lemma vert_double_clicked_registers_witness :
  variable_types
    (vert_double_clicked
       (λ text table, ([lit "x"], Raise ValueError)) 0 (lit "x +", true)
       (example_panel [] [])).2 !! lit "x"
  = Some false.
Proof.
  rewrite (proj1 (vert_double_clicked_registers
                    (λ text table, ([lit "x"], Raise ValueError))
                    (example_panel [] []) 0 (vertex_of VertexType.Z)
                    (lit "x +") [lit "x"] (Raise ValueError)
                    eq_refl ltac:(discriminate) eq_refl eq_refl)).
  reflexivity.
Defined.

(** ** The side bar *)

Section PopulateFacts.

Variable free_vars : Phase → list (str * bool).

Lemma assign_all_lookup vars : ∀ t name,
  (is_Some (foldl assign t vars !! name)
   ↔ is_Some (t !! name) ∨ ∃ b, (name, b) ∈ vars)
  ∧ (∀ b, foldl assign t vars !! name = Some b →
       t !! name = Some b ∨ (name, b) ∈ vars).
Proof.
  induction vars as [| [n c] vars IH]; intros t name; cbn [foldl].
  - split.
    + split; [by left |]. intros [H | [b H]]; [done |].
      by apply elem_of_nil in H.
    + intros b H. by left.
  - destruct (IH (assign t (n, c)) name) as [IHk IHf].
    change (assign t (n, c)) with (<[n := c]> t) in *.
    split.
    + rewrite IHk, lookup_insert_is_Some. split.
      * intros [[-> | [_ H]] | [b H]].
        -- right. exists c. by left.
        -- by left.
        -- right. exists b. by right.
      * intros [H | [b [[= -> ->] | H]%elem_of_cons]].
        -- left. destruct (decide (n = name)); auto.
        -- left. by left.
        -- right. by exists b.
    + intros b H. apply IHf in H as [H | H]; [| right; by right].
      apply lookup_insert_Some in H as [[-> ->] | [_ H]];
        [right; by left | by left].
Qed.

Lemma populate_lookup verts : ∀ t name,
  (is_Some (foldl (populate_vertex free_vars) t verts !! name)
   ↔ is_Some (t !! name)
     ∨ ∃ vert b, vert ∈ verts ∧ (name, b) ∈ free_vars (phase vert.2))
  ∧ (∀ b, foldl (populate_vertex free_vars) t verts !! name = Some b →
       t !! name = Some b
       ∨ ∃ vert, vert ∈ verts ∧ (name, b) ∈ free_vars (phase vert.2)).
Proof.
  induction verts as [| vert verts IH]; intros t name; cbn [foldl].
  - split.
    + split; [by left |]. intros [H | (vert & b & H & _)]; [done |].
      by apply elem_of_nil in H.
    + intros b H. by left.
  - destruct (IH (populate_vertex free_vars t vert) name) as [IHk IHf].
    destruct (assign_all_lookup (free_vars (phase vert.2)) t name)
      as [Hk Hf].
    change (populate_vertex free_vars t vert)
      with (foldl assign t (free_vars (phase vert.2))) in *.
    split.
    + rewrite IHk, Hk. split.
      * intros [[H | [b H]] | (w & b & Hw & H)].
        -- by left.
        -- right. exists vert, b. split; [by left | done].
        -- right. exists w, b. split; [by right | done].
      * intros [H | (w & b & [-> | Hw]%elem_of_cons & H)].
        -- left. by left.
        -- left. right. by exists b.
        -- right. by exists w, b.
    + intros b H. apply IHf in H as [H | (w & Hw & H)].
      * apply Hf in H as [H | H]; [by left |].
        right. exists vert. split; [by left | done].
      * right. exists w. split; [by right | done].
Qed.

(** X14.  [_populate_variables] makes the table anew from the graph alone: its
    names are the free variables of the phases of the vertices, whatever
    was in the table before, and the flag of a name is the [is_bool] of
    one of its occurrences.  Nothing else of the panel changes. *)
Theorem populate_variables_from_graph p :
  let p' := (_populate_variables free_vars p).2 in
  _populate_variables free_vars p = (Ok tt, p')
  ∧ (∀ name, is_Some (variable_types p' !! name)
             ↔ ∃ v x b, vertices (g p) !! v = Some x
                        ∧ (name, b) ∈ free_vars (phase x))
  ∧ (∀ name b, variable_types p' !! name = Some b →
       ∃ v x, vertices (g p) !! v = Some x
              ∧ (name, b) ∈ free_vars (phase x))
  ∧ p' = set_variable_types (variable_types p') p.
Proof.
  cbn zeta. split; [done |]. cbn.
  set (verts := map_to_list (vertices (g p))).
  split; [| split; [| done]].
  - intros name.
    rewrite (proj1 (populate_lookup verts ∅ name)). split.
    + intros [[? H] | ([v x] & b & Hv & H)]; [by rewrite lookup_empty in H |].
      apply elem_of_map_to_list in Hv. by exists v, x, b.
    + intros (v & x & b & Hv & H). right. exists (v, x), b.
      split; [by apply elem_of_map_to_list | done].
  - intros name b H.
    apply (proj2 (populate_lookup verts ∅ name)) in H
      as [H | ([v x] & Hv & H)]; [by rewrite lookup_empty in H |].
    apply elem_of_map_to_list in Hv. by exists v, x.
Qed.

Lemma add_items_rows names :
  ∀ p, (∀ n, n ∈ names → is_Some (variable_types p !! n)) →
    add_items names p
    = (Ok tt, set_variable_viewer (variable_viewer p ++ names) p).
Proof.
  induction names as [| name rest IH]; intros p Hin; cbn [add_items].
  - unfold ret. rewrite app_nil_r. by destruct p.
  - unfold mbind, add_item.
    destruct (Hin name ltac:(by left)) as [b ->].
    rewrite IH by (intros n Hn; cbn; apply Hin; by right).
    cbn. by rewrite <- app_assoc.
Qed.

(** X15.  [create_side_bar] returns, with a viewer that lists the variables of
    the new table, each in one row, and with as many rows as the table has
    entries: [add_item] is never asked for a name that is not there. *)
Theorem create_side_bar_in_sync p :
  ∃ p', create_side_bar free_vars p = (Ok tt, p')
        ∧ viewer_in_sync p'
        ∧ variable_types p' = variable_types (_populate_variables free_vars p).2
        ∧ length (variable_viewer p') = size (variable_types p').
Proof.
  unfold create_side_bar, mbind. cbn.
  unfold VariableViewer_init, mbind, modify, gets. cbn.
  set (table := foldl (populate_vertex free_vars) ∅ (map_to_list (vertices (g p)))).
  rewrite add_items_rows.
  2:{ intros n [[n' b] [-> H]]%list_elem_of_fmap. cbn.
      apply elem_of_map_to_list in H. by exists b. }
  eexists. split; [reflexivity |]. cbn. split; [| split; [done |]].
  - split; cbn.
    + apply NoDup_fst_map_to_list.
    + intros name. rewrite list_elem_of_fmap. split.
      * intros ([n b] & -> & H). apply elem_of_map_to_list in H. by exists b.
      * intros [b H]. exists (name, b). split; [done |].
        by apply elem_of_map_to_list.
  - by rewrite length_map, length_map_to_list.
Qed.

End PopulateFacts.

(** ** Deleting the selection, continued *)

Lemma append_w_partners_stale gr selection :
  ∀ acc v, v ∈ selection → vertices gr !! v = None →
    append_w_partners gr selection acc = Raise KeyError.
Proof.
  induction selection as [| s rest IH]; intros acc v Hv Hnone.
  - by apply elem_of_nil in Hv.
  - cbn [append_w_partners]. unfold type, get_w_partner.
    destruct (vertices gr !! s) as [x |] eqn:Hs; [| done]. cbn.
    assert (Hrest : v ∈ rest).
    { apply elem_of_cons in Hv as [-> | Hv]; [congruence | done]. }
    destruct (vertex_is_w (kind x)).
    + destruct (w_partner gr !! s); [| done]. cbn. by eapply IH.
    + by eapply IH.
Qed.

(** X16.  A selection that holds a handle the graph does not know: the handler
    raises [KeyError] while it gathers the partners, before it has touched
    anything, so that the selection is still there and nothing is
    pushed. *)
Theorem delete_selection_stale_handle p v :
  v ∈ selected_vertices p → vertices (g p) !! v = None →
  delete_selection p = (Raise KeyError, p).
Proof.
  intros Hv Hnone. unfold delete_selection, mbind, gets, lift.
  by rewrite (append_w_partners_stale _ _ _ v Hv Hnone).
Qed.

Lemma delete_selection_stale_handle_witness :
  delete_selection (example_panel [0; 7] [])
  = (Raise KeyError, example_panel [0; 7] []).
Proof.
  apply (delete_selection_stale_handle (example_panel [0; 7] []) 7).
  - right. by left.
  - reflexivity.
Defined.

Lemma delete_selection_nothing p :
  selected_vertices p = [] → selected_edges p = [] →
  delete_selection p = (Ok tt, p).
Proof.
  intros Hv He. unfold delete_selection, mbind, gets, lift. by rewrite Hv, He.
Qed.

(** X17.  Deleting twice deletes once: after [delete_selection] has run on a
    graph whose W vertices are paired, for a selection of its vertices,
    the selection is empty, and a second run changes nothing. *)
Theorem delete_selection_twice p :
  w_paired (g p) →
  (∀ v, v ∈ selected_vertices p → is_Some (vertices (g p) !! v)) →
  let p1 := (delete_selection p).2 in
  delete_selection p = (Ok tt, p1)
  ∧ selected_vertices p1 = [] ∧ selected_edges p1 = []
  ∧ delete_selection p1 = (Ok tt, p1).
Proof.
  intros Hwf Hsel. cbn zeta.
  destruct (delete_selection_run p Hwf Hsel) as (new_g & _ & Hrun).
  rewrite Hrun.
  destruct (is_empty _ && is_empty _) eqn:Hempty.
  - apply andb_prop in Hempty as [Hv He].
    destruct (selected_vertices p) eqn:Ev; [| done].
    destruct (selected_edges p) eqn:Ee; [| done].
    cbn. repeat split; try done; by apply delete_selection_nothing.
  - assert (Hpush : ∀ cmd, (cmd = SetGraph new_g ∨ cmd = UpdateGraph new_g) →
              push cmd (cleared p)
              = (Ok tt,
                 set_undo_stack
                   {| applied := cmd :: applied (undo_stack p);
                      redoable := [] |} (set_g new_g (cleared p)))).
    { by intros cmd [-> | ->]. }
    rewrite Hpush by (destruct (_ <? _)%nat; auto).
    cbn. repeat split; try done; by apply delete_selection_nothing.
Qed.

Lemma delete_selection_twice_witness :
  delete_selection (delete_selection (example_panel [3] [(0, 1)])).2
  = (Ok tt, (delete_selection (example_panel [3] [(0, 1)])).2).
Proof.
  apply (delete_selection_twice (example_panel [3] [(0, 1)])
           example_graph_w_paired).
  intros v ->%list_elem_of_singleton. by eexists.
Defined.

(** ** The edge gesture: the order of the two vertices *)

Lemma push_changes cmd p : push cmd p ≠ (Ok tt, p).
Proof.
  unfold push. destruct (apply_command cmd (g p)); [| done].
  intros [= H]. apply (f_equal (λ q, length (applied (undo_stack q)))) in H.
  cbn in H. lia.
Qed.

Lemma edge_key_comm u v : u ≠ v → edge_key u v = edge_key v u.
Proof.
  intros Hne. unfold edge_key.
  destruct (Z.ltb_spec u v), (Z.ltb_spec v u); try done; lia.
Qed.

Lemma graph_add_edge_comm gr u v k :
  w_paired gr → graph_add_edge gr u v k = graph_add_edge gr v u k.
Proof.
  intros Hwf. unfold graph_add_edge. rewrite (Z.eqb_sym v u).
  destruct (Z.eqb_spec u v) as [| Hne]; [done |].
  rewrite (edge_key_comm u v Hne), (orb_comm (w_input_full gr v)).
  destruct (bool_decide _); [done |]. destruct (_ || _); [done |].
  rewrite (bool_decide_ext (w_partner gr !! u = Some v)
             (w_partner gr !! v = Some u)); [done |].
  split; intros H; apply (w_pair_partner _ _ _ Hwf); by right.
Qed.

(** X18.  The order in which the two vertices are clicked does not count.  On a
    graph whose W vertices are paired, [add_edge u v] turns the pair down
    exactly when [add_edge v u] does, although only the partner of the
    first vertex is looked up; and the graph is the same after the one and
    after the other. *)
Theorem add_edge_symmetric p u v x y :
  w_paired (g p) →
  vertices (g p) !! u = Some x →
  vertices (g p) !! v = Some y →
  (add_edge u v p = (Ok tt, p) ↔ add_edge v u p = (Ok tt, p))
  ∧ g (add_edge u v p).2 = g (add_edge v u p).2.
Proof.
  intros Hwf Hu Hv.
  set (rejected a b := w_pair (g p) a b ∨ w_input_full (g p) a = true
                       ∨ w_input_full (g p) b = true).
  assert (Hsym : rejected u v ↔ rejected v u).
  { unfold rejected, w_pair. tauto. }
  assert (Hem : ∀ a b, rejected a b ∨ ¬ rejected a b).
  { intros a b. unfold rejected, w_pair.
    destruct (decide (w_partner (g p) !! a = Some b)); [tauto |].
    destruct (decide (w_partner (g p) !! b = Some a)); [tauto |].
    destruct (w_input_full (g p) a); [tauto |].
    destruct (w_input_full (g p) b); [tauto |].
    right. intros [[? | ?] | [? | ?]]; done. }
  destruct (Hem u v) as [Hrej | Hacc].
  - rewrite (add_edge_rejects p u v x y Hwf Hu Hv Hrej).
    by rewrite (add_edge_rejects p v u y x Hwf Hv Hu (proj1 Hsym Hrej)).
  - assert (Hacc' : ¬ rejected v u) by (by rewrite <- Hsym).
    rewrite (add_edge_pushes p u v x y Hwf Hu Hv Hacc).
    rewrite (add_edge_pushes p v u y x Hwf Hv Hu Hacc').
    split.
    + split; intros H; by apply push_changes in H.
    + unfold push, apply_command.
      rewrite (graph_add_edge_comm (g p) u v _ Hwf).
      by destruct (graph_add_edge (g p) v u (_curr_ety p)).
Qed.

Lemma add_edge_symmetric_witness :
  (add_edge 4 3 (example_panel [] []) = (Ok tt, example_panel [] [])
   ↔ add_edge 3 4 (example_panel [] []) = (Ok tt, example_panel [] []))
  ∧ g (add_edge 2 0 (example_panel [] [])).2
    = g (add_edge 0 2 (example_panel [] [])).2.
Proof.
  split.
  - apply (add_edge_symmetric (example_panel [] []) 4 3
             (vertex_of VertexType.W_OUTPUT) (vertex_of VertexType.W_INPUT)
             example_graph_w_paired eq_refl eq_refl).
  - apply (add_edge_symmetric (example_panel [] []) 2 0
             (vertex_of VertexType.BOUNDARY) (vertex_of VertexType.Z)
             example_graph_w_paired eq_refl eq_refl).
Defined.

(** ** The current vertex kind *)

Lemma push_curr_vty cmd p : _curr_vty (push cmd p).2 = _curr_vty p.
Proof. unfold push. by destruct (apply_command cmd (g p)). Qed.

Lemma resolve_all_curr_vty names :
  ∀ p, _curr_vty (resolve_all names p).2 = _curr_vty p.
Proof.
  induction names as [| name rest IH]; intros p; [done |].
  cbn [resolve_all]. unfold mbind.
  destruct (_new_var_cases name p) as [[_ ->] | [_ ->]]; by rewrite IH.
Qed.

Lemma delete_selection_curr_vty p :
  _curr_vty (delete_selection p).2 = _curr_vty p.
Proof.
  unfold delete_selection, mbind, gets, lift, ret, clearSelection, modify.
  destruct (append_w_partners _ _ _) as [rem | e]; [| done]. cbn.
  destruct (is_empty rem && is_empty _); [done |]. cbn.
  destruct (remove_vertices _ _) as [new_g | e]; [| done]. cbn.
  by rewrite push_curr_vty.
Qed.

Lemma add_edge_curr_vty u v p : _curr_vty (add_edge u v p).2 = _curr_vty p.
Proof.
  destruct (add_edge_cases p u v) as [-> | [[e ->] | ->]]; try done.
  apply push_curr_vty.
Qed.

Lemma vert_double_clicked_curr_vty parse v dialog p :
  _curr_vty (vert_double_clicked parse v dialog p).2 = _curr_vty p.
Proof.
  unfold vert_double_clicked, mbind, gets, lift.
  destruct (type (g p) v) as [ty | e]; [| done]. cbn.
  destruct dialog as [input_ ok].
  destruct (bool_decide (ty = VertexType.BOUNDARY)).
  { unfold try_ValueError, mbind, lift, modify, ret, show_error_msg.
    by destruct (py_int (strip input_)) as [q | []]. }
  destruct (vertex_is_w ty); [done |].
  destruct ok; [| done]. cbn.
  unfold try_ValueError, run_parse, mbind, gets, lift, ret, show_error_msg,
    modify.
  destruct (parse input_ (variable_types p)) as [names outcome].
  pose proof (resolve_all_curr_vty names p) as Hres.
  destruct (resolve_all names p) as [[[] | e] p1]; cbn in *.
  - by destruct outcome as [new_phase | []].
  - by destruct e.
Qed.

Section GestureFacts.

Variable parse : str → gmap str bool → list str * result Phase.
Variable push_node : NodeCommand → M unit.

(** Pushing a command leaves the current vertex kind alone. *)
Hypothesis push_node_curr_vty :
  ∀ cmd p, _curr_vty (push_node cmd p).2 = _curr_vty p.

Lemma handle_curr_vty gesture p :
  _curr_vty p ∈ map fst VERTICES →
  _curr_vty (handle parse push_node gesture p).2 ∈ map fst VERTICES.
Proof using push_node_curr_vty.
  intros Hin. destruct gesture; cbn [handle].
  - unfold item_clicked.
    destruct (VERTICES !! i) as [[typ entry] |] eqn:Hi; [| done].
    assert (Htyp : typ ∈ map fst VERTICES).
    { apply list_elem_of_fmap. exists (typ, entry). split; [done |].
      by eapply list_elem_of_lookup_2. }
    unfold _vty_clicked, mbind, modify, gets, ret. cbn.
    destruct (0 <? length _)%nat; [| done].
    by rewrite push_node_curr_vty.
  - unfold item_clicked.
    destruct (EDGES !! i) as [[typ entry] |]; [| done].
    unfold _ety_clicked, mbind, modify, gets, ret. cbn.
    destruct (0 <? length _)%nat; [| done].
    by rewrite push_node_curr_vty.
  - unfold add_vert, mbind, gets. by rewrite push_node_curr_vty.
  - by rewrite add_edge_curr_vty.
  - unfold vert_moved. by rewrite push_node_curr_vty.
  - by rewrite vert_double_clicked_curr_vty.
  - by rewrite delete_selection_curr_vty.
  - unfold clear_graph. by rewrite push_curr_vty.
  - done.
  - done.
Qed.

(** X19.  No lone W vertex is ever asked for.  The panel starts with the kind
    [Z] (line 71), and the list of the side bar offers the kinds of
    [VERTICES], where the W node stands under [W_OUTPUT]: whatever the
    clicks and gestures, the current kind is one of these, never
    [W_INPUT]; and [add_vert] pushes an [AddWNode], or an [AddNode] for a
    spider, an H box or a boundary. *)
Theorem add_vert_never_lone_w gestures p :
  _curr_vty p ∈ map fst VERTICES →
  let p' := run parse push_node gestures p in
  _curr_vty p' ≠ VertexType.W_INPUT
  ∧ ∀ x y,
      add_vert push_node x y p' = push_node (AddWNode x y) p'
      ∨ ∃ vty, vty ∈ [VertexType.Z; VertexType.X; VertexType.H_BOX;
                      VertexType.BOUNDARY]
               ∧ add_vert push_node x y p' = push_node (AddNode x y vty) p'.
Proof using push_node_curr_vty.
  intros Hin. cbn zeta.
  assert (Hrun : _curr_vty (run parse push_node gestures p)
                 ∈ map fst VERTICES).
  { unfold run. revert p Hin.
    induction gestures as [| gesture rest IH]; intros p Hin; [done |].
    cbn [foldl]. apply IH. by apply handle_curr_vty. }
  set (p' := run parse push_node gestures p) in *.
  unfold add_vert, mbind, gets.
  assert (Hcases : _curr_vty p' = VertexType.Z ∨ _curr_vty p' = VertexType.X
                   ∨ _curr_vty p' = VertexType.H_BOX
                   ∨ _curr_vty p' = VertexType.BOUNDARY
                   ∨ _curr_vty p' = VertexType.W_OUTPUT).
  { cbn in Hrun.
    repeat (apply elem_of_cons in Hrun as [Hrun | Hrun]; [tauto |]).
    by apply elem_of_nil in Hrun. }
  destruct Hcases as [E | [E | [E | [E | E]]]]; rewrite E;
    (split; [done |]); intros x y; cbn.
  - right. exists VertexType.Z. split; [by left | done].
  - right. exists VertexType.X. split; [right; by left | done].
  - right. exists VertexType.H_BOX. split; [do 2 right; by left | done].
  - right. exists VertexType.BOUNDARY. split; [do 3 right; by left | done].
  - by left.
Qed.

End GestureFacts.

Lemma add_vert_never_lone_w_witness :
  _curr_vty
    (run example_parse (λ cmd, ret tt)
       [VertexItemClicked 4; SelectionChanged [0] []; VertexItemClicked 7;
        AddVert 0 0; DeleteSelection]
       (example_panel [] []))
  ≠ VertexType.W_INPUT.
Proof.
  refine (proj1 (add_vert_never_lone_w example_parse (λ cmd, ret tt) _
                   [VertexItemClicked 4; SelectionChanged [0] [];
                    VertexItemClicked 7; AddVert 0 0; DeleteSelection]
                   (example_panel [] []) _)).
  - done.
  - by left.
Defined.

(** ** Errors of the phase parser in the double click *)

(** X21.  The handler of line 179 catches [ValueError] and nothing else.  When
    the parser raises another error on the text of an accepted dialog, the
    double click raises it: no error message is shown, no command is
    pushed and the graph is as it was. *)
Theorem vert_double_clicked_uncaught parse p v x input_ names e :
  vertices (g p) !! v = Some x →
  kind x ≠ VertexType.BOUNDARY →
  vertex_is_w (kind x) = false →
  parse input_ (variable_types p) = (names, Raise e) →
  e ≠ ValueError →
  ∃ p', vert_double_clicked parse v (input_, true) p = (Raise e, p')
        ∧ g p' = g p ∧ undo_stack p' = undo_stack p
        ∧ error_msgs p' = error_msgs p.
Proof.
  intros Hx Hnb Hnw Hparse He.
  rewrite (vert_double_clicked_generator_run parse p v x input_ true Hx Hnb Hnw).
  cbn [negb].
  destruct (run_parse_frame _ _ _ _ _ Hparse) as (p1 & Hrun & Hg & Hu & Hm).
  unfold mbind, try_ValueError. unfold mbind in Hrun. rewrite Hrun. cbn.
  exists p1. by destruct e.
Qed.

Lemma vert_double_clicked_uncaught_witness :
  ∃ p', vert_double_clicked
          (λ text table, ([], string_to_phase no_grammar text)) 0
          (lit "1/0", true) (example_panel [] [])
        = (Raise ZeroDivisionError, p')
        ∧ error_msgs p' = [].
Proof.
  destruct (vert_double_clicked_uncaught
              (λ text table, ([], string_to_phase no_grammar text))
              (example_panel [] []) 0 (vertex_of VertexType.Z) (lit "1/0") []
              ZeroDivisionError eq_refl ltac:(discriminate) eq_refl eq_refl
              ltac:(discriminate))
    as (p' & Hrun & _ & _ & Hmsg).
  exists p'. split; [exact Hrun | exact Hmsg].
Defined.

(** ** The pairing of the W vertices, under all gestures *)

Lemma w_paired_same gr gr' :
  vertices gr' = vertices gr → w_partner gr' = w_partner gr →
  w_paired gr → w_paired gr'.
Proof. unfold w_paired. by intros -> ->. Qed.

Lemma lookup_alter_kind (f : Vertex → Vertex) v (m : gmap VT Vertex) w :
  (∀ x, kind (f x) = kind x) →
  (∀ x, m !! w = Some x →
     ∃ x', alter f v m !! w = Some x' ∧ kind x' = kind x)
  ∧ (∀ x', alter f v m !! w = Some x' →
       ∃ x, m !! w = Some x ∧ kind x' = kind x).
Proof.
  intros Hf. destruct (decide (w = v)) as [-> | Hne].
  - rewrite lookup_alter_eq. split.
    + intros x ->. exists (f x). by split.
    + intros x' H. destruct (m !! v) as [x |]; [| done].
      injection H as <-. exists x. by split.
  - rewrite lookup_alter_ne by done. split; intros x H; by exists x.
Qed.

(** A change of the attributes of a vertex other than its kind keeps the
    pairing invariant. *)
Lemma w_paired_alter gr (f : Vertex → Vertex) v :
  (∀ x, kind (f x) = kind x) →
  w_paired gr →
  w_paired {| vertices := alter f v (vertices gr);
              edges := edges gr;
              w_partner := w_partner gr |}.
Proof.
  intros Hf [Hpart Hall]. split; cbn.
  - intros a b Hab.
    destruct (Hpart _ _ Hab) as (x & y & Hx & Hy & Hwx & Hwy & Hne & Hback).
    destruct (proj1 (lookup_alter_kind f v (vertices gr) a Hf) x Hx)
      as (x' & Hx' & Hkx).
    destruct (proj1 (lookup_alter_kind f v (vertices gr) b Hf) y Hy)
      as (y' & Hy' & Hky).
    exists x', y'. rewrite Hkx, Hky. by repeat split.
  - intros a x' Hx' Hw.
    destruct (proj2 (lookup_alter_kind f v (vertices gr) a Hf) x' Hx')
      as (x & Hx & Hkx).
    rewrite Hkx in Hw. by eapply Hall.
Qed.

Lemma w_paired_empty : w_paired empty_graph.
Proof.
  split; cbn.
  - intros v u H. by rewrite lookup_empty in H.
  - intros v x H. by rewrite lookup_empty in H.
Qed.

Lemma push_w_paired cmd p :
  w_paired (g p) →
  (∀ new_g, cmd = SetGraph new_g ∨ cmd = UpdateGraph new_g → w_paired new_g) →
  w_paired (g (push cmd p).2).
Proof.
  intros Hwf Hnew. unfold push.
  destruct (apply_command cmd (g p)) as [g' |] eqn:E; [| done]. cbn.
  destruct cmd as [u v ety | new_g | new_g | v ph]; cbn in E.
  - unfold graph_add_edge in E.
    destruct (u =? v); [done |]. destruct (bool_decide _); [done |].
    destruct (_ || _); [done |]. destruct (bool_decide _); [done |].
    injection E as <-. by eapply w_paired_same.
  - injection E as <-. apply Hnew. by left.
  - injection E as <-. apply Hnew. by right.
  - injection E as <-. by apply w_paired_alter.
Qed.

Lemma delete_selection_w_paired p :
  w_paired (g p) → w_paired (g (delete_selection p).2).
Proof.
  intros Hwf.
  unfold delete_selection, mbind, gets, lift, ret, clearSelection, modify.
  destruct (append_w_partners _ _ _) as [rem | e]; [| done]. cbn.
  destruct (is_empty rem && is_empty _); [done |]. cbn.
  destruct (remove_vertices _ _) as [new_g | e] eqn:E; [| done]. cbn.
  apply remove_vertices_w_paired in E; [| by apply remove_edges_w_paired].
  apply push_w_paired; [done |].
  intros new_g' H. by destruct (_ <? _)%nat, H as [[= <-] | [= <-]].
Qed.

Lemma add_edge_w_paired u v p :
  w_paired (g p) → w_paired (g (add_edge u v p).2).
Proof.
  intros Hwf.
  destruct (add_edge_cases p u v) as [-> | [[e ->] | ->]]; try done.
  apply push_w_paired; [done |]. by intros new_g [? | ?].
Qed.

Lemma resolve_all_g names : ∀ p, g (resolve_all names p).2 = g p.
Proof.
  intros p. by destruct (resolve_all_frame names p) as (p' & -> & Hg & _).
Qed.

Lemma vert_double_clicked_w_paired parse v dialog p :
  w_paired (g p) → w_paired (g (vert_double_clicked parse v dialog p).2).
Proof.
  intros Hwf.
  unfold vert_double_clicked, mbind, gets, lift.
  destruct (type (g p) v) as [ty | e]; [| done]. cbn.
  destruct dialog as [input_ ok].
  destruct (bool_decide (ty = VertexType.BOUNDARY)).
  { unfold try_ValueError, mbind, lift, modify, ret, show_error_msg.
    destruct (py_int (strip input_)) as [q | []]; cbn; try done.
    by apply w_paired_alter. }
  destruct (vertex_is_w ty); [done |].
  destruct ok; [| done]. cbn.
  unfold try_ValueError, run_parse, mbind, gets, lift, ret, show_error_msg,
    modify.
  destruct (parse input_ (variable_types p)) as [names outcome].
  pose proof (resolve_all_g names p) as Hres.
  destruct (resolve_all names p) as [[[] | e] p1]; cbn in *.
  - destruct outcome as [new_phase | []]; cbn; try (by rewrite Hres).
    apply (w_paired_alter (g p1)); [done | by rewrite Hres].
  - destruct e; cbn; by rewrite Hres.
Qed.

Section GesturePairing.

Variable parse : str → gmap str bool → list str * result Phase.
Variable push_node : NodeCommand → M unit.

(** The commands of [NodeCommand] keep the pairing of the W vertices. *)
Hypothesis push_node_w_paired :
  ∀ cmd p, w_paired (g p) → w_paired (g (push_node cmd p).2).

Lemma handle_w_paired gesture p :
  w_paired (g p) → w_paired (g (handle parse push_node gesture p).2).
Proof using push_node_w_paired.
  intros Hwf. destruct gesture; cbn [handle].
  - unfold item_clicked.
    destruct (VERTICES !! i) as [[typ entry] |]; [| done].
    unfold _vty_clicked, mbind, modify, gets, ret. cbn.
    destruct (0 <? length _)%nat; [| done]. by apply push_node_w_paired.
  - unfold item_clicked.
    destruct (EDGES !! i) as [[typ entry] |]; [| done].
    unfold _ety_clicked, mbind, modify, gets, ret. cbn.
    destruct (0 <? length _)%nat; [| done]. by apply push_node_w_paired.
  - unfold add_vert, mbind, gets. by apply push_node_w_paired.
  - by apply add_edge_w_paired.
  - unfold vert_moved. by apply push_node_w_paired.
  - by apply vert_double_clicked_w_paired.
  - by apply delete_selection_w_paired.
  - unfold clear_graph. apply push_w_paired; [done |].
    intros new_g [[= <-] | [=]]. apply w_paired_empty.
  - done.
  - done.
Qed.

(** X22.  The W vertices stay paired.  Provided the commands that add, retype
    and move vertices keep the pairing, so does every run of gestures:
    [add_edge], [delete_selection] (whatever is selected),
    [vert_double_clicked], [clear_graph] and the clicks on the side bar
    leave a graph whose W vertices are paired with its W vertices
    paired. *)
Theorem run_keeps_w_paired gestures p :
  w_paired (g p) → w_paired (g (run parse push_node gestures p)).
Proof using push_node_w_paired.
  unfold run. revert p.
  induction gestures as [| gesture rest IH]; intros p Hwf; [done |].
  cbn [foldl]. apply IH. by apply handle_w_paired.
Qed.

End GesturePairing.

Lemma run_keeps_w_paired_witness :
  w_paired
    (g (run example_parse (λ cmd, ret tt)
          [SelectionChanged [3] [(0, 1)]; DeleteSelection;
           VertDoubleClicked 2 (lit "1", true); AddEdgeGesture 0 2;
           ClearGraph]
          (example_panel [] []))).
Proof.
  apply (run_keeps_w_paired example_parse (λ cmd, ret tt)).
  - done.
  - apply example_graph_w_paired.
Defined.
